(** * Judging engine of problemtools' verifyproblem.py

    A shallow embedding of the parts of [verifyproblem.py] that decide
    verdicts: the POSIX status predicates, the output-validator exit-code
    protocol, the interactive verdict precedence, the three-limit
    classification of a test case with its result cache and reuse aliases,
    the aggregation of child results in a test group, the inference of the
    time limits, and the natural-sort comparison of group names; and, around
    them, the run of a whole tree of test data, the maximum score of a group
    with the check of its grading, the check of the order of the groups, the
    counting of errors and warnings, and the names check_basename accepts.

    Conventions of the embedding.
    - Python [float] values (runtimes, scores) are rationals [Q]: comparisons
      and arithmetic are exact, there is no NaN and no infinity.
    - A Python attribute that may hold [None] is an [option].
    - An exception is a constructor of [Exn]; code that can raise returns an
      [Outcome].
    - Processes, files and clocks are not run: what they produced is an
      argument of the function that consumes it. *)

From Stdlib Require Import ZArith QArith Qround List String Ascii Bool Lia.
From Stdlib Require Import DecimalString DecimalN.
From stdpp Require Import base option list gmap.

Local Open Scope Z_scope.

(** ** Verdicts and results *)

Inductive Verdict := AC | TLE | OLE | MLE | RTE | WA | PAC | JE.

#[global] Instance Verdict_eq_dec : EqDecision Verdict.
Proof. solve_decision. Defined.

(** Identity of a test case object, and identity of a result object held in
    a [sample_failures] list. *)
Definition tcid := nat.
Definition ref := nat.

(** The [reason] strings built by the validator driver; the payload is the
    number formatted into the message. *)
Inductive Reason :=
| ScoreTxtWithoutCustomScoring
| ValidatorCrashed (status : Z)
| ValidatorExitedWith (ret : Z)
| FailedToParseScore
| ScoreTxtMissing.

(** class SubmissionResult *)
Record SubmissionResult := mkSubmissionResult {
  verdict : option Verdict;
  score : option Q;
  reason : option Reason;
  additional_info : option string;
  testcase : option tcid;
  runtime_testcase : option tcid;
  runtime : Q;
  ac_runtime : Q;
  ac_runtime_testcase : option tcid;
  validator_first : bool;
  sample_failures : list ref
}.

(** SubmissionResult.__init__ *)
Definition new_SubmissionResult (v : option Verdict) (sc : option Q)
    (rs : option Reason) (info : option string) : SubmissionResult :=
  {| verdict := v; score := sc; reason := rs; additional_info := info;
     testcase := None; runtime_testcase := None;
     runtime := -1; ac_runtime := -1; ac_runtime_testcase := None;
     validator_first := false; sample_failures := [] |}.

(** Attribute assignments [r.f = x]. *)
Definition set_verdict (x : option Verdict) (r : SubmissionResult) :=
  mkSubmissionResult x (score r) (reason r) (additional_info r) (testcase r)
    (runtime_testcase r) (runtime r) (ac_runtime r) (ac_runtime_testcase r)
    (validator_first r) (sample_failures r).
Definition set_score (x : option Q) (r : SubmissionResult) :=
  mkSubmissionResult (verdict r) x (reason r) (additional_info r) (testcase r)
    (runtime_testcase r) (runtime r) (ac_runtime r) (ac_runtime_testcase r)
    (validator_first r) (sample_failures r).
Definition set_reason (x : option Reason) (r : SubmissionResult) :=
  mkSubmissionResult (verdict r) (score r) x (additional_info r) (testcase r)
    (runtime_testcase r) (runtime r) (ac_runtime r) (ac_runtime_testcase r)
    (validator_first r) (sample_failures r).
Definition set_additional_info (x : option string) (r : SubmissionResult) :=
  mkSubmissionResult (verdict r) (score r) (reason r) x (testcase r)
    (runtime_testcase r) (runtime r) (ac_runtime r) (ac_runtime_testcase r)
    (validator_first r) (sample_failures r).
Definition set_testcase (x : option tcid) (r : SubmissionResult) :=
  mkSubmissionResult (verdict r) (score r) (reason r) (additional_info r) x
    (runtime_testcase r) (runtime r) (ac_runtime r) (ac_runtime_testcase r)
    (validator_first r) (sample_failures r).
Definition set_runtime_testcase (x : option tcid) (r : SubmissionResult) :=
  mkSubmissionResult (verdict r) (score r) (reason r) (additional_info r)
    (testcase r) x (runtime r) (ac_runtime r) (ac_runtime_testcase r)
    (validator_first r) (sample_failures r).
Definition set_runtime (x : Q) (r : SubmissionResult) :=
  mkSubmissionResult (verdict r) (score r) (reason r) (additional_info r)
    (testcase r) (runtime_testcase r) x (ac_runtime r) (ac_runtime_testcase r)
    (validator_first r) (sample_failures r).
Definition set_ac_runtime_fields (x : Q) (t : option tcid) (r : SubmissionResult) :=
  mkSubmissionResult (verdict r) (score r) (reason r) (additional_info r)
    (testcase r) (runtime_testcase r) (runtime r) x t
    (validator_first r) (sample_failures r).
Definition set_validator_first (x : bool) (r : SubmissionResult) :=
  mkSubmissionResult (verdict r) (score r) (reason r) (additional_info r)
    (testcase r) (runtime_testcase r) (runtime r) (ac_runtime r)
    (ac_runtime_testcase r) x (sample_failures r).
Definition set_sample_failures (x : list ref) (r : SubmissionResult) :=
  mkSubmissionResult (verdict r) (score r) (reason r) (additional_info r)
    (testcase r) (runtime_testcase r) (runtime r) (ac_runtime r)
    (ac_runtime_testcase r) (validator_first r) x.

(** [r.verdict == v] *)
Definition verdict_is (v : Verdict) (r : SubmissionResult) : bool :=
  bool_decide (verdict r = Some v).

(** SubmissionResult.set_ac_runtime *)
Definition set_ac_runtime (r : SubmissionResult) : SubmissionResult :=
  if verdict_is AC r
  then set_ac_runtime_fields (runtime r) (runtime_testcase r) r
  else r.

(** Comparisons of numbers, as booleans. *)
Definition Qlt_bool (a b : Q) : bool := negb (Qle_bool b a).
Definition Qgt_bool (a b : Q) : bool := Qlt_bool b a.

(** ** Wait statuses

    [os.WIFEXITED] and its siblings are the C macros of the platform; these
    are the Linux ones, on the 16 low bits of the status. *)
Module Posix.
Definition WTERMSIG (status : Z) : Z := Z.land status 127.
Definition WEXITSTATUS (status : Z) : Z := Z.shiftr (Z.land status 65280) 8.
Definition WIFEXITED (status : Z) : bool := WTERMSIG status =? 0.
Definition WIFSIGNALED (status : Z) : bool :=
  (0 <? WTERMSIG status) && (WTERMSIG status <? 127).
Definition SIGXCPU : Z := 24.
Definition SIGUSR1 : Z := 10.
End Posix.
Import Posix.

Definition is_TLE (status : Z) (may_signal_with_usr1 : bool) : bool :=
  WIFSIGNALED status &&
  ((WTERMSIG status =? SIGXCPU) ||
   (may_signal_with_usr1 && (WTERMSIG status =? SIGUSR1))).

Definition is_RTE (status : Z) : bool :=
  negb (WIFEXITED status) || negb (WEXITSTATUS status =? 0).

(** ** Output validators: the exit-code protocol *)

(** What a validator left in its feedback directory: [score_txt] is [None]
    when there is no file score.txt, [Some None] when [float] rejects its
    content, [Some (Some q)] when it parses to [q]; [feedback_text] is the
    value of [__get_feedback]. *)
Record Feedback := mkFeedback {
  score_txt : option (option Q);
  feedback_text : option string
}.

(** [not custom_score and os.path.isfile(score_file)] *)
Definition stray_score_txt (custom_score : bool) (fb : Feedback) : bool :=
  negb custom_score && bool_decide (is_Some (score_txt fb)).

(** OutputValidators._parse_validator_results *)
Definition _parse_validator_results (custom_score : bool) (status : Z)
    (fb : Feedback) : SubmissionResult :=
  if stray_score_txt custom_score fb then
    new_SubmissionResult (Some JE) None (Some ScoreTxtWithoutCustomScoring) None
  else if negb (WIFEXITED status) then
    new_SubmissionResult (Some JE) None (Some (ValidatorCrashed status))
      (feedback_text fb)
  else
    let ret := WEXITSTATUS status in
    if negb ((ret =? 42) || (ret =? 43)) then
      new_SubmissionResult (Some JE) None (Some (ValidatorExitedWith ret))
        (feedback_text fb)
    else if ret =? 43 then
      new_SubmissionResult (Some WA) None None (feedback_text fb)
    else if custom_score then
      match score_txt fb with
      | Some (Some q) => new_SubmissionResult (Some AC) (Some q) None None
      | Some None => new_SubmissionResult (Some JE) None (Some FailedToParseScore) None
      | None => new_SubmissionResult (Some JE) None (Some ScoreTxtMissing) None
      end
    else new_SubmissionResult (Some AC) None None None.

(** What one output validator of [_actual_validators()] does when its turn
    comes: it is skipped ([None], or it does not compile), or it runs and
    leaves a wait status and a feedback directory. *)
Inductive ValidatorRun :=
| ValSkipped
| ValRan (status : Z) (fb : Feedback).

(** OutputValidators.validate: the loop stops at the first result that is
    not AC. *)
Fixpoint validate_loop (custom_score : bool) (vals : list ValidatorRun)
    (res : SubmissionResult) : SubmissionResult :=
  match vals with
  | [] => res
  | ValSkipped :: rest => validate_loop custom_score rest res
  | ValRan status fb :: rest =>
      let res := _parse_validator_results custom_score status fb in
      if negb (verdict_is AC res) then res
      else validate_loop custom_score rest res
  end.

Definition validate (custom_score : bool) (vals : list ValidatorRun)
    : SubmissionResult :=
  validate_loop custom_score vals (new_SubmissionResult (Some JE) None None None).

(** ** Exceptions, the mutable state, and the monad that threads them *)

Inductive Exn :=
| VerifyError        (* raised by ProblemAspect.error under bail_on_error *)
| NameError
| ValueError
| TypeError
| ZeroDivisionError
| IndexError
| DanglingReference  (* not a Python exception: a reference outside the heap *)
| OutOfFuel.         (* not a Python exception: a loop of the model ran dry *)

Inductive Outcome (A : Type) :=
| Ok (a : A)
| Raise (e : Exn).
Arguments Ok {A} a.
Arguments Raise {A} e.

Definition gid := nat.

(** The cache key [(sub, args, timelim, timelim_low, timelim_high)]; the
    submission and the argument namespace are compared by their identity. *)
Definition CacheKey : Type := nat * nat * Z * Z * Z.

(** The state the judging engine mutates. [objs] is the heap of result
    objects, so that two variables can hold the same object. *)
Record World := mkWorld {
  errors : nat;                       (* ProblemAspect.errors *)
  bail_on_error : bool;               (* ProblemAspect.bail_on_error *)
  submissions_check_res : option bool;(* Submissions._check_res *)
  group_check_res : gmap gid bool;    (* TestCaseGroup._check_res, once set *)
  seen_oob_scores : gset gid;         (* groups with _seen_oob_scores True *)
  result_cache : gmap tcid (CacheKey * (ref * ref * ref));
                                      (* TestCase._result_cache, once set *)
  objs : gmap ref SubmissionResult;
  next_ref : ref
}.

Definition M (A : Type) : Type := World -> Outcome A * World.

Definition ret {A} (a : A) : M A := fun w => (Ok a, w).
Definition raise {A} (e : Exn) : M A := fun w => (Raise e, w).
Definition bind {A B} (c : M A) (k : A -> M B) : M B :=
  fun w => match c w with
           | (Ok a, w') => k a w'
           | (Raise e, w') => (Raise e, w')
           end.
Definition lift {A} (o : Outcome A) : M A := fun w => (o, w).

#[global] Instance M_ret : MRet M := @ret.
#[global] Instance M_bind : MBind M := fun A B k c => bind c k.

(** The objects on which [error] is called here. *)
Inductive Aspect :=
| SubmissionsAspect
| GroupAspect (g : gid).

(** ProblemAspect.error, without the log line. *)
Definition error (a : Aspect) : M unit := fun w =>
  let w' :=
    match a with
    | SubmissionsAspect =>
        mkWorld (S (errors w)) (bail_on_error w) (Some false)
          (group_check_res w) (seen_oob_scores w) (result_cache w) (objs w)
          (next_ref w)
    | GroupAspect g =>
        mkWorld (S (errors w)) (bail_on_error w) (submissions_check_res w)
          (<[g := false]> (group_check_res w)) (seen_oob_scores w)
          (result_cache w) (objs w) (next_ref w)
    end in
  if bail_on_error w then (Raise VerifyError, w') else (Ok tt, w').

(** The state at the start of a verification. *)
Definition initial_world : World :=
  mkWorld 0%nat false None ∅ ∅ ∅ ∅ 0%nat.

(** ** Output validators: the interactive path *)

(** The status line the coordinator wrote, when it matches the expected
    pattern: the four numbers read from it and its last token. *)
Inductive InteractiveOutput :=
| Malformed
| StatusLine (val_status : Z) (sub_status : Z) (sub_runtime : Q) (first : string).

Inductive InteractiveRun :=
| IValSkipped
| IRan (i_status : Z) (out : InteractiveOutput) (fb : Feedback).

(** The body of the [else] branch at the heart of validate_interactive. *)
Definition interactive_result (custom_score : bool) (timelim : Z)
    (val_status sub_status : Z) (sub_runtime : Q) (first : string)
    (fb : Feedback) : SubmissionResult :=
  let val_JE := negb (WIFEXITED val_status)
                || negb ((WEXITSTATUS val_status =? 42)
                         || (WEXITSTATUS val_status =? 43)) in
  let val_WA := WIFEXITED val_status && (WEXITSTATUS val_status =? 43) in
  let validator_exited_first := String.eqb first "validator" in
  let '(res, sub_runtime) :=
    if val_JE || (val_WA && validator_exited_first) then
      (_parse_validator_results custom_score val_status fb,
       if Qgt_bool sub_runtime (inject_Z timelim) then inject_Z timelim
       else sub_runtime)
    else if is_TLE sub_status true then
      (new_SubmissionResult (Some TLE) None None None, sub_runtime)
    else if is_RTE sub_status then
      (new_SubmissionResult (Some RTE) None None None, sub_runtime)
    else
      (_parse_validator_results custom_score val_status fb, sub_runtime) in
  set_validator_first validator_exited_first (set_runtime sub_runtime res).

Fixpoint validate_interactive_loop (custom_score : bool) (timelim : Z)
    (runs : list InteractiveRun) (res : SubmissionResult)
    : M SubmissionResult :=
  match runs with
  | [] => ret res
  | IValSkipped :: rest =>
      validate_interactive_loop custom_score timelim rest res
  | IRan i_status out fb :: rest =>
      res ← (if is_RTE i_status then
               error SubmissionsAspect;; ret res
             else
               match out with
               | Malformed => error SubmissionsAspect;; ret res
               | StatusLine val_status sub_status sub_runtime first =>
                   ret (interactive_result custom_score timelim val_status
                          sub_status sub_runtime first fb)
               end);
      if negb (verdict_is AC res) then ret res
      else validate_interactive_loop custom_score timelim rest res
  end.

(** OutputValidators.validate_interactive; [tool] tells whether
    [run.get_tool('interactive')] found the coordinator. *)
Definition validate_interactive (custom_score : bool) (timelim : Z)
    (tool : bool) (runs : list InteractiveRun) : M SubmissionResult :=
  let res := new_SubmissionResult (Some JE) None None None in
  if negb tool then
    error SubmissionsAspect;; ret res
  else validate_interactive_loop custom_score timelim runs res.

(** The validator's status is JE: it did not exit, or its exit code is
    neither 42 nor 43. *)
Definition validator_status_JE (val_status : Z) : Prop :=
  WIFEXITED val_status = false \/
  (WEXITSTATUS val_status <> 42 /\ WEXITSTATUS val_status <> 43).

(** The validator exited with WA, and exited first. *)
Definition validator_WA_first (val_status : Z) (first : string) : Prop :=
  WIFEXITED val_status = true /\ WEXITSTATUS val_status = 43 /\
  first = "validator"%string.

(** ** Test cases *)

(** The settings of the problem that the engine consults. *)
Record Problem := mkProblem {
  is_interactive : bool;
  is_scoring : bool;
  custom_scoring : bool     (* config['grading']['custom_scoring'] *)
}.

(** class TestCase. [tc_grading_score] is
    [testcasegroup.config['grading']['score']], [tc_in_sample] is
    [is_in_sample_group()], [tc_matches_filter] is [matches_filter] for the
    data filter of this run. The mutable [_result_cache] lives in the
    [World], under [tc_id]. *)
#[local] Set Warnings "-register-all".
Inductive TestCase := mkTestCase {
  tc_id : tcid;
  tc_grading_score : Q;
  tc_in_sample : bool;
  tc_matches_filter : bool;
  reuse_result_from : option TestCase
}.

(** What the outside world does when the submission is run on one test
    case: [sub.run] returns [(run_status, run_runtime)] and then the output
    validators run, or, for an interactive problem, the coordinator runs
    once per validator. *)
Record Execution := mkExecution {
  run_status : Z;
  run_runtime : Q;
  validator_runs : list ValidatorRun;
  interactive_tool : bool;
  interactive_runs : list InteractiveRun
}.

(** Heap operations. *)
Definition alloc (v : SubmissionResult) : M ref := fun w =>
  (Ok (next_ref w),
   mkWorld (errors w) (bail_on_error w) (submissions_check_res w)
     (group_check_res w) (seen_oob_scores w) (result_cache w)
     (<[next_ref w := v]> (objs w)) (S (next_ref w))).

Definition load (l : ref) : M SubmissionResult := fun w =>
  match objs w !! l with
  | Some v => (Ok v, w)
  | None => (Raise DanglingReference, w)
  end.

Definition update (l : ref) (f : SubmissionResult -> SubmissionResult)
    : M unit := fun w =>
  match objs w !! l with
  | Some v =>
      (Ok tt,
       mkWorld (errors w) (bail_on_error w) (submissions_check_res w)
         (group_check_res w) (seen_oob_scores w) (result_cache w)
         (<[l := f v]> (objs w)) (next_ref w))
  | None => (Raise DanglingReference, w)
  end.

Definition lookup_cache (t : tcid)
    : M (option (CacheKey * (ref * ref * ref))) := fun w =>
  (Ok (result_cache w !! t), w).

Definition store_cache (t : tcid) (entry : CacheKey * (ref * ref * ref))
    : M unit := fun w =>
  (Ok tt,
   mkWorld (errors w) (bail_on_error w) (submissions_check_res w)
     (group_check_res w) (seen_oob_scores w)
     (<[t := entry]> (result_cache w)) (objs w) (next_ref w)).

(** The first half of the body of _run_submission_real: the run, and the
    result [res_high] it gets under the high limit. The new object enters
    the heap when it is bound to [res_high]. *)
Definition compute_res_high (pb : Problem) (timelim_high : Z)
    (ex : Execution) : M ref :=
  if is_interactive pb then
    r ← validate_interactive (custom_scoring pb) timelim_high
          (interactive_tool ex) (interactive_runs ex);
    alloc r
  else
    let status := run_status ex in
    let runtime := run_runtime ex in
    let r :=
      if is_TLE status false || Qgt_bool runtime (inject_Z timelim_high) then
        new_SubmissionResult (Some TLE) None None None
      else if is_RTE status then
        new_SubmissionResult (Some RTE) None None None
      else validate (custom_scoring pb) (validator_runs ex) in
    alloc (set_runtime runtime r).

(** The second half: the classification against [timelim_low] and
    [timelim], on the heap, so that [res], [res_low] and [res_high] may be
    one object. It returns [(res, res_low)]. *)
Definition classify (timelim timelim_low : Z) (res_high : ref)
    : M (ref * ref) :=
  rh ← load res_high;
  if Qle_bool (runtime rh) (inject_Z timelim_low) then
    ret (res_high, res_high)
  else if Qle_bool (runtime rh) (inject_Z timelim) then
    res_low ← alloc (new_SubmissionResult (Some TLE) None None None);
    ret (res_high, res_low)
  else if validator_first rh && verdict_is WA rh then
    res ← alloc (set_validator_first true
                   (new_SubmissionResult (Some WA) None None None));
    update res_high (set_runtime (inject_Z timelim_low));;
    ret (res, res)
  else
    res_low ← alloc (new_SubmissionResult (Some TLE) None None None);
    ret (res_low, res_low).

(** The part of _run_submission_real that runs on a cache miss. *)
Definition run_uncached (pb : Problem) (self : tcid) (cache_key : CacheKey)
    (timelim timelim_low timelim_high : Z) (ex : Execution)
    : M (ref * ref * ref * bool) :=
  res_high ← compute_res_high pb timelim_high ex;
  '(res, res_low) ← classify timelim timelim_low res_high;
  rh ← load res_high;
  update res (set_runtime (runtime rh));;
  rh ← load res_high;
  update res_low (set_runtime (runtime rh));;
  update res set_ac_runtime;;
  update res_low set_ac_runtime;;
  update res_high set_ac_runtime;;
  store_cache self (cache_key, (res, res_low, res_high));;
  ret (res, res_low, res_high, false).

(** [self._result_cache[0] == cache_key], with the cached triple on a hit. *)
Definition cache_hit (cached : option (CacheKey * (ref * ref * ref)))
    (cache_key : CacheKey) : option (ref * ref * ref) :=
  match cached with
  | Some (key, triple) =>
      if bool_decide (key = cache_key) then Some triple else None
  | None => None
  end.

(** TestCase._run_submission_real *)
Fixpoint _run_submission_real (pb : Problem) (tc : TestCase)
    (sub args : nat) (timelim timelim_low timelim_high : Z) (ex : Execution)
    : M (ref * ref * ref * bool) :=
  match tc with
  | mkTestCase _ _ _ _ (Some target) =>
      _run_submission_real pb target sub args timelim timelim_low
        timelim_high ex
  | mkTestCase self _ _ _ None =>
      let cache_key := (sub, args, timelim, timelim_low, timelim_high) in
      cached ← lookup_cache self;
      match cache_hit cached cache_key with
      | Some (res, res_low, res_high) => ret (res, res_low, res_high, true)
      | None =>
          run_uncached pb self cache_key timelim timelim_low timelim_high ex
      end
  end.

(** TestCase._init_result_for_testcase, on the value read by [copy.copy]. *)
Definition _init_result_for_testcase (pb : Problem) (tc : TestCase)
    (res : SubmissionResult) : SubmissionResult :=
  let res := set_testcase (Some (tc_id tc)) res in
  let res := set_runtime_testcase (Some (tc_id tc)) res in
  if bool_decide (score res = None) && is_scoring pb then
    if verdict_is AC res then set_score (Some (tc_grading_score tc)) res
    else set_score (Some 0%Q) res
  else res.

(** [lst.append(x)] on the list of the object [l]. *)
Definition append_sample_failure (x : ref) (l : ref) : M unit :=
  update l (fun r => set_sample_failures (sample_failures r ++ [x]) r).

(** TestCase.run_submission. The three copies are new objects [c], [c_low]
    and [c_high]. [copy.copy] is shallow: a copy shares its
    [sample_failures] list with the cached object it was copied from, so
    the append reaches the cached object and every copy of it made here.
    The function returns the three copies as they are on return. *)
Definition TestCase_run_submission (pb : Problem) (tc : TestCase)
    (sub args : nat) (timelim timelim_low timelim_high : Z) (ex : Execution)
    : M (SubmissionResult * SubmissionResult * SubmissionResult) :=
  '(res, res_low, res_high, reused) ←
    _run_submission_real pb tc sub args timelim timelim_low timelim_high ex;
  v ← load res;
  c ← alloc (_init_result_for_testcase pb tc v);
  v_low ← load res_low;
  c_low ← alloc (_init_result_for_testcase pb tc v_low);
  v_high ← load res_high;
  c_high ← alloc (_init_result_for_testcase pb tc v_high);
  (if negb (verdict_is AC v) && tc_in_sample tc then
     append_sample_failure c c;;
     append_sample_failure c res;;
     (if bool_decide (res_low = res)
      then append_sample_failure c c_low else ret tt);;
     (if bool_decide (res_high = res)
      then append_sample_failure c c_high else ret tt)
   else ret tt);;
  r ← load c;
  r_low ← load c_low;
  r_high ← load c_high;
  ret (r, r_low, r_high).

(** Two worlds with the same heap and the same caches. *)
Definition same_store (w w' : World) : Prop :=
  objs w' = objs w /\ next_ref w' = next_ref w /\
  result_cache w' = result_cache w.

(** Reading the heap: the object at [l] satisfies [P]. *)
Definition holds (w : World) (l : ref) (P : SubmissionResult -> Prop) : Prop :=
  exists v, objs w !! l = Some v /\ P v.

(** A reference handed out by [alloc] and still in the heap. *)
Definition allocated (w : World) (l : ref) : Prop :=
  (l < next_ref w)%nat /\ is_Some (objs w !! l).

(** Every cached triple points into the heap. *)
Definition wf_world (w : World) : Prop :=
  forall t key res res_low res_high,
    result_cache w !! t = Some (key, (res, res_low, res_high)) ->
    allocated w res /\ allocated w res_low /\ allocated w res_high.

(** The three-limit classification, as the specification tabulates it:
    [rh] is [res_high] as the run left it, [r] its runtime, and [w2] the
    heap in which [_run_submission_real] returns [(res, res_low, res_high)]. *)
Definition three_limit_classification (timelim timelim_low : Z)
    (rh : SubmissionResult) (w2 : World) (res res_low res_high : ref)
    : Prop :=
  let r := runtime rh in
  ((r <= inject_Z timelim_low)%Q -> res = res_high /\ res_low = res_high) /\
  ((inject_Z timelim_low < r)%Q -> (r <= inject_Z timelim)%Q ->
   res = res_high /\ holds w2 res_low (fun v => verdict v = Some TLE)) /\
  ((inject_Z timelim < r)%Q ->
   validator_first rh = true -> verdict rh = Some WA ->
   res = res_low /\
   holds w2 res (fun v => verdict v = Some WA /\ validator_first v = true) /\
   holds w2 res_high (fun v => runtime v = inject_Z timelim_low)) /\
  ((inject_Z timelim < r)%Q ->
   ~ (validator_first rh = true /\ verdict rh = Some WA) ->
   res = res_low /\ holds w2 res (fun v => verdict v = Some TLE) /\
   holds w2 res_low (fun v => verdict v = Some TLE)).

(** [r] is the stamped copy of [v], up to its [sample_failures]. *)
Definition stamped (pb : Problem) (tc : TestCase) (v r : SubmissionResult)
    : Prop :=
  r = set_sample_failures (sample_failures r)
        (_init_result_for_testcase pb tc v).

(** Two stamped copies of one cached result, made by the test cases [a] and
    [b]: same verdict, same runtime, and the same score unless the result is
    an AC to which each case gives the score of its own group. *)
Definition agree_up_to_group_score (a b : TestCase)
    (x y : SubmissionResult) : Prop :=
  verdict x = verdict y /\ runtime x = runtime y /\
  (score x = score y \/
   (verdict x = Some AC /\ score x = Some (tc_grading_score a) /\
    score y = Some (tc_grading_score b))).

(** The target a test case delegates to in the end. *)
Fixpoint reuse_target (tc : TestCase) : TestCase :=
  match tc with
  | mkTestCase _ _ _ _ (Some target) => reuse_target target
  | mkTestCase _ _ _ _ None => tc
  end.

(** ** Test groups *)

(** What aggregate_results reads from a group: its identity, and
    [config['grading']['aggregation']] and [get_max_score()], which matter
    for a scoring problem only. *)
Record GroupConfig := mkGroupConfig {
  g_id : gid;
  aggregation : string;
  max_score : Q
}.

(** The tree of [_items]. *)
Inductive Item :=
| ItemTestCase (tc : TestCase)
| ItemGroup (g : GroupConfig) (_items : list Item).

(** The first loop of aggregate_results. *)
Definition aggregate_step (res r : SubmissionResult) : SubmissionResult :=
  let res :=
    if Qgt_bool (runtime r) (runtime res)
    then set_runtime_testcase (runtime_testcase r) (set_runtime (runtime r) res)
    else res in
  let res :=
    if Qgt_bool (ac_runtime r) (ac_runtime res)
    then set_ac_runtime_fields (ac_runtime r) (ac_runtime_testcase r) res
    else res in
  set_sample_failures (sample_failures res ++ sample_failures r) res.

(** [min(xs)] on scores: [ValueError] on an empty list, [TypeError] as soon
    as [None] is compared. *)
Fixpoint py_min_from (cur : option Q) (xs : list (option Q))
    : Outcome (option Q) :=
  match xs with
  | [] => Ok cur
  | x :: rest =>
      match x, cur with
      | Some a, Some c =>
          py_min_from (if Qlt_bool a c then x else cur) rest
      | _, _ => Raise TypeError
      end
  end.

Definition py_min (xs : list (option Q)) : Outcome (option Q) :=
  match xs with
  | [] => Raise ValueError
  | x :: rest => py_min_from x rest
  end.

(** [sum(xs)] on scores: from 0, left to right; [TypeError] on [None]. *)
Fixpoint py_sum_from (acc : Q) (xs : list (option Q)) : Outcome Q :=
  match xs with
  | [] => Ok acc
  | Some a :: rest => py_sum_from (acc + a)%Q rest
  | None :: _ => Raise TypeError
  end.

Definition py_sum (xs : list (option Q)) : Outcome Q := py_sum_from 0%Q xs.

(** [[res.verdict for res in sub_results if rews.verdict != 'AC']]: no
    binding of the name [rews] exists, so the condition raises when it is
    first evaluated, that is, for the first element. *)
Definition non_AC_verdicts_pass_fail (sub_results : list SubmissionResult)
    : Outcome (list (option Verdict)) :=
  match sub_results with
  | [] => Ok []
  | _ :: _ => Raise NameError
  end.

(** [[subres.verdict for subres in sub_results if subres.verdict != 'AC']] *)
Definition non_AC_verdicts (sub_results : list SubmissionResult)
    : list (option Verdict) :=
  map verdict (filter (fun r => negb (verdict_is AC r)) sub_results).

(** [(vs + ['AC'])[0]] *)
Definition first_or_AC (vs : list (option Verdict)) : option Verdict :=
  hd (Some AC) vs.

Definition mark_seen_oob (g : gid) : M unit := fun w =>
  (Ok tt,
   mkWorld (errors w) (bail_on_error w) (submissions_check_res w)
     (group_check_res w) ({[g]} ∪ seen_oob_scores w) (result_cache w)
     (objs w) (next_ref w)).

Definition has_seen_oob (g : gid) : M bool := fun w =>
  (Ok (bool_decide (g ∈ seen_oob_scores w)), w).

(** The check of the score against the maximum, at the end of the scoring
    branch. *)
Definition check_max_score (g : GroupConfig) (res : SubmissionResult)
    : M unit :=
  seen ← has_seen_oob (g_id g);
  match score res with
  | Some s =>
      if negb (Qle_bool s (max_score g)) && negb seen then
        mark_seen_oob (g_id g);;
        error (GroupAspect (g_id g))
      else ret tt
  | None => ret tt
  end.

(** TestCaseGroup.aggregate_results. The parameters [sub] and
    [shadow_result] only reach a message and are left out. *)
Definition aggregate_results (pb : Problem) (g : GroupConfig)
    (sub_results : list SubmissionResult) : M SubmissionResult :=
  let res := new_SubmissionResult None None None None in
  let res := fold_left aggregate_step sub_results res in
  match List.find (verdict_is JE) sub_results with
  | Some judge_error =>
      let res := set_verdict (verdict judge_error) res in
      let res := set_reason (reason judge_error) res in
      let res := set_additional_info (additional_info judge_error) res in
      let res := set_testcase (testcase judge_error) res in
      ret res
  | None =>
      let res :=
        match last sub_results with
        | Some l =>
            set_additional_info (additional_info l)
              (set_testcase (testcase l) res)
        | None => res
        end in
      if negb (is_scoring pb) then
        vs ← lift (non_AC_verdicts_pass_fail sub_results);
        ret (set_verdict (first_or_AC vs) res)
      else
        res ←
          (if String.eqb (aggregation g) "min" then
             let res :=
               set_verdict (first_or_AC (non_AC_verdicts sub_results)) res in
             s ← lift (py_min (map score sub_results));
             ret (set_score s res)
           else if String.eqb (aggregation g) "sum" then
             let res :=
               if forallb (verdict_is AC) sub_results then
                 set_verdict (Some AC) res
               else if forallb (fun r => negb (verdict_is AC r
                                               || verdict_is PAC r))
                         sub_results then
                 set_verdict (hd None (map verdict sub_results)) res
               else set_verdict (Some AC) res in
             s ← lift (py_sum (map score sub_results));
             ret (set_score (Some s) res)
           else ret res);
        check_max_score g res;;
        ret res
  end.

(** TestCaseGroup.run_submission, with TestCase.run_submission at the
    leaves. [exec_of] gives, for each test case, what its execution does.
    The latches [active] and [active_low] are never cleared, so each child
    result enters all three lists. *)
Fixpoint run_submission (pb : Problem) (exec_of : tcid -> Execution)
    (sub args : nat) (timelim timelim_low timelim_high : Z) (it : Item)
    : M (SubmissionResult * SubmissionResult * SubmissionResult) :=
  match it with
  | ItemTestCase tc =>
      TestCase_run_submission pb tc sub args timelim timelim_low timelim_high
        (exec_of (tc_id tc))
  | ItemGroup g items =>
      let fix children (items : list Item)
          (subres subres_low subres_high : list SubmissionResult)
          : M (list SubmissionResult * list SubmissionResult
               * list SubmissionResult) :=
        match items with
        | [] => ret (subres, subres_low, subres_high)
        | child :: rest =>
            let matches :=
              match child with
              | ItemTestCase tc => tc_matches_filter tc
              | ItemGroup _ _ => true
              end in
            if negb matches then children rest subres subres_low subres_high
            else
              '(res, res_low, res_high) ←
                run_submission pb exec_of sub args timelim timelim_low
                  timelim_high child;
              children rest (subres ++ [res]) (subres_low ++ [res_low])
                (subres_high ++ [res_high])
        end in
      '(subres, subres_low, subres_high) ← children items [] [] [];
      res ← aggregate_results pb g subres;
      res_low ← aggregate_results pb g subres_low;
      res_high ← aggregate_results pb g subres_high;
      ret (res, res_low, res_high)
  end.


(** A child that the data filter leaves out: a test case that does not
    match. A subgroup always matches. *)
Definition excluded (it : Item) : Prop :=
  match it with
  | ItemTestCase tc => tc_matches_filter tc = false
  | ItemGroup _ _ => False
  end.

(** ** Submissions: the inference of the time limits *)

(** [int(x)] on a float: truncation towards zero. *)
Definition py_int (x : Q) : Z := Z.quot (Qnum x) (Z.pos (Qden x)).

(** [max(xs)] on a non-empty list [x :: xs]. *)
Definition py_max (x : Q) (xs : list Q) : Q :=
  fold_left (fun m y => if Qgt_bool y m then y else m) xs x.

(** The block of Submissions.check that follows the run of the accepted
    submissions: from their [runtimes] and the limits in force
    [(timelim, timelim_margin_lo, timelim_margin)] to the new limits. The
    division raises when the safety margin is zero. *)
Definition infer_time_limits (runtimes : list Q)
    (time_multiplier safety_margin : Q) (limits : Z * Z * Z)
    : Outcome (Z * Z * Z) :=
  match runtimes with
  | [] => Ok limits
  | r :: rest =>
      let max_runtime := py_max r rest in
      let exact_timelim := (max_runtime * time_multiplier)%Q in
      let timelim := Z.max 1 (py_int ((1 # 2) + exact_timelim)%Q) in
      if Qeq_bool safety_margin 0 then Raise ZeroDivisionError
      else
        let timelim_margin_lo :=
          Z.max 1 (Z.min (py_int ((1 # 2) + exact_timelim / safety_margin)%Q)
                         (timelim - 1)) in
        let timelim_margin :=
          Z.max (timelim + 1)
                (py_int ((1 # 2) + exact_timelim * safety_margin)%Q) in
        Ok (timelim, timelim_margin_lo, timelim_margin)
  end.



(** ** Test groups: the natural-sort comparison of group names *)

#[global] Instance Outcome_ret : MRet Outcome := @Ok.
#[global] Instance Outcome_bind : MBind Outcome := fun A B k o =>
  match o with
  | Ok a => k a
  | Raise e => Raise e
  end.

(** [s[i]] *)
Definition char_at (s : string) (i : nat) : Outcome ascii :=
  match String.get i s with
  | Some c => Ok c
  | None => Raise IndexError
  end.

Definition ord (c : ascii) : Z := Z.of_nat (nat_of_ascii c).

(** [ord('0') <= ord(c) <= ord('9')] *)
Definition is_digit (c : ascii) : bool :=
  (ord "0" <=? ord c) && (ord c <=? ord "9").

(** parse_num: the loop runs on [fuel]; [String.length s] is enough. *)
Fixpoint parse_num_loop (fuel : nat) (s : string) (ret : Z) (i : nat)
    : Outcome (Z * nat) :=
  match fuel with
  | O => Raise OutOfFuel
  | S fuel =>
      c ← char_at s i;
      if is_digit c then
        parse_num_loop fuel s (ret * 10 + ord c - ord "0") (i + 1)
      else Ok (ret, i)
  end.

Definition parse_num (s : string) (i : nat) : Outcome (Z * nat) :=
  parse_num_loop (S (String.length s)) s 0 i.

(** The main loop of natural_sort_le, on the two strings with their
    terminators. The test of the second digit reads [b[i]], as the source
    does. *)
Fixpoint natural_sort_le_loop (fuel : nat) (a b : string) (i j : nat)
    : Outcome bool :=
  match fuel with
  | O => Raise OutOfFuel
  | S fuel =>
      if (i <? String.length a)%nat && (j <? String.length b)%nat then
        ai ← char_at a i;
        both_digits ← (if is_digit ai
                       then bi ← char_at b i; Ok (is_digit bi)
                       else Ok false);
        if both_digits : bool then
          '(anum, i) ← parse_num a i;
          '(bnum, j) ← parse_num b j;
          if anum =? bnum then natural_sort_le_loop fuel a b i j
          else Ok (anum <? bnum)
        else
          ai ← char_at a i;
          bj ← char_at b j;
          if Ascii.eqb ai bj then natural_sort_le_loop fuel a b (i + 1) (j + 1)
          else Ok (ord ai <? ord bj)
      else Ok true
  end.

(** natural_sort_le *)
Definition natural_sort_le (a b : string) : Outcome bool :=
  let a := (a ++ String Ascii.zero EmptyString)%string in
  let b := (b ++ String Ascii.zero EmptyString)%string in
  natural_sort_le_loop (S (String.length a)) a b 0 0.

(** Horner's rule on the decimal digits, from the accumulator [acc]. *)
Fixpoint horner (d : Decimal.uint) (acc : Z) : Z :=
  match d with
  | Decimal.Nil => acc
  | Decimal.D0 l => horner l (acc * 10 + 0)
  | Decimal.D1 l => horner l (acc * 10 + 1)
  | Decimal.D2 l => horner l (acc * 10 + 2)
  | Decimal.D3 l => horner l (acc * 10 + 3)
  | Decimal.D4 l => horner l (acc * 10 + 4)
  | Decimal.D5 l => horner l (acc * 10 + 5)
  | Decimal.D6 l => horner l (acc * 10 + 6)
  | Decimal.D7 l => horner l (acc * 10 + 7)
  | Decimal.D8 l => horner l (acc * 10 + 8)
  | Decimal.D9 l => horner l (acc * 10 + 9)
  end.

(** [str(n)] for a natural number. *)
Definition py_str (n : N) : string :=
  NilZero.string_of_uint (N.to_uint n).

(** ** Test groups: the loop over the children *)

(** [child.matches_filter(args.data_filter)]: a subgroup always matches. *)
Definition selected (it : Item) : bool :=
  match it with
  | ItemTestCase tc => tc_matches_filter tc
  | ItemGroup _ _ => true
  end.

(** The loop of TestCaseGroup.run_submission over [self._items], with the
    run of one child as a parameter: the same loop as the one inside
    [run_submission], under a name. *)
Fixpoint run_children
    (run : Item -> M (SubmissionResult * SubmissionResult * SubmissionResult))
    (items : list Item)
    (subres subres_low subres_high : list SubmissionResult)
    : M (list SubmissionResult * list SubmissionResult
         * list SubmissionResult) :=
  match items with
  | [] => ret (subres, subres_low, subres_high)
  | child :: rest =>
      if negb (selected child)
      then run_children run rest subres subres_low subres_high
      else
        '(res, res_low, res_high) ← run child;
        run_children run rest (subres ++ [res]) (subres_low ++ [res_low])
          (subres_high ++ [res_high])
  end.

(** ** Test groups: the maximum score *)

(** TestCaseGroup.get_testcases and TestCaseGroup.get_subgroups, on the
    list [_items]. *)
Definition get_testcases (items : list Item) : list TestCase :=
  flat_map (fun it => match it with
                      | ItemTestCase tc => [tc]
                      | ItemGroup _ _ => []
                      end) items.

Definition get_subgroups (items : list Item)
    : list (GroupConfig * list Item) :=
  flat_map (fun it => match it with
                      | ItemTestCase _ => []
                      | ItemGroup g its => [(g, its)]
                      end) items.

(** TestCaseGroup.compute_max_score; [score] is
    [config['grading']['score']] and [get_max_score()] of a subgroup is the
    [max_score] of its configuration. With an aggregation that is neither
    sum nor min the function falls off its end and returns [None]. *)
Definition compute_max_score (score : Q) (g : GroupConfig)
    (items : list Item) : Outcome (option Q) :=
  let xs := map (fun _ : TestCase => Some score) (get_testcases items)
            ++ map (fun sg : GroupConfig * list Item =>
                      Some (max_score (fst sg))) (get_subgroups items) in
  if String.eqb (aggregation g) "sum" then
    s ← py_sum xs; Ok (Some s)
  else if String.eqb (aggregation g) "min" then py_min xs
  else Ok None.

(** ** The discipline of the error reports *)

(** What a computation [c] may do to the error count: it never changes
    bail_on_error; when that flag is set it either counts no error, or
    counts exactly one and ends in VerifyError; when the flag is clear the
    count does not decrease and VerifyError is not raised. *)
Definition error_discipline {A} (c : M A) : Prop :=
  forall w,
    bail_on_error (snd (c w)) = bail_on_error w /\
    (bail_on_error w = true ->
     errors (snd (c w)) = errors w \/
     (errors (snd (c w)) = S (errors w) /\ fst (c w) = Raise VerifyError)) /\
    (bail_on_error w = false ->
     (errors w <= errors (snd (c w)))%nat /\
     fst (c w) <> Raise VerifyError).

(** ** Warnings *)

(** [ProblemAspect.warnings] and [ProblemAspect.consider_warnings_errors],
    beside the state of the engine. *)
Record Reporter := mkReporter {
  world : World;
  warnings : nat;
  consider_warnings_errors : bool
}.

Definition MR (A : Type) : Type := Reporter -> Outcome A * Reporter.

#[global] Instance MR_ret : MRet MR := fun A a s => (Ok a, s).
#[global] Instance MR_bind : MBind MR := fun A B k c s =>
  match c s with
  | (Ok a, s') => k a s'
  | (Raise e, s') => (Raise e, s')
  end.

(** A computation of the engine, run on the [world] of the reporter. *)
Definition in_world {A} (c : M A) : MR A := fun s =>
  let '(o, w') := c (world s) in
  (o, mkReporter w' (warnings s) (consider_warnings_errors s)).

(** A pure computation that may raise. *)
Definition in_outcome {A} (o : Outcome A) : MR A := fun s => (o, s).

(** ProblemAspect.warning, without the log line. *)
Definition warning (a : Aspect) : MR unit := fun s =>
  if consider_warnings_errors s then in_world (error a) s
  else (Ok tt,
        mkReporter (world s) (S (warnings s)) (consider_warnings_errors s)).

(** The loop of TestCaseGroup.check over the names of the subgroups of
    group [g], from [last_testgroup_name]. *)
Fixpoint check_group_order (g : gid) (names : list string)
    (last_testgroup_name : string) : MR unit :=
  match names with
  | [] => mret tt
  | name :: rest =>
      le ← in_outcome (natural_sort_le name last_testgroup_name);
      (if le : bool then warning (GroupAspect g) else mret tt);;
      check_group_order g rest name
  end.

(** The number of places in [ns], read after [last], where a number is not
    above the one before it. *)
Fixpoint descents (last : N) (ns : list N) : nat :=
  match ns with
  | [] => 0
  | n :: rest => ((if (n <=? last)%N then 1 else 0) + descents n rest)%nat
  end.

(** ** Names: the regular expression of check_basename *)

(** The regular expressions that [basename_regex] needs: character
    classes, concatenation, alternation and the star. *)
Inductive regex :=
| Empty
| Eps
| Class (f : ascii -> bool)
| Seq (r s : regex)
| Alt (r s : regex)
| Star (r : regex).

Fixpoint nullable (r : regex) : bool :=
  match r with
  | Empty => false
  | Eps => true
  | Class _ => false
  | Seq r s => nullable r && nullable s
  | Alt r s => nullable r || nullable s
  | Star _ => true
  end.

(** The derivative of [r] by the character [a]. *)
Fixpoint deriv (a : ascii) (r : regex) : regex :=
  match r with
  | Empty => Empty
  | Eps => Empty
  | Class f => if f a then Eps else Empty
  | Seq r s =>
      if nullable r then Alt (Seq (deriv a r) s) (deriv a s)
      else Seq (deriv a r) s
  | Alt r s => Alt (deriv a r) (deriv a s)
  | Star r => Seq (deriv a r) (Star r)
  end.

(** [r] matches the whole of [s]. *)
Fixpoint matches (r : regex) (s : list ascii) : bool :=
  match s with
  | [] => nullable r
  | a :: s => matches (deriv a r) s
  end.

(** [re.match('^' r '$', s)]: the [$] matches at the end of the string and
    also just before a newline that ends the string. *)
Definition re_match_anchored (r : regex) (s : string) : bool :=
  let cs := list_ascii_of_string s in
  matches r cs ||
  match last cs with
  | Some c => Ascii.eqb c "010" && matches r (removelast cs)
  | None => false
  end.

(** [[a-zA-Z0-9]] and [[a-zA-Z0-9_.-]] *)
Definition is_alnum (c : ascii) : bool :=
  ((ord "a" <=? ord c) && (ord c <=? ord "z"))
  || ((ord "A" <=? ord c) && (ord c <=? ord "Z"))
  || ((ord "0" <=? ord c) && (ord c <=? ord "9")).

Definition is_name_char (c : ascii) : bool :=
  is_alnum c || Ascii.eqb c "_" || Ascii.eqb c "." || Ascii.eqb c "-".

(** ProblemAspect.basename_regex:
    [^[a-zA-Z0-9][a-zA-Z0-9_.-]*[a-zA-Z0-9]$] *)
Definition basename_regex : regex :=
  Seq (Class is_alnum) (Seq (Star (Class is_name_char)) (Class is_alnum)).

(** ProblemAspect.check_basename, on [os.path.basename(path)]. *)
Definition check_basename (a : Aspect) (basename : string) : M unit :=
  if negb (re_match_anchored basename_regex basename) then error a
  else ret tt.

(** The language of a regular expression. *)
Inductive lang : regex -> list ascii -> Prop :=
| lang_eps : lang Eps []
| lang_class f c : f c = true -> lang (Class f) [c]
| lang_seq r s x y : lang r x -> lang s y -> lang (Seq r s) (x ++ y)
| lang_alt_l r s x : lang r x -> lang (Alt r s) x
| lang_alt_r r s x : lang s x -> lang (Alt r s) x
| lang_star_nil r : lang (Star r) []
| lang_star_cons r x y :
    lang r x -> lang (Star r) y -> lang (Star r) (x ++ y).

(** The names that [basename_regex] describes: an alphanumeric character,
    then any number of name characters, then an alphanumeric character. *)
Definition basename_shape (cs : list ascii) : Prop :=
  exists first mid last,
    cs = first :: mid ++ [last] /\
    is_alnum first = true /\
    Forall (fun c => is_name_char c = true) mid /\
    is_alnum last = true.

(** ** Test groups: the check of the grading *)

(** [a > b] and [a < b] where [a] may be [None]: the comparison of [None]
    with a number raises TypeError. *)
Definition py_gt (a : option Q) (b : Q) : Outcome bool :=
  match a with
  | Some x => Ok (Qgt_bool x b)
  | None => Raise TypeError
  end.

Definition py_lt (a : option Q) (b : Q) : Outcome bool :=
  match a with
  | Some x => Ok (Qlt_bool x b)
  | None => Raise TypeError
  end.

(** The block of TestCaseGroup.check that checks the grading of a group;
    [score] is [config['grading']['score']]. *)
Definition check_grading (pb : Problem) (score : Q) (g : GroupConfig)
    (items : list Item) : MR unit :=
  if is_scoring pb then
    (if negb (String.eqb (aggregation g) "sum"
              || String.eqb (aggregation g) "min")
     then in_world (error (GroupAspect (g_id g)))
     else mret tt);;
    computed ← in_outcome (compute_max_score score g items);
    higher ← in_outcome (py_gt computed (max_score g));
    (if higher : bool then warning (GroupAspect (g_id g)) else mret tt);;
    computed ← in_outcome (compute_max_score score g items);
    lower ← in_outcome (py_lt computed (max_score g));
    (if lower : bool then warning (GroupAspect (g_id g)) else mret tt)
  else mret tt.

(** ** The low limit at the time limit *)

(** Every triple that was cached for a key whose low limit is the time
    limit has one object as [res] and [res_low]. *)
Definition low_is_res (w : World) : Prop :=
  forall t sub args timelim timelim_high res res_low res_high,
    result_cache w !! t
    = Some ((sub, args, timelim, timelim, timelim_high),
            (res, res_low, res_high)) ->
    res_low = res.

(** * Properties *)

(** ** The exit-code protocol of the output validators *)

Lemma WEXITSTATUS_exit (code : Z) :
  0 <= code < 256 ->
  WIFEXITED (code * 256) = true /\ WEXITSTATUS (code * 256) = code.
Proof.
  intros Hc. unfold WIFEXITED, WEXITSTATUS, WTERMSIG.
  assert (Hs : code * 256 = Z.shiftl code 8) by (rewrite Z.shiftl_mul_pow2; lia).
  rewrite Hs. split.
  - apply Z.eqb_eq. apply Z.bits_inj'. intros n Hn.
    rewrite Z.land_spec, Z.bits_0.
    destruct (Z.ltb_spec n 8).
    + rewrite Z.shiftl_spec_low; auto.
    + change 127 with (Z.ones 7). rewrite Z.ones_spec_high by lia.
      apply andb_false_r.
  - apply Z.bits_inj'. intros n Hn.
    rewrite Z.shiftr_spec, Z.land_spec, Z.shiftl_spec by lia.
    replace (n + 8 - 8) with n by lia.
    destruct (Z.ltb_spec n 8).
    + change 65280 with (Z.shiftl (Z.ones 8) 8).
      rewrite Z.shiftl_spec by lia. replace (n + 8 - 8) with n by lia.
      rewrite Z.ones_spec_low by lia. apply andb_true_r.
    + change 65280 with (Z.shiftl (Z.ones 8) 8).
      rewrite Z.shiftl_spec by lia. replace (n + 8 - 8) with n by lia.
      rewrite Z.ones_spec_high by lia. rewrite andb_false_r.
      symmetry. apply Z.bits_above_log2; [lia|].
      destruct (Z.eq_dec code 0) as [->|]; [simpl; lia|].
      apply Z.log2_lt_pow2; [lia|].
      apply Z.lt_le_trans with (2 ^ 8); [simpl; lia|].
      apply Z.pow_le_mono_r; lia.
Qed.

Lemma parse_validator_results_stray custom_score status fb :
  stray_score_txt custom_score fb = true ->
  _parse_validator_results custom_score status fb
  = new_SubmissionResult (Some JE) None (Some ScoreTxtWithoutCustomScoring) None.
Proof.
  unfold _parse_validator_results. intros ->. reflexivity.
Qed.

(** C5, as the claim states it, fails: a validator that exits with status 43
    but leaves a score.txt in a problem without custom scoring gets JE, not
    WA. *)
Lemma parse_validator_results_exit_43_not_WA :
  let status := 43 * 256 in
  let fb := mkFeedback (Some (Some 1%Q)) (Some "wrong"%string) in
  WIFEXITED status = true /\ WEXITSTATUS status = 43 /\
  verdict (_parse_validator_results false status fb) = Some JE /\
  verdict (_parse_validator_results false status fb) <> Some WA.
Proof. vm_compute. repeat split; congruence. Qed.

(** C5, amended: a score.txt left by the validator of a problem without
    custom scoring yields JE whatever the exit status. Otherwise a process
    that did not exit, or exited with a status other than 42 and 43, yields
    JE; exit status 43 yields WA with the feedback attached as
    additional_info; exit status 42 yields AC without a score when custom
    scoring is off and, when it is on, AC with the score read from score.txt,
    or JE when score.txt is missing or does not parse. *)
Theorem parse_validator_results_protocol custom_score status fb :
  let r := _parse_validator_results custom_score status fb in
  (stray_score_txt custom_score fb = true -> verdict r = Some JE) /\
  (stray_score_txt custom_score fb = false ->
   (WIFEXITED status = false -> verdict r = Some JE) /\
   (WIFEXITED status = true -> WEXITSTATUS status <> 42 ->
    WEXITSTATUS status <> 43 -> verdict r = Some JE) /\
   (WIFEXITED status = true -> WEXITSTATUS status = 43 ->
    verdict r = Some WA /\ additional_info r = feedback_text fb) /\
   (WIFEXITED status = true -> WEXITSTATUS status = 42 ->
    (custom_score = false -> verdict r = Some AC /\ score r = None) /\
    (custom_score = true ->
     match score_txt fb with
     | Some (Some q) => verdict r = Some AC /\ score r = Some q
     | Some None | None => verdict r = Some JE
     end))).
Proof.
  cbv zeta. split.
  - intros Hstray. rewrite parse_validator_results_stray by exact Hstray.
    reflexivity.
  - intros Hstray. unfold _parse_validator_results. rewrite Hstray.
    split; [|split; [|split]].
    + intros ->. reflexivity.
    + intros -> H42 H43.
      apply Z.eqb_neq in H42, H43. rewrite H42, H43. reflexivity.
    + intros -> ->. split; reflexivity.
    + intros -> ->. split.
      * intros ->. split; reflexivity.
      * intros ->. simpl.
        destruct (score_txt fb) as [[q|]|]; simpl; auto.
Qed.

Lemma parse_validator_results_protocol_witness :
  verdict (_parse_validator_results true (42 * 256)
             (mkFeedback (Some (Some 5%Q)) None)) = Some AC /\
  score (_parse_validator_results true (42 * 256)
           (mkFeedback (Some (Some 5%Q)) None)) = Some 5%Q.
Proof.
  pose proof (parse_validator_results_protocol true (42 * 256)
                (mkFeedback (Some (Some 5%Q)) None)) as [_ H].
  destruct (H eq_refl) as (_ & _ & _ & H42).
  destruct (H42 eq_refl eq_refl) as [_ Hc].
  exact (Hc eq_refl).
Defined.

(** ** The verdict precedence of the interactive path *)

Ltac unfold_monad :=
  unfold mbind, mret, M_bind, M_ret, bind, ret, lift, raise in *.

Lemma validate_interactive_loop_skipped custom_score timelim n runs res :
  validate_interactive_loop custom_score timelim
    (repeat IValSkipped n ++ runs) res
  = validate_interactive_loop custom_score timelim runs res.
Proof. induction n as [|n IH]; simpl; auto. Qed.

Lemma validate_interactive_loop_all_skipped custom_score timelim n res :
  validate_interactive_loop custom_score timelim (repeat IValSkipped n) res
  = ret res.
Proof. induction n as [|n IH]; simpl; auto. Qed.

Lemma interactive_result_validator_first custom_score timelim val_status
    sub_status sub_runtime first fb :
  validator_first (interactive_result custom_score timelim val_status
                     sub_status sub_runtime first fb)
  = String.eqb first "validator".
Proof.
  unfold interactive_result.
  repeat match goal with |- context [if ?b then _ else _] => destruct b end;
    reflexivity.
Qed.

Lemma interactive_result_follows_validator custom_score timelim val_status
    sub_status sub_runtime first fb :
  validator_status_JE val_status \/ validator_WA_first val_status first ->
  let r := interactive_result custom_score timelim val_status sub_status
             sub_runtime first fb in
  verdict r = verdict (_parse_validator_results custom_score val_status fb) /\
  runtime r = (if Qgt_bool sub_runtime (inject_Z timelim)
               then inject_Z timelim else sub_runtime).
Proof.
  intros H. unfold interactive_result.
  assert (Hc : negb (WIFEXITED val_status)
               || negb ((WEXITSTATUS val_status =? 42)
                        || (WEXITSTATUS val_status =? 43))
               || (WIFEXITED val_status && (WEXITSTATUS val_status =? 43)
                   && String.eqb first "validator") = true).
  { destruct H as [[H | [H42 H43]] | (He & H43 & Hf)].
    - rewrite H. reflexivity.
    - apply Z.eqb_neq in H42, H43. rewrite H42, H43.
      destruct (WIFEXITED val_status); reflexivity.
    - rewrite He, H43, Hf. reflexivity. }
  rewrite Hc. split; reflexivity.
Qed.

Lemma interactive_result_follows_submission custom_score timelim val_status
    sub_status sub_runtime first fb :
  ~ (validator_status_JE val_status \/ validator_WA_first val_status first) ->
  let r := interactive_result custom_score timelim val_status sub_status
             sub_runtime first fb in
  verdict r =
    (if is_TLE sub_status true then Some TLE
     else if is_RTE sub_status then Some RTE
     else verdict (_parse_validator_results custom_score val_status fb)).
Proof.
  intros H. unfold interactive_result.
  assert (Hc : negb (WIFEXITED val_status)
               || negb ((WEXITSTATUS val_status =? 42)
                        || (WEXITSTATUS val_status =? 43))
               || (WIFEXITED val_status && (WEXITSTATUS val_status =? 43)
                   && String.eqb first "validator") = false).
  { unfold validator_status_JE, validator_WA_first in H.
    destruct (WIFEXITED val_status) eqn:He; simpl.
    - destruct (Z.eqb_spec (WEXITSTATUS val_status) 43) as [H43|H43].
      + rewrite orb_true_r. simpl.
        destruct (String.eqb_spec first "validator") as [Hf|Hf]; auto.
        exfalso. apply H. right. auto.
      + rewrite orb_false_r.
        destruct (Z.eqb_spec (WEXITSTATUS val_status) 42) as [H42|H42]; auto.
        exfalso. apply H. left. right. auto.
    - exfalso. apply H. left. left. reflexivity. }
  rewrite Hc.
  destruct (is_TLE sub_status true); [reflexivity|].
  destruct (is_RTE sub_status); reflexivity.
Qed.

(** C2: with one usable validator, a coordinator that did not crash and a
    status line of the expected form, validate_interactive returns a result
    whose verdict follows the precedence: the validator's parsed verdict,
    with the submission's runtime clamped to [timelim], when the validator's
    status is JE or it exited first with WA; else TLE when the submission's
    status is TLE (SIGXCPU or SIGUSR1); else RTE when it is RTE; else the
    validator's parsed verdict. Its [validator_first] is true exactly when
    the last token of the line is the word validator. *)
Theorem validate_interactive_precedence custom_score timelim skipped_before
    skipped_after i_status val_status sub_status sub_runtime first fb w :
  is_RTE i_status = false ->
  exists r,
    validate_interactive custom_score timelim true
      (repeat IValSkipped skipped_before
       ++ IRan i_status (StatusLine val_status sub_status sub_runtime first) fb
          :: repeat IValSkipped skipped_after) w
    = (Ok r, w) /\
    (validator_first r = true <-> first = "validator"%string) /\
    (validator_status_JE val_status \/ validator_WA_first val_status first ->
     verdict r = verdict (_parse_validator_results custom_score val_status fb)
     /\ runtime r = (if Qgt_bool sub_runtime (inject_Z timelim)
                     then inject_Z timelim else sub_runtime)) /\
    (~ (validator_status_JE val_status
        \/ validator_WA_first val_status first) ->
     (is_TLE sub_status true = true -> verdict r = Some TLE) /\
     (is_TLE sub_status true = false -> is_RTE sub_status = true ->
      verdict r = Some RTE) /\
     (is_TLE sub_status true = false -> is_RTE sub_status = false ->
      verdict r
      = verdict (_parse_validator_results custom_score val_status fb))).
Proof.
  intros Hi.
  exists (interactive_result custom_score timelim val_status sub_status
            sub_runtime first fb).
  split.
  - unfold validate_interactive. simpl negb. cbv iota.
    rewrite validate_interactive_loop_skipped. simpl. rewrite Hi.
    unfold mbind, M_bind, bind at 1. unfold ret at 1.
    destruct (negb (verdict_is AC _)); [reflexivity|].
    rewrite validate_interactive_loop_all_skipped. reflexivity.
  - split; [|split].
    + rewrite interactive_result_validator_first. apply String.eqb_eq.
    + apply interactive_result_follows_validator.
    + intros Hn.
      pose proof (interactive_result_follows_submission custom_score timelim
                    val_status sub_status sub_runtime first fb Hn) as Hv.
      cbv zeta in Hv. rewrite Hv.
      repeat split.
      * intros ->. reflexivity.
      * intros -> ->. reflexivity.
      * intros -> ->. reflexivity.
Qed.

(** The third scenario of the specification: the validator exits first with
    status 43 and the submission, killed by SIGXCPU, ran 11 s against a limit
    of 10 s. *)
Lemma validate_interactive_precedence_witness :
  exists r,
    validate_interactive false 10 true
      [IRan 0 (StatusLine (43 * 256) 24 11 "validator")
         (mkFeedback None None)] initial_world
    = (Ok r, initial_world) /\
    verdict r = Some WA /\ validator_first r = true /\ runtime r = 10%Q.
Proof.
  destruct (validate_interactive_precedence false 10 0 0 0 (43 * 256) 24 11
              "validator" (mkFeedback None None) initial_world eq_refl)
    as (r & Hrun & Hfirst & Hval & _).
  exists r. split; [exact Hrun|].
  destruct Hval as [Hv Ht].
  { right. repeat split. }
  split; [exact Hv|]. split; [|exact Ht].
  apply Hfirst. reflexivity.
Defined.

(** ** The three-limit classification of a test case *)

Lemma same_store_refl w : same_store w w.
Proof. repeat split. Qed.

Lemma same_store_trans w1 w2 w3 :
  same_store w1 w2 -> same_store w2 w3 -> same_store w1 w3.
Proof. intros (?&?&?) (?&?&?). repeat split; congruence. Qed.

Lemma error_same_store a w : same_store w (snd (error a w)).
Proof.
  unfold error. destruct a, (bail_on_error w); repeat split.
Qed.

Lemma validate_interactive_loop_same_store custom_score timelim runs :
  forall res w,
    same_store w
      (snd (validate_interactive_loop custom_score timelim runs res w)).
Proof.
  induction runs as [|run runs IH]; intros res w; simpl.
  - apply same_store_refl.
  - destruct run as [|i_status out fb]; [apply IH|].
    unfold mbind, M_bind, bind.
    destruct (is_RTE i_status).
    + pose proof (error_same_store SubmissionsAspect w) as He.
      destruct (error SubmissionsAspect w) as [[[]|e] w1]; simpl in *.
      * unfold ret at 1.
        destruct (negb (verdict_is AC res)); [exact He|].
        eapply same_store_trans; [exact He|apply IH].
      * exact He.
    + destruct out as [|val_status sub_status sub_runtime first].
      * pose proof (error_same_store SubmissionsAspect w) as He.
        destruct (error SubmissionsAspect w) as [[[]|e] w1]; simpl in *.
        -- unfold ret at 1.
           destruct (negb (verdict_is AC res)); [exact He|].
           eapply same_store_trans; [exact He|apply IH].
        -- exact He.
      * unfold ret at 1.
        destruct (negb (verdict_is AC _)); [apply same_store_refl|apply IH].
Qed.

Lemma validate_interactive_same_store custom_score timelim tool runs w :
  same_store w (snd (validate_interactive custom_score timelim tool runs w)).
Proof.
  unfold validate_interactive. destruct tool; simpl.
  - apply validate_interactive_loop_same_store.
  - unfold mbind, M_bind, bind.
    pose proof (error_same_store SubmissionsAspect w) as He.
    destruct (error SubmissionsAspect w) as [[[]|e] w1]; exact He.
Qed.

(** [compute_res_high] binds [res_high] to a new object: the next free
    reference, with the rest of the heap and the caches as they were. *)
Lemma compute_res_high_fresh pb timelim_high ex w l w1 :
  compute_res_high pb timelim_high ex w = (Ok l, w1) ->
  l = next_ref w /\ next_ref w1 = S l /\ is_Some (objs w1 !! l) /\
  result_cache w1 = result_cache w /\
  (forall l', l' <> l -> objs w1 !! l' = objs w !! l').
Proof.
  unfold compute_res_high. destruct (is_interactive pb).
  - unfold mbind, M_bind, bind.
    pose proof (validate_interactive_same_store (custom_scoring pb)
                  timelim_high (interactive_tool ex) (interactive_runs ex) w)
      as (Ho & Hn & Hc).
    destruct (validate_interactive _ _ _ _ w) as [[r|e] w0]; simpl in *;
      [|discriminate].
    unfold alloc. intros [= <- <-]. simpl.
    rewrite Hn, Ho, Hc. repeat split.
    + rewrite lookup_insert_eq. eauto.
    + intros l' Hl'. rewrite lookup_insert_ne by congruence. reflexivity.
  - unfold alloc. intros [= <- <-]. simpl. repeat split.
    + rewrite lookup_insert_eq. eauto.
    + intros l' Hl'. rewrite lookup_insert_ne by congruence. reflexivity.
Qed.

Ltac heap_lookup :=
  repeat first
    [ rewrite lookup_insert_eq
    | rewrite lookup_insert_ne by lia ].

Lemma Qle_bool_false x y : Qle_bool x y = false -> (y < x)%Q.
Proof.
  intros H. apply Qnot_le_lt. intros Hle.
  apply Qle_bool_iff in Hle. congruence.
Qed.

Lemma verdict_is_true v r : verdict_is v r = true <-> verdict r = Some v.
Proof. unfold verdict_is. apply bool_decide_eq_true. Qed.

Lemma run_uncached_classification pb self cache_key timelim timelim_low
    timelim_high ex w res_high w1 rh :
  timelim_low <= timelim ->
  compute_res_high pb timelim_high ex w = (Ok res_high, w1) ->
  objs w1 !! res_high = Some rh ->
  exists res res_low w2,
    run_uncached pb self cache_key timelim timelim_low timelim_high ex w
    = (Ok (res, res_low, res_high, false), w2) /\
    three_limit_classification timelim timelim_low rh w2 res res_low res_high.
Proof.
  intros Hlim Hc Hrh. set (r := runtime rh).
  destruct (compute_res_high_fresh _ _ _ _ _ _ Hc) as (Hl & Hn & _ & _ & _).
  assert (Hq : (inject_Z timelim_low <= inject_Z timelim)%Q)
    by (rewrite <- Zle_Qle; exact Hlim).
  unfold run_uncached. unfold mbind at 1. unfold M_bind at 1. unfold bind at 1.
  rewrite Hc.
  unfold classify.
  unfold_monad. unfold load, update, alloc, store_cache.
  rewrite Hrh. fold r.
  destruct (Qle_bool r (inject_Z timelim_low)) eqn:Hlo;
    [|destruct (Qle_bool r (inject_Z timelim)) eqn:Htl;
      [|destruct (validator_first rh && verdict_is WA rh) eqn:Hwa]];
    rewrite ?Hn;
    repeat (simpl; first [ rewrite Hrh | progress heap_lookup ]);
    simpl; eexists _, _, _; (split; [reflexivity|]);
    unfold three_limit_classification, holds; fold r; cbn [objs].
  - apply Qle_bool_iff in Hlo.
    split; [auto|]. split; [|split]; intros H; exfalso.
    + apply (Qlt_not_le _ _ H Hlo).
    + apply (Qlt_not_le _ _ H). eapply Qle_trans; eauto.
    + apply (Qlt_not_le _ _ H). eapply Qle_trans; eauto.
  - apply Qle_bool_false in Hlo. apply Qle_bool_iff in Htl.
    split; [|split; [|split]].
    + intros H. exfalso. apply (Qlt_not_le _ _ Hlo H).
    + intros _ _. split; [reflexivity|].
      eexists; heap_lookup. split; [reflexivity|]. reflexivity.
    + intros H. exfalso. apply (Qlt_not_le _ _ H Htl).
    + intros H. exfalso. apply (Qlt_not_le _ _ H Htl).
  - apply Qle_bool_false in Hlo, Htl.
    split; [|split; [|split]].
    + intros H. exfalso. apply (Qlt_not_le _ _ Hlo H).
    + intros _ H. exfalso. apply (Qlt_not_le _ _ Htl H).
    + intros _ _ _. split; [reflexivity|]. split.
      * eexists; heap_lookup. split; [reflexivity|]. split; reflexivity.
      * eexists; heap_lookup. split; [reflexivity|].
        unfold set_ac_runtime.
        destruct (verdict_is AC _); reflexivity.
    + intros _ H. exfalso. apply H.
      apply andb_true_iff in Hwa. destruct Hwa as [H1 H2].
      split; [exact H1|]. apply verdict_is_true. exact H2.
  - apply Qle_bool_false in Hlo, Htl.
    split; [|split; [|split]].
    + intros H. exfalso. apply (Qlt_not_le _ _ Hlo H).
    + intros _ H. exfalso. apply (Qlt_not_le _ _ Htl H).
    + intros _ H1 H2. exfalso.
      rewrite H1 in Hwa. apply verdict_is_true in H2. rewrite H2 in Hwa.
      discriminate.
    + intros _ _. split; [reflexivity|].
      split; eexists; heap_lookup; (split; [reflexivity|]); reflexivity.
Qed.



(** ** Reuse aliases and the result cache *)

Lemma run_uncached_ok pb self cache_key timelim timelim_low timelim_high ex
    w res_high w1 :
  compute_res_high pb timelim_high ex w = (Ok res_high, w1) ->
  exists res res_low w2,
    run_uncached pb self cache_key timelim timelim_low timelim_high ex w
    = (Ok (res, res_low, res_high, false), w2) /\
    allocated w2 res /\ allocated w2 res_low /\ allocated w2 res_high /\
    (forall l, allocated w l -> allocated w2 l) /\
    result_cache w2
    = <[self := (cache_key, (res, res_low, res_high))]> (result_cache w).
Proof.
  intros Hc.
  destruct (compute_res_high_fresh _ _ _ _ _ _ Hc)
    as (Hl & Hn & [rh Hrh] & Hcache & Hframe).
  unfold run_uncached. unfold mbind at 1. unfold M_bind at 1. unfold bind at 1.
  rewrite Hc.
  unfold classify.
  unfold_monad. unfold load, update, alloc, store_cache.
  rewrite Hrh.
  destruct (Qle_bool (runtime rh) (inject_Z timelim_low));
    [|destruct (Qle_bool (runtime rh) (inject_Z timelim));
      [|destruct (validator_first rh && verdict_is WA rh)]];
    rewrite ?Hn;
    repeat (simpl; first [ rewrite Hrh | progress heap_lookup ]);
    simpl; eexists _, _, _; (split; [reflexivity|]);
    unfold allocated; cbn [objs next_ref result_cache]; rewrite ?Hn, Hcache;
    (split; [split; [lia|heap_lookup; eauto]|]);
    (split; [split; [lia|heap_lookup; eauto]|]);
    (split; [split; [lia|heap_lookup; eauto]|]);
    (split; [|reflexivity]);
    intros l' [Hlt [v Hv]]; (split; [lia|]);
    heap_lookup; rewrite Hframe by lia; eauto.
Qed.

Lemma run_uncached_raises pb self cache_key timelim timelim_low timelim_high
    ex w e w1 :
  compute_res_high pb timelim_high ex w = (Raise e, w1) ->
  run_uncached pb self cache_key timelim timelim_low timelim_high ex w
  = (Raise e, w1).
Proof.
  intros Hc. unfold run_uncached.
  unfold mbind at 1. unfold M_bind at 1. unfold bind at 1. rewrite Hc.
  reflexivity.
Qed.

Lemma TestCase_alias_ind (P : TestCase -> Prop) :
  (forall self sc smp flt, P (mkTestCase self sc smp flt None)) ->
  (forall self sc smp flt target,
     P target -> P (mkTestCase self sc smp flt (Some target))) ->
  forall tc, P tc.
Proof.
  intros Hroot Halias. fix IH 1.
  intros [self sc smp flt [target|]].
  - apply Halias, IH.
  - apply Hroot.
Qed.

Lemma reuse_target_root tc : reuse_result_from (reuse_target tc) = None.
Proof. induction tc using TestCase_alias_ind; simpl; auto. Qed.

Lemma run_submission_real_target pb tc sub args timelim timelim_low
    timelim_high ex :
  _run_submission_real pb tc sub args timelim timelim_low timelim_high ex
  = _run_submission_real pb (reuse_target tc) sub args timelim timelim_low
      timelim_high ex.
Proof.
  induction tc using TestCase_alias_ind; simpl; auto.
Qed.

Lemma same_store_wf w w' : same_store w w' -> wf_world w -> wf_world w'.
Proof.
  intros (Ho & Hn & Hc) Hwf t key res res_low res_high Ht.
  rewrite Hc in Ht. unfold allocated. rewrite Ho, Hn.
  exact (Hwf _ _ _ _ _ Ht).
Qed.

Lemma compute_res_high_raises_same_store pb timelim_high ex w e w1 :
  compute_res_high pb timelim_high ex w = (Raise e, w1) -> same_store w w1.
Proof.
  unfold compute_res_high. destruct (is_interactive pb).
  - unfold mbind, M_bind, bind.
    pose proof (validate_interactive_same_store (custom_scoring pb)
                  timelim_high (interactive_tool ex) (interactive_runs ex) w)
      as Hs.
    destruct (validate_interactive _ _ _ _ w) as [[r|e'] w0]; simpl in *.
    + unfold alloc. discriminate.
    + intros [= <- <-]. exact Hs.
  - unfold alloc. discriminate.
Qed.

Lemma run_submission_real_root pb self sc smp flt sub args timelim
    timelim_low timelim_high ex w :
  _run_submission_real pb (mkTestCase self sc smp flt None) sub args timelim
    timelim_low timelim_high ex w
  = match cache_hit (result_cache w !! self)
            (sub, args, timelim, timelim_low, timelim_high) with
    | Some (res, res_low, res_high) => (Ok (res, res_low, res_high, true), w)
    | None =>
        run_uncached pb self (sub, args, timelim, timelim_low, timelim_high)
          timelim timelim_low timelim_high ex w
    end.
Proof.
  simpl. unfold mbind, M_bind, bind, lookup_cache.
  destruct (cache_hit _ _) as [[[res res_low] res_high]|]; reflexivity.
Qed.

(** What a call of _run_submission_real leaves behind: a well-formed world
    stays well-formed, the returned triple points into the heap, and no
    cache but the target's is written. *)
Lemma run_submission_real_wf pb tc sub args timelim timelim_low timelim_high
    ex w :
  wf_world w ->
  let out := _run_submission_real pb tc sub args timelim timelim_low
               timelim_high ex w in
  wf_world (snd out) /\
  (forall t, t <> tc_id (reuse_target tc) ->
     result_cache (snd out) !! t = result_cache w !! t) /\
  match fst out with
  | Ok (res, res_low, res_high, _) =>
      allocated (snd out) res /\ allocated (snd out) res_low /\
      allocated (snd out) res_high
  | Raise _ => True
  end.
Proof.
  intros Hwf. cbv zeta. rewrite run_submission_real_target.
  pose proof (reuse_target_root tc) as Hroot.
  destruct (reuse_target tc) as [self sc smp flt reuse].
  simpl in Hroot. subst reuse. rewrite run_submission_real_root.
  cbn [reuse_target tc_id].
  destruct (cache_hit (result_cache w !! self) _) as [[[res res_low] res_high]|]
    eqn:Hhit.
  - simpl. split; [exact Hwf|]. split; [reflexivity|].
    unfold cache_hit in Hhit.
    destruct (result_cache w !! self) as [[key triple]|] eqn:Hc;
      [|discriminate].
    destruct (bool_decide _); [|discriminate].
    injection Hhit as ->. exact (Hwf _ _ _ _ _ Hc).
  - destruct (compute_res_high pb timelim_high ex w) as [[l|e] w1] eqn:Hc.
    + destruct (run_uncached_ok pb self
                  (sub, args, timelim, timelim_low, timelim_high)
                  timelim timelim_low timelim_high ex w l w1 Hc)
        as (res & res_low & w2 & Hrun & Ha & Hb & Hh & Hmono & Hcache).
      rewrite Hrun. simpl. split; [|split; [|auto]].
      * intros t key r1 r2 r3 Ht. rewrite Hcache in Ht.
        destruct (decide (self = t)) as [->|Hne].
        -- rewrite lookup_insert_eq in Ht. injection Ht as <- <- <- <-. auto.
        -- rewrite lookup_insert_ne in Ht by exact Hne.
           destruct (Hwf _ _ _ _ _ Ht) as (?&?&?). auto.
      * intros t Ht. rewrite Hcache. rewrite lookup_insert_ne by congruence.
        reflexivity.
    + rewrite (run_uncached_raises _ _ _ _ _ _ _ _ _ _ Hc). simpl.
      pose proof (compute_res_high_raises_same_store _ _ _ _ _ _ Hc) as Hs.
      split; [eapply same_store_wf; eauto|]. split; [|exact I].
      intros t _. destruct Hs as (_ & _ & ->). reflexivity.
Qed.

Lemma set_sample_failures_same r :
  set_sample_failures (sample_failures r) r = r.
Proof. destruct r; reflexivity. Qed.

Lemma TestCase_run_submission_ok pb tc sub args timelim timelim_low
    timelim_high ex w l l_low l_high reused w' v v_low v_high :
  _run_submission_real pb tc sub args timelim timelim_low timelim_high ex w
  = (Ok (l, l_low, l_high, reused), w') ->
  (l < next_ref w')%nat -> (l_low < next_ref w')%nat ->
  (l_high < next_ref w')%nat ->
  objs w' !! l = Some v -> objs w' !! l_low = Some v_low ->
  objs w' !! l_high = Some v_high ->
  exists r r_low r_high w'',
    TestCase_run_submission pb tc sub args timelim timelim_low timelim_high
      ex w = (Ok (r, r_low, r_high), w'') /\
    stamped pb tc v r /\ stamped pb tc v_low r_low /\
    stamped pb tc v_high r_high /\
    result_cache w'' = result_cache w' /\
    (l_low = l -> r_low = r) /\ (l_high = l -> r_high = r).
Proof.
  intros Hrun Hl Hll Hlh Hv Hvl Hvh.
  unfold TestCase_run_submission.
  unfold mbind at 1. unfold M_bind at 1. unfold bind at 1. rewrite Hrun.
  unfold_monad. unfold append_sample_failure, load, update, alloc.
  rewrite Hv. simpl. heap_lookup. rewrite Hvl. simpl. heap_lookup.
  rewrite Hvh. simpl.
  destruct (negb (verdict_is AC v) && tc_in_sample tc);
    [destruct (bool_decide (l_low = l)) eqn:E1;
     destruct (bool_decide (l_high = l)) eqn:E2|];
    repeat (simpl; first [ rewrite Hv | rewrite Hvl | rewrite Hvh
                         | progress heap_lookup ]);
    simpl; eexists _, _, _, _; (split; [reflexivity|]);
    unfold stamped;
    (split; [|split; [|split; [|split; [|split]]]]);
    try (symmetry; apply set_sample_failures_same);
    try reflexivity;
    try apply bool_decide_eq_false in E1;
    try apply bool_decide_eq_false in E2;
    try apply bool_decide_eq_true in E1;
    try apply bool_decide_eq_true in E2;
    intros Heq; try contradiction; subst; congruence.
Qed.

Lemma TestCase_run_submission_raises pb tc sub args timelim timelim_low
    timelim_high ex w e w' :
  _run_submission_real pb tc sub args timelim timelim_low timelim_high ex w
  = (Raise e, w') ->
  TestCase_run_submission pb tc sub args timelim timelim_low timelim_high
    ex w = (Raise e, w').
Proof.
  intros Hrun. unfold TestCase_run_submission.
  unfold mbind at 1. unfold M_bind at 1. unfold bind at 1. rewrite Hrun.
  reflexivity.
Qed.

Lemma init_result_for_testcase_fields pb tc v :
  verdict (_init_result_for_testcase pb tc v) = verdict v /\
  runtime (_init_result_for_testcase pb tc v) = runtime v /\
  score (_init_result_for_testcase pb tc v)
  = (if bool_decide (score v = None) && is_scoring pb
     then if verdict_is AC v then Some (tc_grading_score tc) else Some 0%Q
     else score v).
Proof.
  unfold _init_result_for_testcase, verdict_is. simpl.
  destruct (bool_decide (score v = None) && is_scoring pb);
    [destruct (bool_decide (verdict v = Some AC))|]; repeat split.
Qed.

Lemma stamped_agree pb a b v x y :
  stamped pb a v x -> stamped pb b v y -> agree_up_to_group_score a b x y.
Proof.
  unfold stamped. intros -> ->. unfold agree_up_to_group_score.
  destruct (init_result_for_testcase_fields pb a v) as (Hva & Hra & Hsa).
  destruct (init_result_for_testcase_fields pb b v) as (Hvb & Hrb & Hsb).
  simpl. rewrite Hva, Hvb, Hra, Hrb, Hsa, Hsb.
  split; [reflexivity|]. split; [reflexivity|].
  destruct (bool_decide (score v = None) && is_scoring pb); [|auto].
  destruct (verdict_is AC v) eqn:Hac; [|auto].
  right. apply verdict_is_true in Hac. auto.
Qed.

(** C8, as the claim states it, fails on the score: in a scoring problem an
    alias in a group whose cases score 5 and its target in a group whose
    cases score 1 return different scores for the one accepted run. *)
Lemma alias_score_differs :
  let pb := mkProblem false true false in
  let b := mkTestCase 1%nat 1 false true None in
  let a := mkTestCase 2%nat 5 false true (Some b) in
  let ex := mkExecution 0 (1 # 2)
              [ValRan (42 * 256) (mkFeedback None None)] true [] in
  exists ra ra_low ra_high wa rb rb_low rb_high wb,
    TestCase_run_submission pb a 0%nat 0%nat 5 5 10 ex initial_world
    = (Ok (ra, ra_low, ra_high), wa) /\
    TestCase_run_submission pb b 0%nat 0%nat 5 5 10 ex initial_world
    = (Ok (rb, rb_low, rb_high), wb) /\
    verdict ra = Some AC /\ verdict rb = Some AC /\
    score ra = Some 5%Q /\ score rb = Some 1%Q.
Proof.
  cbv zeta. eexists _, _, _, _, _, _, _, _.
  split; [vm_compute; reflexivity|].
  split; [vm_compute; reflexivity|].
  repeat split.
Qed.

(** C8, amended: running an alias [a] of [b] is running [b]: the call of
    _run_submission_real is the target's own call, with the same outcome
    and the same state, and no cache but the target's is written. The
    triples that run_submission returns for [a] and for [b] agree in verdict
    and runtime; they agree in score too, except for an accepted result that
    the validator gave no score, which each case stamps with the score of
    its own group. *)
Theorem alias_run_submission pb self sc smp flt b sub args timelim
    timelim_low timelim_high ex w :
  let a := mkTestCase self sc smp flt (Some b) in
  wf_world w ->
  _run_submission_real pb a sub args timelim timelim_low timelim_high ex w
  = _run_submission_real pb b sub args timelim timelim_low timelim_high ex w
  /\
  (forall t, t <> tc_id (reuse_target b) ->
     result_cache
       (snd (TestCase_run_submission pb a sub args timelim timelim_low
               timelim_high ex w)) !! t
     = result_cache w !! t) /\
  match
    fst (TestCase_run_submission pb a sub args timelim timelim_low
           timelim_high ex w),
    fst (TestCase_run_submission pb b sub args timelim timelim_low
           timelim_high ex w)
  with
  | Ok (ra, ra_low, ra_high), Ok (rb, rb_low, rb_high) =>
      agree_up_to_group_score a b ra rb /\
      agree_up_to_group_score a b ra_low rb_low /\
      agree_up_to_group_score a b ra_high rb_high
  | Raise e, Raise e' => e = e'
  | _, _ => False
  end.
Proof.
  intros a Hwf. split; [reflexivity|].
  pose proof (run_submission_real_wf pb b sub args timelim timelim_low
                timelim_high ex w Hwf) as Hreal.
  cbv zeta in Hreal.
  assert (Ha : _run_submission_real pb a sub args timelim timelim_low
                 timelim_high ex w
               = _run_submission_real pb b sub args timelim timelim_low
                   timelim_high ex w) by reflexivity.
  destruct (_run_submission_real pb b sub args timelim timelim_low
              timelim_high ex w)
    as [[[[[l l_low] l_high] reused]|e] w'] eqn:Hb;
    simpl in Hreal; destruct Hreal as (_ & Hcache & Hal).
  - destruct Hal as ((Hl & [v Hv]) & (Hll & [v_low Hvl]) & (Hlh & [v_high Hvh])).
    destruct (TestCase_run_submission_ok pb a sub args timelim timelim_low
                timelim_high ex w l l_low l_high reused w' v v_low v_high
                Ha Hl Hll Hlh Hv Hvl Hvh)
      as (ra & ra_low & ra_high & wa & Hra & Sa & Sal & Sah & Hca & _).
    destruct (TestCase_run_submission_ok pb b sub args timelim timelim_low
                timelim_high ex w l l_low l_high reused w' v v_low v_high
                Hb Hl Hll Hlh Hv Hvl Hvh)
      as (rb & rb_low & rb_high & wb & Hrb & Sb & Sbl & Sbh & Hcb & _).
    rewrite Hra, Hrb. simpl. split.
    + intros t Ht. rewrite Hca. apply Hcache. exact Ht.
    + repeat split; eapply stamped_agree; eauto.
  - rewrite (TestCase_run_submission_raises _ _ _ _ _ _ _ _ _ _ _ Ha).
    rewrite (TestCase_run_submission_raises _ _ _ _ _ _ _ _ _ _ _ Hb).
    simpl. split; [|reflexivity].
    intros t Ht. apply Hcache. exact Ht.
Qed.

Lemma initial_world_wf : wf_world initial_world.
Proof. intros t key res res_low res_high Ht. discriminate Ht. Qed.

Lemma alias_run_submission_witness :
  let pb := mkProblem false true false in
  let b := mkTestCase 1%nat 1 false true None in
  let a := mkTestCase 2%nat 1 false true (Some b) in
  let ex := mkExecution 0 (1 # 2)
              [ValRan (42 * 256) (mkFeedback None None)] true [] in
  _run_submission_real pb a 0%nat 0%nat 5 5 10 ex initial_world
  = _run_submission_real pb b 0%nat 0%nat 5 5 10 ex initial_world.
Proof.
  exact (proj1 (alias_run_submission (mkProblem false true false) 2%nat 1
                  false true (mkTestCase 1%nat 1 false true None) 0%nat 0%nat
                  5 5 10
                  (mkExecution 0 (1 # 2)
                     [ValRan (42 * 256) (mkFeedback None None)] true [])
                  initial_world initial_world_wf)).
Defined.

(** ** Aggregation of child results *)

Lemma find_JE_none (sub_results : list SubmissionResult) :
  Forall (fun r => verdict r <> Some JE) sub_results ->
  List.find (verdict_is JE) sub_results = None.
Proof.
  induction 1 as [|r rs Hr _ IH]; simpl; [reflexivity|].
  destruct (verdict_is JE r) eqn:E; [|exact IH].
  apply verdict_is_true in E. contradiction.
Qed.

Lemma find_JE_some (sub_results : list SubmissionResult) je :
  In je sub_results -> verdict je = Some JE ->
  exists first_je pre post,
    List.find (verdict_is JE) sub_results = Some first_je /\
    sub_results = pre ++ first_je :: post /\
    verdict first_je = Some JE /\
    Forall (fun r => verdict r <> Some JE) pre.
Proof.
  induction sub_results as [|r rs IH]; intros Hin Hje; [destruct Hin|].
  simpl. destruct (verdict_is JE r) eqn:E.
  - exists r, [], rs. apply verdict_is_true in E. auto.
  - destruct Hin as [->|Hin].
    + apply verdict_is_true in Hje. congruence.
    + destruct (IH Hin Hje) as (f & pre & post & Hf & -> & Hv & Hpre).
      exists f, (r :: pre), post. repeat split; auto.
      constructor; [|exact Hpre].
      intros Hr. apply verdict_is_true in Hr. congruence.
Qed.

Lemma aggregate_step_score res r : score (aggregate_step res r) = score res.
Proof.
  unfold aggregate_step.
  destruct (Qgt_bool (runtime r) (runtime res)); simpl;
    match goal with |- context [if ?b then _ else _] => destruct b end;
    reflexivity.
Qed.

Lemma fold_aggregate_step_score sub_results res :
  score (fold_left aggregate_step sub_results res) = score res.
Proof.
  revert res. induction sub_results as [|r rs IH]; intros res; simpl.
  - reflexivity.
  - rewrite IH. apply aggregate_step_score.
Qed.

(** C7: if some child has verdict JE, aggregate_results returns at once,
    in every grading mode and whatever the other children are: the result
    has the verdict, reason, additional_info and testcase of the first JE
    child, no score is computed, and nothing is reported. *)
Theorem aggregate_results_judge_error pb g sub_results w je :
  In je sub_results -> verdict je = Some JE ->
  exists first_je pre post res,
    sub_results = pre ++ first_je :: post /\
    Forall (fun r => verdict r <> Some JE) pre /\
    verdict first_je = Some JE /\
    aggregate_results pb g sub_results w = (Ok res, w) /\
    verdict res = Some JE /\
    reason res = reason first_je /\
    additional_info res = additional_info first_je /\
    testcase res = testcase first_je /\
    score res = None.
Proof.
  intros Hin Hje.
  destruct (find_JE_some sub_results je Hin Hje)
    as (f & pre & post & Hfind & Hsplit & Hv & Hpre).
  exists f, pre, post. eexists. split; [exact Hsplit|].
  split; [exact Hpre|]. split; [exact Hv|].
  unfold aggregate_results. rewrite Hfind. unfold ret.
  split; [reflexivity|]. simpl.
  repeat split; auto.
  apply fold_aggregate_step_score.
Qed.

Lemma aggregate_results_judge_error_witness :
  let ac := new_SubmissionResult (Some AC) (Some 5%Q) None None in
  let je := new_SubmissionResult (Some JE) None
              (Some (ValidatorCrashed 11)) None in
  exists res,
    aggregate_results (mkProblem false true false) (mkGroupConfig 0%nat "sum" 15)
      [ac; je; ac] initial_world = (Ok res, initial_world) /\
    verdict res = Some JE /\ reason res = Some (ValidatorCrashed 11) /\
    score res = None.
Proof.
  cbv zeta.
  destruct (aggregate_results_judge_error (mkProblem false true false)
              (mkGroupConfig 0%nat "sum" 15)
              [new_SubmissionResult (Some AC) (Some 5%Q) None None;
               new_SubmissionResult (Some JE) None
                 (Some (ValidatorCrashed 11)) None;
               new_SubmissionResult (Some AC) (Some 5%Q) None None]
              initial_world
              (new_SubmissionResult (Some JE) None
                 (Some (ValidatorCrashed 11)) None)
              (or_intror (or_introl eq_refl)) eq_refl)
    as (f & pre & post & res & Hsplit & Hpre & Hf & Hrun & Hv & Hr & _ & _ & Hs).
  exists res. split; [exact Hrun|]. split; [exact Hv|]. split; [|exact Hs].
  rewrite Hr.
  destruct pre as [|p0 [|p1 pre]].
  - injection Hsplit as <- _. discriminate Hf.
  - injection Hsplit as _ <- _. reflexivity.
  - injection Hsplit as _ <- Hrest. inversion Hpre as [|? ? _ Hpre'].
    inversion Hpre' as [|? ? Hp1 _]. exfalso. apply Hp1. reflexivity.
Defined.




Lemma check_max_score_returns g res w :
  bail_on_error w = false \/
  match score res with
  | Some s => (s <= max_score g)%Q
  | None => True
  end ->
  exists w', check_max_score g res w = (Ok tt, w').
Proof.
  intros H. unfold check_max_score, has_seen_oob.
  unfold mbind, M_bind, bind.
  destruct (score res) as [s|]; [|eexists; reflexivity].
  destruct (Qle_bool s (max_score g)) eqn:Hle; simpl.
  - eexists; reflexivity.
  - destruct (bool_decide (g_id g ∈ seen_oob_scores w)); simpl;
      [eexists; reflexivity|].
    destruct H as [Hb | Hs].
    + unfold error. simpl. rewrite Hb. eexists; reflexivity.
    + apply Qle_bool_iff in Hs. congruence.
Qed.



Lemma aggregate_results_pass_fail_raises pb g first rest w :
  is_scoring pb = false ->
  Forall (fun r => verdict r <> Some JE) (first :: rest) ->
  aggregate_results pb g (first :: rest) w = (Raise NameError, w).
Proof.
  intros Hsc Hje. unfold aggregate_results.
  rewrite (find_JE_none _ Hje), Hsc. reflexivity.
Qed.

(** C4 on the code: in a pass/fail problem the aggregation of one accepted
    child raises NameError; it returns no result. *)
Theorem aggregate_results_pass_fail_one_AC :
  aggregate_results (mkProblem false false false)
    (mkGroupConfig 0%nat "" 0)
    [new_SubmissionResult (Some AC) None None None] initial_world
  = (Raise NameError, initial_world).
Proof.
  apply aggregate_results_pass_fail_raises; [reflexivity|].
  repeat constructor. discriminate.
Qed.

(** C10: on an empty list of child results, the min aggregation of a
    scoring group raises ValueError and returns no result; so does
    run_submission on a min group all of whose children the data filter
    excludes. The sum aggregation returns a result with verdict AC (unless
    a negative maximum is reported under bail_on_error), and so does the
    pass/fail branch, which sets no score. *)
Theorem aggregate_results_empty pb g w :
  (is_scoring pb = true -> aggregation g = "min"%string ->
   aggregate_results pb g [] w = (Raise ValueError, w) /\
   forall exec_of sub args timelim timelim_low timelim_high items,
     Forall excluded items ->
     run_submission pb exec_of sub args timelim timelim_low timelim_high
       (ItemGroup g items) w = (Raise ValueError, w)) /\
  (is_scoring pb = true -> aggregation g = "sum"%string ->
   bail_on_error w = false \/ (0 <= max_score g)%Q ->
   exists res w',
     aggregate_results pb g [] w = (Ok res, w') /\
     verdict res = Some AC /\ score res = Some 0%Q) /\
  (is_scoring pb = false ->
   exists res,
     aggregate_results pb g [] w = (Ok res, w) /\
     verdict res = Some AC /\ score res = None).
Proof.
  split; [|split].
  - intros Hsc Hagg.
    assert (Hempty : aggregate_results pb g [] w = (Raise ValueError, w)).
    { unfold aggregate_results. simpl. rewrite Hsc, Hagg. reflexivity. }
    split; [exact Hempty|].
    intros exec_of sub args timelim timelim_low timelim_high items Hex.
    simpl.
    unfold mbind at 1. unfold M_bind at 1. unfold bind at 1.
    match goal with
    | |- context [?f items [] [] [] w] =>
        assert (Hloop : forall a b c, f items a b c w = (Ok (a, b, c), w))
    end.
    { induction Hex as [|it its Hit _ IH]; intros a b c; [reflexivity|].
      destruct it as [tc|g' its']; [|destruct Hit].
      simpl in Hit. rewrite Hit. simpl. apply IH. }
    rewrite Hloop.
    unfold mbind at 1. unfold M_bind at 1. unfold bind at 1.
    rewrite Hempty. reflexivity.
  - intros Hsc Hagg Hbail.
    unfold aggregate_results. simpl. rewrite Hsc, Hagg.
    change (String.eqb "sum" "min") with false.
    change (String.eqb "sum" "sum") with true.
    cbn [negb].
    unfold mbind, M_bind, bind, lift, ret.
    change (py_sum []) with (@Ok Q 0%Q). cbv iota beta.
    match goal with
    | |- context [check_max_score g ?r w] =>
        destruct (check_max_score_returns g r w) as [w' Hcheck]
    end.
    { destruct Hbail as [Hb|Hle]; [left; exact Hb|right; exact Hle]. }
    rewrite Hcheck.
    eexists _, w'. split; [reflexivity|]. split; reflexivity.
  - intros Hsc. unfold aggregate_results. simpl. rewrite Hsc. simpl.
    eexists. split; [reflexivity|]. split; reflexivity.
Qed.

(** ** The inference of the time limits *)






(** ** The natural-sort comparison *)

(** The comparison on the names of the comment above natural_sort_le:
    a < a1 < a2 < a10 = a010 < a10a. *)
Lemma natural_sort_le_documented_chain :
  natural_sort_le "a" "a1" = Ok true /\
  natural_sort_le "a1" "a2" = Ok true /\
  natural_sort_le "a2" "a10" = Ok true /\
  natural_sort_le "a10" "a010" = Ok true /\
  natural_sort_le "a010" "a10" = Ok true /\
  natural_sort_le "a010" "a10a" = Ok true /\
  natural_sort_le "a10" "a2" = Ok false.
Proof. vm_compute. repeat split. Qed.

(** C9 on the code: the comparison is not transitive. After the equal
    numbers 00 and 0 the two indices differ, the digit test reads [b[i]]
    instead of [b[j]], and the numbers 10 and 9 are compared as the
    characters 1 and 9. *)
Theorem natural_sort_le_not_transitive :
  natural_sort_le "00a10" "0a9" = Ok true /\
  natural_sort_le "0a9" "00a9" = Ok true /\
  natural_sort_le "00a10" "00a9" = Ok false.
Proof. vm_compute. repeat split. Qed.

(** The same slip makes the comparison raise: [b[i]] is read past the end
    of [b]. *)
Lemma natural_sort_le_index_error :
  natural_sort_le "000a1" "0a1" = Raise IndexError.
Proof. vm_compute. reflexivity. Qed.

Lemma string_get_lt (s : string) (n : nat) :
  (n < String.length s)%nat -> is_Some (String.get n s).
Proof.
  revert n. induction s as [|c s IH]; intros n Hn; simpl in *; [lia|].
  destruct n as [|n]; [eauto|]. apply IH. lia.
Qed.

Lemma string_get_length (s : string) (n : nat) c :
  String.get n s = Some c -> (n < String.length s)%nat.
Proof.
  revert n. induction s as [|c' s IH]; intros n Hn; simpl in *;
    [discriminate|].
  destruct n as [|n]; [lia|]. apply IH in Hn. lia.
Qed.

Lemma string_length_append (s1 s2 : string) :
  String.length (s1 ++ s2) = (String.length s1 + String.length s2)%nat.
Proof. induction s1 as [|c s1 IH]; simpl; auto. Qed.

(** parse_num stops at the first character that is no digit: with one at
    position [k], at or after [i], it returns, and it has moved when it
    started on a digit. *)
Lemma parse_num_loop_stops (s : string) (k : nat) (stop : ascii) :
  String.get k s = Some stop -> is_digit stop = false ->
  forall fuel ret i,
    (i <= k)%nat -> (k - i < fuel)%nat ->
    exists n i',
      parse_num_loop fuel s ret i = Ok (n, i') /\ (i <= i' <= k)%nat /\
      (forall c, String.get i s = Some c -> is_digit c = true -> (i < i')%nat).
Proof.
  intros Hk Hstop. induction fuel as [|fuel IH]; intros ret i Hi Hfuel;
    [lia|].
  simpl. unfold char_at.
  destruct (string_get_lt s i) as [c Hc].
  { apply string_get_length in Hk. lia. }
  rewrite Hc. simpl. unfold mbind, Outcome_bind.
  destruct (is_digit c) eqn:Hd.
  - assert (i <> k) by (intros ->; congruence).
    destruct (IH (ret * 10 + ord c - ord "0") (i + 1)%nat)
      as (n & i' & Hrun & Hrange & _); [lia|lia|].
    exists n, i'. split; [exact Hrun|]. split; [lia|]. intros; lia.
  - exists ret, i. split; [reflexivity|]. split; [lia|].
    intros c' Hc' Hd'. congruence.
Qed.

Lemma natural_sort_le_loop_refl (x : string) :
  let a := (x ++ String Ascii.zero EmptyString)%string in
  forall fuel i,
    (String.length a - i < fuel)%nat ->
    natural_sort_le_loop fuel a a i i = Ok true.
Proof.
  intros a.
  assert (Hlen : String.length a = S (String.length x)).
  { unfold a. rewrite string_length_append. simpl. lia. }
  assert (Hstop : String.get (String.length x) a = Some Ascii.zero).
  { unfold a. rewrite <- (append_correct2 x _ 0). reflexivity. }
  induction fuel as [|fuel IH]; intros i Hfuel; [lia|].
  cbn [natural_sort_le_loop].
  destruct (i <? String.length a)%nat eqn:Hi; cbn [andb]; [|reflexivity].
  apply Nat.ltb_lt in Hi.
  unfold char_at. destruct (string_get_lt a i Hi) as [c Hc]. rewrite Hc.
  unfold mbind, Outcome_bind. cbv beta iota.
  destruct (is_digit c) eqn:Hd; cbv beta iota.
  - destruct (parse_num_loop_stops a (String.length x) Ascii.zero Hstop
                eq_refl (S (String.length a)) 0 i)
      as (n & i' & Hrun & Hrange & Hmove); [lia|lia|].
    unfold parse_num. rewrite Hrun. cbv beta iota.
    rewrite Z.eqb_refl. apply IH.
    specialize (Hmove c Hc Hd). lia.
  - rewrite Ascii.eqb_refl. apply IH. lia.
Qed.

(** X5: the comparison natural_sort_le is reflexive: on two equal names,
    whatever they contain, it returns True and raises nothing. *)
Lemma natural_sort_le_refl (x : string) : natural_sort_le x x = Ok true.
Proof.
  unfold natural_sort_le. apply natural_sort_le_loop_refl. lia.
Qed.


(** ** Further properties of the test-case cache *)

(** X1: TestCase.run_submission on a test case that is no alias and whose
    cache does not hold the key: when the run took no longer than timelim_low,
    the three results returned are equal, field by field. *)
Lemma run_submission_within_low pb tc sub args timelim timelim_low
    timelim_high ex w res_high w1 rh :
  reuse_result_from tc = None ->
  cache_hit (result_cache w !! tc_id tc)
    (sub, args, timelim, timelim_low, timelim_high) = None ->
  timelim_low <= timelim ->
  compute_res_high pb timelim_high ex w = (Ok res_high, w1) ->
  objs w1 !! res_high = Some rh ->
  (runtime rh <= inject_Z timelim_low)%Q ->
  exists r w',
    TestCase_run_submission pb tc sub args timelim timelim_low timelim_high
      ex w = (Ok (r, r, r), w').
Proof.
  intros Hreuse Hmiss Hlim Hc Hrh Hr.
  destruct tc as [self sc smp flt reuse]. simpl in Hreuse, Hmiss. subst reuse.
  set (tc := mkTestCase self sc smp flt None).
  set (key := (sub, args, timelim, timelim_low, timelim_high)).
  destruct (run_uncached_classification pb self key timelim timelim_low
              timelim_high ex w res_high w1 rh Hlim Hc Hrh)
    as (res & res_low & w2 & Hrun & Hclass & _).
  destruct (Hclass Hr) as [-> ->].
  destruct (run_uncached_ok pb self key timelim timelim_low timelim_high ex
              w res_high w1 Hc)
    as (res' & res_low' & w2' & Hrun' & _ & _ & [Hlt [v Hv]] & _).
  rewrite Hrun in Hrun'. injection Hrun' as <- <- <-.
  assert (Hreal : _run_submission_real pb tc sub args timelim timelim_low
                    timelim_high ex w
                  = (Ok (res_high, res_high, res_high, false), w2)).
  { unfold tc. rewrite run_submission_real_root. rewrite Hmiss.
    exact Hrun. }
  destruct (TestCase_run_submission_ok pb tc sub args timelim timelim_low
              timelim_high ex w res_high res_high res_high false w2 v v v
              Hreal Hlt Hlt Hlt Hv Hv Hv)
    as (r & r_low & r_high & w' & Hsub & _ & _ & _ & _ & Hlow & Hhigh).
  rewrite (Hlow eq_refl), (Hhigh eq_refl) in Hsub.
  exists r, w'. exact Hsub.
Qed.


Lemma run_submission_within_low_witness :
  exists r w',
    TestCase_run_submission (mkProblem false true false)
      (mkTestCase 0%nat 1 false true None) 0%nat 0%nat 5 3 10
      (mkExecution 0 (1 # 2) [ValRan (42 * 256) (mkFeedback None None)]
         false [])
      initial_world
    = (Ok (r, r, r), w').
Proof.
  apply (run_submission_within_low (mkProblem false true false)
           (mkTestCase 0%nat 1 false true None) 0%nat 0%nat 5 3 10
           (mkExecution 0 (1 # 2)
              [ValRan (42 * 256) (mkFeedback None None)] false [])
           initial_world 0%nat _ _ eq_refl eq_refl ltac:(lia) eq_refl
           eq_refl).
  simpl. discriminate.
Defined.

(** X2: cache coherence of TestCase._run_submission_real. After a call that
    returned, a call with the same submission, arguments and limits returns
    the same three objects, flagged as reused, and changes nothing, whatever
    the submission would do if it were run again; through an alias as well. *)
Lemma run_submission_real_cached pb tc sub args timelim timelim_low
    timelim_high ex ex' w res res_low res_high reused w' :
  _run_submission_real pb tc sub args timelim timelim_low timelim_high ex w
  = (Ok (res, res_low, res_high, reused), w') ->
  _run_submission_real pb tc sub args timelim timelim_low timelim_high ex' w'
  = (Ok (res, res_low, res_high, true), w').
Proof.
  rewrite (run_submission_real_target pb tc sub args timelim timelim_low
             timelim_high ex).
  rewrite (run_submission_real_target pb tc sub args timelim timelim_low
             timelim_high ex').
  pose proof (reuse_target_root tc) as Hroot.
  destruct (reuse_target tc) as [self sc smp flt reuse].
  simpl in Hroot. subst reuse.
  rewrite (run_submission_real_root pb self sc smp flt sub args timelim
             timelim_low timelim_high ex w).
  rewrite (run_submission_real_root pb self sc smp flt sub args timelim
             timelim_low timelim_high ex' w').
  set (key := (sub, args, timelim, timelim_low, timelim_high)).
  destruct (cache_hit (result_cache w !! self) key)
    as [[[r1 r2] r3]|] eqn:Hhit.
  - intros [= <- <- <- <- <-]. rewrite Hhit. reflexivity.
  - intros Hrun.
    destruct (compute_res_high pb timelim_high ex w) as [[l|e] w1] eqn:Hc.
    + destruct (run_uncached_ok pb self key timelim timelim_low timelim_high
                  ex w l w1 Hc)
        as (r1 & r2 & w2 & Hrun' & _ & _ & _ & _ & Hcache).
      rewrite Hrun in Hrun'. injection Hrun' as E1 E2 E3 E4 E5. subst.
      rewrite Hcache, lookup_insert_eq. unfold cache_hit.
      rewrite bool_decide_eq_true_2 by reflexivity. reflexivity.
    + rewrite (run_uncached_raises _ _ _ _ _ _ _ _ _ _ Hc) in Hrun.
      discriminate.
Qed.


Lemma run_submission_real_cached_witness :
  exists res res_low res_high w',
    _run_submission_real (mkProblem false true false)
      (mkTestCase 0%nat 1 false true None) 0%nat 0%nat 5 3 10
      (mkExecution 0 (1 # 2) [ValRan (42 * 256) (mkFeedback None None)]
         false [])
      initial_world
    = (Ok (res, res_low, res_high, false), w') /\
    _run_submission_real (mkProblem false true false)
      (mkTestCase 0%nat 1 false true None) 0%nat 0%nat 5 3 10
      (mkExecution 11 7 [] false []) w'
    = (Ok (res, res_low, res_high, true), w').
Proof.
  eexists _, _, _, _. split.
  - vm_compute. reflexivity.
  - eapply (run_submission_real_cached _ _ _ _ _ _ _ (mkExecution 0 (1 # 2) [ValRan (42 * 256) (mkFeedback None None)]
         false []) _ initial_world).
    vm_compute. reflexivity.
Defined.

(** ** Further properties of the aggregation *)

Lemma py_min_from_spec (xs : list (option Q)) :
  Forall is_Some xs ->
  forall c,
  exists m,
    py_min_from (Some c) xs = Ok (Some m) /\
    In (Some m) (Some c :: xs) /\
    forall q, In (Some q) (Some c :: xs) -> (m <= q)%Q.
Proof.
  induction 1 as [|x xs [a ->] _ IH]; intros c; simpl.
  - exists c. split; [reflexivity|]. split; [auto|].
    intros q [[= <-]|[]]. apply Qle_refl.
  - destruct (Qlt_bool a c) eqn:E.
    + destruct (IH a) as (m & Hrun & Hin & Hmin).
      exists m. split; [exact Hrun|]. split.
      * destruct Hin as [Hin|Hin]; auto.
      * intros q [[= <-]|[[= <-]|Hq]].
        -- apply Qle_trans with a; [apply Hmin; left; reflexivity|].
           unfold Qlt_bool in E. apply negb_true_iff, Qle_bool_false in E.
           apply Qlt_le_weak, E.
        -- apply Hmin. left. reflexivity.
        -- apply Hmin. right. exact Hq.
    + destruct (IH c) as (m & Hrun & Hin & Hmin).
      exists m. split; [exact Hrun|]. split.
      * destruct Hin as [Hin|Hin]; auto.
      * intros q [[= <-]|[[= <-]|Hq]].
        -- apply Hmin. left. reflexivity.
        -- apply Qle_trans with c; [apply Hmin; left; reflexivity|].
           unfold Qlt_bool in E. apply negb_false_iff, Qle_bool_iff in E.
           exact E.
        -- apply Hmin. right. exact Hq.
Qed.

Lemma first_or_AC_non_AC (sub_results : list SubmissionResult) :
  (Forall (fun r => verdict r = Some AC) sub_results ->
   first_or_AC (non_AC_verdicts sub_results) = Some AC) /\
  (forall pre c post,
     sub_results = pre ++ c :: post ->
     Forall (fun r => verdict r = Some AC) pre ->
     verdict c <> Some AC ->
     first_or_AC (non_AC_verdicts sub_results) = verdict c).
Proof.
  unfold first_or_AC, non_AC_verdicts. split.
  - induction 1 as [|r rs Hr _ IH]; [reflexivity|].
    rewrite filter_cons_False; [exact IH|].
    apply verdict_is_true in Hr. rewrite Hr. simpl. auto.
  - intros pre c post -> Hpre Hc.
    induction Hpre as [|r rs Hr _ IH]; simpl.
    + rewrite filter_cons_True; [reflexivity|].
      destruct (verdict_is AC c) eqn:E;
        [apply verdict_is_true in E; contradiction|exact I].
    + rewrite filter_cons_False; [exact IH|].
      apply verdict_is_true in Hr. rewrite Hr. simpl. auto.
Qed.

(** X3: the min aggregation of a scoring group with at least one child, no JE
    among the children and a score on each: the score of the group is the
    least of the child scores, and its verdict is that of the first child that
    is not AC, or AC when every child is. *)
Lemma aggregate_results_min pb g first rest w :
  let sub_results := first :: rest in
  is_scoring pb = true ->
  aggregation g = "min"%string ->
  Forall (fun r => verdict r <> Some JE) sub_results ->
  Forall (fun r => is_Some (score r)) sub_results ->
  bail_on_error w = false ->
  exists res w' m,
    aggregate_results pb g sub_results w = (Ok res, w') /\
    score res = Some m /\
    In (Some m) (map score sub_results) /\
    (forall q, In (Some q) (map score sub_results) -> (m <= q)%Q) /\
    (Forall (fun r => verdict r = Some AC) sub_results ->
     verdict res = Some AC) /\
    (forall pre c post,
       sub_results = pre ++ c :: post ->
       Forall (fun r => verdict r = Some AC) pre ->
       verdict c <> Some AC ->
       verdict res = verdict c).
Proof.
  intros sub_results Hsc Hagg Hje Hscores Hbail.
  assert (Hmin : exists m,
             py_min (map score sub_results) = Ok (Some m) /\
             In (Some m) (map score sub_results) /\
             forall q, In (Some q) (map score sub_results) -> (m <= q)%Q).
  { unfold sub_results. simpl.
    inversion Hscores as [|? ? [c Hc] Hrest]; subst. rewrite Hc.
    apply py_min_from_spec. apply Forall_map. exact Hrest. }
  destruct Hmin as (m & Hrun & Hin & Hle).
  unfold aggregate_results. fold sub_results.
  rewrite (find_JE_none _ Hje), Hsc, Hagg.
  change (String.eqb "min" "min") with true. cbn [negb].
  set (base := match last sub_results with
               | Some l => _
               | None => _
               end).
  unfold mbind at 1. unfold M_bind at 1. unfold bind at 1.
  unfold mbind at 1. unfold M_bind at 1. unfold bind at 1.
  unfold lift at 1. rewrite Hrun. unfold ret at 1.
  destruct (check_max_score_returns g
              (set_score (Some m)
                 (set_verdict (first_or_AC (non_AC_verdicts sub_results))
                    base)) w) as [w' Hcheck];
    [left; exact Hbail|].
  unfold mbind, M_bind, bind. rewrite Hcheck. unfold ret.
  eexists _, w', m. split; [reflexivity|].
  split; [reflexivity|]. split; [exact Hin|]. split; [exact Hle|].
  simpl. destruct (first_or_AC_non_AC sub_results) as [Hall Hfirst].
  split; [exact Hall|exact Hfirst].
Qed.

(** The first scenario of the specification: three cases worth 5 each in
    a min group of maximum 5, with results AC, AC, WA. *)
Lemma aggregate_results_min_witness :
  let ac := new_SubmissionResult (Some AC) (Some 5%Q) None None in
  let wa := new_SubmissionResult (Some WA) (Some 0%Q) None None in
  exists res w' m,
    aggregate_results (mkProblem false true false)
      (mkGroupConfig 0%nat "min" 5) [ac; ac; wa] initial_world
    = (Ok res, w') /\
    verdict res = Some WA /\ score res = Some m /\ (m == 0)%Q.
Proof.
  cbv zeta.
  destruct (aggregate_results_min (mkProblem false true false)
              (mkGroupConfig 0%nat "min" 5)
              (new_SubmissionResult (Some AC) (Some 5%Q) None None)
              [new_SubmissionResult (Some AC) (Some 5%Q) None None;
               new_SubmissionResult (Some WA) (Some 0%Q) None None]
              initial_world eq_refl eq_refl)
    as (res & w' & m & Hrun & Hs & Hin & Hle & _ & Hfirst).
  - repeat constructor; discriminate.
  - repeat constructor; eexists; reflexivity.
  - reflexivity.
  - exists res, w', m. split; [exact Hrun|]. split; [|split; [exact Hs|]].
    + apply (Hfirst
               [new_SubmissionResult (Some AC) (Some 5%Q) None None;
                new_SubmissionResult (Some AC) (Some 5%Q) None None]
               (new_SubmissionResult (Some WA) (Some 0%Q) None None) []);
        [reflexivity|repeat constructor|discriminate].
    + apply Qle_antisym.
      * apply Hle. simpl. auto.
      * destruct Hin as [[= <-]|[[= <-]|[[= <-]|[]]]]; discriminate.
Defined.


(** ** The natural-sort comparison on numbered names *)

Lemma horner_of_uint_acc (d : Decimal.uint) (acc : positive) :
  Z.pos (Pos.of_uint_acc d acc) = horner d (Z.pos acc).
Proof.
  revert acc. induction d; intros acc; simpl; try reflexivity;
    rewrite IHd; f_equal; lia.
Qed.

Lemma horner_of_uint (d : Decimal.uint) :
  Z.of_N (N.of_uint d) = horner d 0.
Proof.
  unfold N.of_uint.
  induction d; simpl; try reflexivity; try exact IHd;
    apply horner_of_uint_acc.
Qed.

Lemma string_get_append_0 (pre s : string) :
  String.get (String.length pre) (pre ++ s) = String.get 0 s.
Proof.
  symmetry. apply (append_correct2 pre s 0).
Qed.

Lemma string_append_cons (pre : string) c (s : string) :
  (pre ++ String c s)%string = ((pre ++ String c EmptyString) ++ s)%string.
Proof.
  induction pre as [|c' pre IH]; [reflexivity|].
  change (String c' (pre ++ String c s) = String c' ((pre ++ String c EmptyString) ++ s))%string.
  rewrite IH. reflexivity.
Qed.

Lemma string_append_nil_l (s : string) : (EmptyString ++ s)%string = s.
Proof. reflexivity. Qed.

Lemma string_append_cons_l c (s t : string) :
  (String c s ++ t)%string = String c (s ++ t).
Proof. reflexivity. Qed.

(** parse_num on a run of decimal digits that ends on a character that is
    no digit: Horner's rule, and the index after the run. *)
Lemma parse_num_loop_digits (d : Decimal.uint) :
  forall pre stop rest ret fuel,
    is_digit stop = false ->
    (String.length (NilEmpty.string_of_uint d) < fuel)%nat ->
    parse_num_loop fuel
      (pre ++ NilEmpty.string_of_uint d ++ String stop rest) ret
      (String.length pre)
    = Ok (horner d ret,
          (String.length pre
           + String.length (NilEmpty.string_of_uint d))%nat).
Proof.
  induction d; intros pre stop rest ret fuel Hstop Hfuel;
    (destruct fuel as [|fuel]; [simpl in Hfuel; lia|]);
    cbn [parse_num_loop NilEmpty.string_of_uint];
    unfold char_at; rewrite string_get_append_0;
    rewrite ?string_append_nil_l, ?string_append_cons_l;
    cbn [String.get];
    unfold mbind, Outcome_bind; cbv beta iota;
    [ rewrite Hstop; simpl; f_equal; f_equal; lia | .. ];
    match goal with
    | |- context [is_digit ?c] =>
        change (is_digit c) with true; cbv iota;
        rewrite (string_append_cons pre c);
        replace (String.length pre + 1)%nat
          with (String.length (pre ++ String c EmptyString))
          by (rewrite string_length_append; reflexivity)
    end;
    (rewrite IHd by (simpl in Hfuel; auto; lia));
    apply f_equal; apply pair_equal_spec;
    (split;
    [ cbn [horner]; f_equal;
      match goal with
      | |- context [ord ?c] =>
          let v := eval vm_compute in (ord c) in change (ord c) with v
      end;
      change (ord "0") with 48; lia
    | rewrite string_length_append; cbn [String.length]; lia ]).
Qed.

Lemma py_str_digits (n : N) :
  py_str n = NilEmpty.string_of_uint (N.to_uint n) /\
  exists c s, py_str n = String c s /\ is_digit c = true.
Proof.
  unfold py_str.
  assert (Hnn : N.to_uint n <> Decimal.Nil).
  { destruct n as [|p]; simpl; [discriminate|].
    apply DecimalPos.Unsigned.to_uint_nonnil. }
  destruct (N.to_uint n); try contradiction;
    (split; [reflexivity|]); simpl; eexists _, _; split; reflexivity.
Qed.

Lemma string_append_assoc (s1 s2 s3 : string) :
  ((s1 ++ s2) ++ s3)%string = (s1 ++ (s2 ++ s3))%string.
Proof.
  induction s1 as [|c s1 IH]; [reflexivity|].
  rewrite !string_append_cons_l, IH. reflexivity.
Qed.

Lemma parse_num_py_str (p : string) (n : N) :
  let a := ((p ++ py_str n) ++ String Ascii.zero EmptyString)%string in
  parse_num a (String.length p)
  = Ok (Z.of_N n, (String.length p + String.length (py_str n))%nat).
Proof.
  destruct (py_str_digits n) as [Hs _]. cbv zeta. rewrite Hs.
  unfold parse_num. rewrite string_append_assoc.
  pose proof (parse_num_loop_digits (N.to_uint n) p
                Ascii.zero EmptyString 0
                (S (String.length
                      (p ++ NilEmpty.string_of_uint (N.to_uint n)
                       ++ String Ascii.zero EmptyString)))
                eq_refl) as Hdigits.
  etransitivity; [apply Hdigits|].
  - rewrite !string_length_append. lia.
  - rewrite <- horner_of_uint, DecimalN.Unsigned.of_to. reflexivity.
Qed.

Lemma natural_sort_le_loop_step fuel a b i j :
  natural_sort_le_loop (S fuel) a b i j
  = if (i <? String.length a)%nat && (j <? String.length b)%nat then
      ai ← char_at a i;
      both_digits ← (if is_digit ai
                     then bi ← char_at b i; Ok (is_digit bi)
                     else Ok false);
      if both_digits : bool then
        '(anum, i) ← parse_num a i;
        '(bnum, j) ← parse_num b j;
        if anum =? bnum then natural_sort_le_loop fuel a b i j
        else Ok (anum <? bnum)
      else
        ai ← char_at a i;
        bj ← char_at b j;
        if Ascii.eqb ai bj then natural_sort_le_loop fuel a b (i + 1) (j + 1)
        else Ok (ord ai <? ord bj)
    else Ok true.
Proof. reflexivity. Qed.

(** The loop runs through a common prefix without digits, one character a
    turn. *)
Lemma natural_sort_le_loop_prefix (p : string) :
  Forall (fun c => is_digit c = false) (list_ascii_of_string p) ->
  forall pre ca ra cb rb fuel,
    natural_sort_le_loop (String.length p + fuel)
      (pre ++ p ++ String ca ra) (pre ++ p ++ String cb rb)
      (String.length pre) (String.length pre)
    = natural_sort_le_loop fuel
        ((pre ++ p) ++ String ca ra) ((pre ++ p) ++ String cb rb)
        (String.length (pre ++ p)) (String.length (pre ++ p)).
Proof.
  induction p as [|c p IH]; intros Hp pre ca ra cb rb fuel.
  - rewrite !string_append_assoc, string_length_append.
    cbn [String.length]. rewrite Nat.add_0_r. reflexivity.
  - simpl in Hp. inversion Hp as [|? ? Hc Hp']; subst.
    cbn [String.length Nat.add].
    rewrite natural_sort_le_loop_step.
    rewrite !string_length_append, !string_append_cons_l.
    cbn [String.length].
    assert (Hltb : forall x y z, (x <? x + (S y + z))%nat = true)
      by (intros; apply Nat.ltb_lt; lia).
    rewrite !Hltb. cbn [andb].
    unfold char_at. rewrite !string_get_append_0. cbn [String.get].
    unfold mbind, Outcome_bind. cbv beta iota.
    rewrite Hc. cbv beta iota. rewrite Ascii.eqb_refl.
    rewrite (string_append_cons pre c (p ++ String ca ra)).
    rewrite (string_append_cons pre c (p ++ String cb rb)).
    replace (String.length pre + 1)%nat
      with (String.length (pre ++ String c EmptyString))
      by (rewrite string_length_append; reflexivity).
    rewrite (IH Hp' (pre ++ String c EmptyString)%string).
    rewrite <- (string_append_cons pre c p).
    rewrite !string_length_append. reflexivity.
Qed.

Lemma natural_sort_le_numbered (p : string) (n m : N) :
  Forall (fun c => is_digit c = false) (list_ascii_of_string p) ->
  natural_sort_le (p ++ py_str n) (p ++ py_str m) = Ok (n <=? m)%N.
Proof.
  intros Hp. unfold natural_sort_le.
  set (a := ((p ++ py_str n) ++ String Ascii.zero EmptyString)%string).
  set (b := ((p ++ py_str m) ++ String Ascii.zero EmptyString)%string).
  destruct (py_str_digits n) as [_ (cn & sn & Hn & Hdn)].
  destruct (py_str_digits m) as [_ (cm & sm & Hm & Hdm)].
  pose proof (parse_num_py_str p n) as Hpa. fold a in Hpa.
  pose proof (parse_num_py_str p m) as Hpb. fold b in Hpb.
  cbv zeta in Hpa, Hpb.
  assert (Ha : a = (EmptyString ++ p
                    ++ String cn (sn ++ String Ascii.zero EmptyString))%string).
  { unfold a. rewrite Hn, string_append_assoc. reflexivity. }
  assert (Hb : b = (EmptyString ++ p
                    ++ String cm (sm ++ String Ascii.zero EmptyString))%string).
  { unfold b. rewrite Hm, string_append_assoc. reflexivity. }
  assert (Hla : String.length a
                = (String.length p + S (S (String.length sn)))%nat).
  { rewrite Ha, string_append_nil_l, string_length_append.
    cbn [String.length]. rewrite string_length_append. simpl. lia. }
  assert (Hlb : String.length b
                = (String.length p + S (S (String.length sm)))%nat).
  { rewrite Hb, string_append_nil_l, string_length_append.
    cbn [String.length]. rewrite string_length_append. simpl. lia. }
  assert (Ha' : ((EmptyString ++ p)
                 ++ String cn (sn ++ String Ascii.zero EmptyString))%string
                = a)
    by (rewrite Ha; reflexivity).
  assert (Hb' : ((EmptyString ++ p)
                 ++ String cm (sm ++ String Ascii.zero EmptyString))%string
                = b)
    by (rewrite Hb; reflexivity).
  replace (S (String.length a))
    with (String.length p + S (S (S (String.length sn))))%nat by lia.
  rewrite Ha at 1. rewrite Hb at 1.
  change 0%nat with (String.length EmptyString).
  rewrite (natural_sort_le_loop_prefix p Hp).
  rewrite Ha', Hb', string_append_nil_l.
  rewrite natural_sort_le_loop_step.
  replace ((String.length p <? String.length a)%nat
           && (String.length p <? String.length b)%nat)
    with true
    by (symmetry; apply andb_true_intro; split; apply Nat.ltb_lt; lia).
  assert (Hca : char_at a (String.length p) = Ok cn).
  { rewrite Ha, string_append_nil_l. unfold char_at.
    rewrite string_get_append_0. reflexivity. }
  assert (Hcb : char_at b (String.length p) = Ok cm).
  { rewrite Hb, string_append_nil_l. unfold char_at.
    rewrite string_get_append_0. reflexivity. }
  rewrite Hca, Hcb.
  unfold mbind, Outcome_bind. cbv beta iota.
  rewrite Hdn. cbv beta iota. rewrite Hdm. cbv beta iota.
  rewrite Hpa, Hpb.
  unfold mbind, Outcome_bind. cbv beta iota.
  destruct (Z.eqb_spec (Z.of_N n) (Z.of_N m)) as [Heq|Hne].
  - apply N2Z.inj in Heq. subst m. rewrite N.leb_refl.
    apply (natural_sort_le_loop_refl (p ++ py_str n)).
    fold a. rewrite Hla, Hn. cbn [String.length]. lia.
  - f_equal.
    destruct (N.leb_spec n m) as [Hle|Hgt].
    + apply Z.ltb_lt. lia.
    + apply Z.ltb_ge. lia.
Qed.

(** X4: natural_sort_le on two names made of a common prefix without digits
    and a number each, the numbers written as [str] writes them: the result is
    the comparison of the numbers, whatever their lengths. *)
Theorem natural_sort_le_numbered_names (p : string) (n m : N) :
  Forall (fun c => is_digit c = false) (list_ascii_of_string p) ->
  natural_sort_le (p ++ py_str n) (p ++ py_str m) = Ok (n <=? m)%N.
Proof. apply natural_sort_le_numbered. Qed.

Lemma natural_sort_le_numbered_names_witness :
  natural_sort_le "data/secret/group2" "data/secret/group10" = Ok true /\
  natural_sort_le "data/secret/group10" "data/secret/group2" = Ok false.
Proof.
  split.
  - apply (natural_sort_le_numbered_names "data/secret/group" 2 10).
    repeat constructor.
  - apply (natural_sort_le_numbered_names "data/secret/group" 10 2).
    repeat constructor.
Defined.

(** ** Further properties of the three-limit classification *)

Lemma set_ac_runtime_fields_of r :
  verdict (set_ac_runtime r) = verdict r /\
  runtime (set_ac_runtime r) = runtime r /\
  (verdict r = Some AC -> ac_runtime (set_ac_runtime r) = runtime r) /\
  (verdict r <> Some AC -> ac_runtime (set_ac_runtime r) = ac_runtime r).
Proof.
  unfold set_ac_runtime. destruct (verdict_is AC r) eqn:E.
  - apply verdict_is_true in E. repeat split; auto. intros H. contradiction.
  - repeat split; auto. intros H. apply verdict_is_true in H. congruence.
Qed.

Lemma verdict_set_ac_runtime r : verdict (set_ac_runtime r) = verdict r.
Proof. apply set_ac_runtime_fields_of. Qed.

Lemma runtime_set_ac_runtime r : runtime (set_ac_runtime r) = runtime r.
Proof. apply set_ac_runtime_fields_of. Qed.

Lemma ac_runtime_set_ac_runtime r :
  verdict r = Some AC -> ac_runtime (set_ac_runtime r) = runtime r.
Proof. apply set_ac_runtime_fields_of. Qed.

Lemma run_uncached_values pb self cache_key timelim timelim_low
    timelim_high ex w res_high w1 rh :
  compute_res_high pb timelim_high ex w = (Ok res_high, w1) ->
  objs w1 !! res_high = Some rh ->
  exists res res_low w2 v v_low v_high,
    run_uncached pb self cache_key timelim timelim_low timelim_high ex w
    = (Ok (res, res_low, res_high, false), w2) /\
    objs w2 !! res = Some v /\ objs w2 !! res_low = Some v_low /\
    objs w2 !! res_high = Some v_high /\
    runtime v = runtime v_high /\ runtime v_low = runtime v_high /\
    (verdict v = Some AC ->
     verdict rh = Some AC /\ runtime v = runtime rh /\
     ((runtime rh <= inject_Z timelim_low)%Q \/
      (runtime rh <= inject_Z timelim)%Q)) /\
    (verdict v_low = Some AC ->
     verdict rh = Some AC /\ runtime v_low = runtime rh /\
     (runtime rh <= inject_Z timelim_low)%Q) /\
    (verdict v_high = verdict rh) /\
    (verdict v_high = Some AC -> runtime v_high = runtime rh) /\
    (verdict v = Some AC -> ac_runtime v = runtime v) /\
    (verdict v_low = Some AC -> ac_runtime v_low = runtime v_low) /\
    (verdict v_high = Some AC -> ac_runtime v_high = runtime v_high).
Proof.
  intros Hc Hrh. set (r := runtime rh).
  destruct (compute_res_high_fresh _ _ _ _ _ _ Hc) as (Hl & Hn & _ & _ & _).
  unfold run_uncached. unfold mbind at 1. unfold M_bind at 1. unfold bind at 1.
  rewrite Hc.
  unfold classify.
  unfold_monad. unfold load, update, alloc, store_cache.
  rewrite Hrh. fold r.
  destruct (Qle_bool r (inject_Z timelim_low)) eqn:Hlo;
    [|destruct (Qle_bool r (inject_Z timelim)) eqn:Htl;
      [|destruct (validator_first rh && verdict_is WA rh) eqn:Hwa]];
    rewrite ?Hn;
    repeat (simpl; first [ rewrite Hrh | progress heap_lookup ]);
    simpl; eexists _, _, _, _, _, _; (split; [reflexivity|]);
    cbn [objs]; heap_lookup;
    (split; [reflexivity|]); (split; [reflexivity|]);
    (split; [reflexivity|]).
  all: rewrite ?verdict_set_ac_runtime, ?runtime_set_ac_runtime;
    cbn [verdict runtime set_runtime set_validator_first
           new_SubmissionResult].
  all: repeat match goal with |- _ /\ _ => split end;
    try reflexivity; try discriminate;
    try (intros Hv; rewrite ac_runtime_set_ac_runtime;
         rewrite ?verdict_set_ac_runtime, ?runtime_set_ac_runtime;
         cbn [verdict runtime set_runtime set_validator_first
                new_SubmissionResult];
         [reflexivity|exact Hv]).
  all: intros Hv;
    try (exfalso; apply andb_true_iff in Hwa; destruct Hwa as [_ Hwa];
         apply verdict_is_true in Hwa; congruence);
    (split; [exact Hv|]); (split; [reflexivity|]);
    first [ left; apply Qle_bool_iff; exact Hlo
          | right; apply Qle_bool_iff; exact Htl
          | apply Qle_bool_iff; exact Hlo ].
Qed.

(** What the run leaves in [res_high] when the problem is not interactive:
    an AC only for a status that is neither TLE nor RTE and a runtime within
    [timelim_high], and never the mark [validator_first]. *)
Lemma compute_res_high_batch pb timelim_high ex w l w1 rh :
  is_interactive pb = false ->
  compute_res_high pb timelim_high ex w = (Ok l, w1) ->
  objs w1 !! l = Some rh ->
  runtime rh = run_runtime ex /\
  (verdict rh = Some AC ->
   is_TLE (run_status ex) false = false /\
   is_RTE (run_status ex) = false /\
   (run_runtime ex <= inject_Z timelim_high)%Q /\
   verdict (validate (custom_scoring pb) (validator_runs ex)) = Some AC).
Proof.
  intros Hpb. unfold compute_res_high. rewrite Hpb. unfold alloc.
  intros [= <- <-]. cbn [objs]. rewrite lookup_insert_eq. intros [= <-].
  split; [reflexivity|].
  destruct (is_TLE (run_status ex) false) eqn:Htle; [discriminate|].
  cbn [orb].
  destruct (Qgt_bool (run_runtime ex) (inject_Z timelim_high)) eqn:Hgt;
    [discriminate|].
  destruct (is_RTE (run_status ex)) eqn:Hrte; [discriminate|].
  intros Hv. repeat split; [|exact Hv].
  unfold Qgt_bool, Qlt_bool in Hgt. apply negb_false_iff in Hgt.
  apply Qle_bool_iff. exact Hgt.
Qed.

(** X6: an uncached run never accepts beyond a limit. When
    _run_submission_real has run the submission (the triple is not flagged as
    reused), with [timelim_low <= timelim]: [res] is AC only if it ran within
    [timelim], [res_low] is AC only if it ran within [timelim_low], and, for a
    problem that is not interactive, [res_high] is AC only if the run ended
    within [timelim_high] on a status that is neither TLE nor RTE. This holds
    through reuse aliases as well. *)
Theorem run_submission_real_accepts_within_limit pb tc sub args timelim
    timelim_low timelim_high ex w res res_low res_high w' :
  timelim_low <= timelim ->
  _run_submission_real pb tc sub args timelim timelim_low timelim_high ex w
  = (Ok (res, res_low, res_high, false), w') ->
  exists v v_low v_high,
    objs w' !! res = Some v /\ objs w' !! res_low = Some v_low /\
    objs w' !! res_high = Some v_high /\
    (verdict v = Some AC -> (runtime v <= inject_Z timelim)%Q) /\
    (verdict v_low = Some AC -> (runtime v_low <= inject_Z timelim_low)%Q) /\
    (is_interactive pb = false -> verdict v_high = Some AC ->
     (runtime v_high <= inject_Z timelim_high)%Q /\
     is_TLE (run_status ex) false = false /\
     is_RTE (run_status ex) = false).
Proof.
  intros Hlim.
  rewrite (run_submission_real_target pb tc sub args timelim timelim_low
             timelim_high ex).
  pose proof (reuse_target_root tc) as Hroot.
  destruct (reuse_target tc) as [self sc smp flt reuse].
  simpl in Hroot. subst reuse.
  rewrite (run_submission_real_root pb self sc smp flt sub args timelim
             timelim_low timelim_high ex w).
  set (key := (sub, args, timelim, timelim_low, timelim_high)).
  destruct (cache_hit (result_cache w !! self) key)
    as [[[r1 r2] r3]|]; [discriminate|].
  intros Hrun.
  destruct (compute_res_high pb timelim_high ex w) as [[l|e] w1] eqn:Hc.
  - destruct (compute_res_high_fresh _ _ _ _ _ _ Hc)
      as (_ & _ & [rh Hrh] & _ & _).
    destruct (run_uncached_values pb self key timelim timelim_low
                timelim_high ex w l w1 rh Hc Hrh)
      as (r1 & r2 & w2 & v & v_low & v_high & Hrun' & Hv & Hvl & Hvh
          & _ & _ & Hac & Hacl & Hvd & Hrt & _).
    rewrite Hrun in Hrun'. injection Hrun' as E1 E2 E3 E4. subst.
    exists v, v_low, v_high.
    split; [exact Hv|]. split; [exact Hvl|]. split; [exact Hvh|].
    assert (Hq : (inject_Z timelim_low <= inject_Z timelim)%Q)
      by (rewrite <- Zle_Qle; exact Hlim).
    split; [|split].
    + intros H. destruct (Hac H) as (_ & -> & [Hle|Hle]); [|exact Hle].
      eapply Qle_trans; eauto.
    + intros H. destruct (Hacl H) as (_ & -> & Hle). exact Hle.
    + intros Hpb H. rewrite (Hrt H).
      destruct (compute_res_high_batch pb timelim_high ex w l w1 rh Hpb Hc
                  Hrh) as [-> Hb].
      rewrite Hvd in H. destruct (Hb H) as (? & ? & ? & _). auto.
  - rewrite (run_uncached_raises _ _ _ _ _ _ _ _ _ _ Hc) in Hrun.
    discriminate.
Qed.

Lemma run_submission_real_accepts_within_limit_witness :
  exists res res_low res_high w' v v_low v_high,
    _run_submission_real (mkProblem false true false)
      (mkTestCase 0%nat 1 false true None) 0%nat 0%nat 5 3 10
      (mkExecution 0 4 [ValRan (42 * 256) (mkFeedback None None)] false [])
      initial_world
    = (Ok (res, res_low, res_high, false), w') /\
    objs w' !! res = Some v /\ objs w' !! res_low = Some v_low /\
    objs w' !! res_high = Some v_high /\
    (verdict v = Some AC -> (runtime v <= inject_Z 5)%Q) /\
    (verdict v_low = Some AC -> (runtime v_low <= inject_Z 3)%Q) /\
    (verdict v_high = Some AC -> (runtime v_high <= inject_Z 10)%Q).
Proof.
  assert (Hrun : exists res res_low res_high w',
             _run_submission_real (mkProblem false true false)
               (mkTestCase 0%nat 1 false true None) 0%nat 0%nat 5 3 10
               (mkExecution 0 4 [ValRan (42 * 256) (mkFeedback None None)]
                  false [])
               initial_world
             = (Ok (res, res_low, res_high, false), w'))
    by (eexists _, _, _, _; vm_compute; reflexivity).
  destruct Hrun as (res & res_low & res_high & w' & Hrun).
  destruct (run_submission_real_accepts_within_limit _ _ _ _ 5 3 _ _ _ _ _
              _ _ ltac:(lia) Hrun)
    as (v & v_low & v_high & Hv & Hvl & Hvh & H1 & H2 & H3).
  exists res, res_low, res_high, w', v, v_low, v_high.
  split; [exact Hrun|].
  split; [exact Hv|]. split; [exact Hvl|]. split; [exact Hvh|].
  split; [exact H1|]. split; [exact H2|].
  intros H. apply (H3 eq_refl H).
Defined.

(** X7: after an uncached run the three results carry one runtime, and each of
    them that is AC has its [ac_runtime] equal to that runtime. *)
Theorem run_submission_real_runtimes pb tc sub args timelim timelim_low
    timelim_high ex w res res_low res_high w' :
  _run_submission_real pb tc sub args timelim timelim_low timelim_high ex w
  = (Ok (res, res_low, res_high, false), w') ->
  exists v v_low v_high,
    objs w' !! res = Some v /\ objs w' !! res_low = Some v_low /\
    objs w' !! res_high = Some v_high /\
    runtime v = runtime v_high /\ runtime v_low = runtime v_high /\
    (verdict v = Some AC -> ac_runtime v = runtime v) /\
    (verdict v_low = Some AC -> ac_runtime v_low = runtime v_low) /\
    (verdict v_high = Some AC -> ac_runtime v_high = runtime v_high).
Proof.
  rewrite (run_submission_real_target pb tc sub args timelim timelim_low
             timelim_high ex).
  pose proof (reuse_target_root tc) as Hroot.
  destruct (reuse_target tc) as [self sc smp flt reuse].
  simpl in Hroot. subst reuse.
  rewrite (run_submission_real_root pb self sc smp flt sub args timelim
             timelim_low timelim_high ex w).
  set (key := (sub, args, timelim, timelim_low, timelim_high)).
  destruct (cache_hit (result_cache w !! self) key)
    as [[[r1 r2] r3]|]; [discriminate|].
  intros Hrun.
  destruct (compute_res_high pb timelim_high ex w) as [[l|e] w1] eqn:Hc.
  - destruct (compute_res_high_fresh _ _ _ _ _ _ Hc)
      as (_ & _ & [rh Hrh] & _ & _).
    destruct (run_uncached_values pb self key timelim timelim_low
                timelim_high ex w l w1 rh Hc Hrh)
      as (r1 & r2 & w2 & v & v_low & v_high & Hrun' & Hv & Hvl & Hvh
          & Hr & Hrl & _ & _ & _ & _ & Ha & Hal & Hah).
    rewrite Hrun in Hrun'. injection Hrun' as E1 E2 E3 E4. subst.
    exists v, v_low, v_high. auto 10.
  - rewrite (run_uncached_raises _ _ _ _ _ _ _ _ _ _ Hc) in Hrun.
    discriminate.
Qed.

Lemma run_submission_real_runtimes_witness :
  exists res res_low res_high w' v v_low v_high,
    _run_submission_real (mkProblem false true false)
      (mkTestCase 0%nat 1 false true None) 0%nat 0%nat 5 3 10
      (mkExecution 0 4 [ValRan (42 * 256) (mkFeedback None None)] false [])
      initial_world
    = (Ok (res, res_low, res_high, false), w') /\
    objs w' !! res = Some v /\ objs w' !! res_low = Some v_low /\
    objs w' !! res_high = Some v_high /\
    runtime v = runtime v_high /\ runtime v_low = runtime v_high.
Proof.
  assert (Hrun : exists res res_low res_high w',
             _run_submission_real (mkProblem false true false)
               (mkTestCase 0%nat 1 false true None) 0%nat 0%nat 5 3 10
               (mkExecution 0 4 [ValRan (42 * 256) (mkFeedback None None)]
                  false [])
               initial_world
             = (Ok (res, res_low, res_high, false), w'))
    by (eexists _, _, _, _; vm_compute; reflexivity).
  destruct Hrun as (res & res_low & res_high & w' & Hrun).
  destruct (run_submission_real_runtimes _ _ _ _ _ _ _ _ _ _ _ _ _ Hrun)
    as (v & v_low & v_high & Hv & Hvl & Hvh & H1 & H2 & _).
  exists res, res_low, res_high, w', v, v_low, v_high.
  split; [exact Hrun|]. auto 10.
Defined.

(** ** Further properties of the statuses and of the output validators *)

(** X8: A status that is a TLE is an RTE as well: a process killed by a signal
    did not exit. Both [_run_submission_real] and [validate_interactive] test
    for TLE first. *)
Lemma is_TLE_is_RTE status may_signal_with_usr1 :
  is_TLE status may_signal_with_usr1 = true -> is_RTE status = true.
Proof.
  unfold is_TLE, is_RTE, WIFSIGNALED, WIFEXITED.
  intros H. apply andb_true_iff in H. destruct H as [H _].
  apply andb_true_iff in H. destruct H as [H _].
  apply Z.ltb_lt in H.
  destruct (Z.eqb_spec (WTERMSIG status) 0) as [E|E]; [lia|reflexivity].
Qed.

Lemma is_TLE_is_RTE_witness :
  is_TLE 24 false = true /\ is_RTE 24 = true.
Proof.
  split; [reflexivity|]. apply (is_TLE_is_RTE 24 false). reflexivity.
Defined.

(** X9: the results of _parse_validator_results: the verdict is AC, WA or JE;
    a reason is given exactly with JE; a score is given only with AC under
    custom scoring, and then always; the result is fresh, with no runtime and
    no test case yet. *)
Lemma parse_validator_results_range custom_score status fb :
  let r := _parse_validator_results custom_score status fb in
  (verdict r = Some AC \/ verdict r = Some WA \/ verdict r = Some JE) /\
  (is_Some (reason r) <-> verdict r = Some JE) /\
  (is_Some (score r) <-> verdict r = Some AC /\ custom_score = true) /\
  (is_Some (additional_info r) -> verdict r = Some WA \/ verdict r = Some JE) /\
  runtime r = (-1)%Q /\ ac_runtime r = (-1)%Q /\ testcase r = None /\
  validator_first r = false /\ sample_failures r = [].
Proof.
  cbv zeta. unfold _parse_validator_results.
  destruct (stray_score_txt custom_score fb) eqn:Hstray;
    [|destruct (WIFEXITED status);
      [destruct ((WEXITSTATUS status =? 42) || (WEXITSTATUS status =? 43));
       [destruct (WEXITSTATUS status =? 43);
        [|destruct custom_score;
          [destruct (score_txt fb) as [[q|]|]|]]|]|]];
    cbn [negb verdict score reason additional_info runtime ac_runtime
           testcase validator_first sample_failures new_SubmissionResult];
    repeat split; auto;
    try (intros [x Hx]; discriminate);
    try (intros [H1 H2]; discriminate);
    try discriminate; eauto.
  all: try (apply andb_true_iff in Hstray; destruct Hstray as [Hs _];
            apply negb_true_iff in Hs; exact Hs).
  all: match goal with
       | H : is_Some None |- _ => destruct H as [? H]; discriminate H
       end.
Qed.

Lemma validate_loop_accepts custom_score vals :
  forall res,
    verdict (validate_loop custom_score vals res) = Some AC <->
    (forall status fb, In (ValRan status fb) vals ->
       verdict (_parse_validator_results custom_score status fb) = Some AC) /\
    ((exists status fb, In (ValRan status fb) vals) \/ verdict res = Some AC).
Proof.
  induction vals as [|v vals IH]; intros res; simpl.
  - split.
    + intros H. split; [intros ? ? []|right; exact H].
    + intros [_ [(? & ? & [])|H]]. exact H.
  - destruct v as [|status fb].
    + rewrite IH. split.
      * intros [Hall Hsome]. split.
        -- intros s f [Hin|Hin]; [discriminate|eauto].
        -- destruct Hsome as [(s & f & Hin)|Hres]; eauto 6.
      * intros [Hall Hsome]. split; [eauto|].
        destruct Hsome as [(s & f & [Hin|Hin])|Hres];
          [discriminate|eauto|eauto].
    + destruct (verdict_is AC (_parse_validator_results custom_score status
                                 fb)) eqn:E; cbn [negb].
      * apply verdict_is_true in E. rewrite IH. split.
        -- intros [Hall _]. split; [|eauto 6].
           intros s f [[= <- <-]|Hin]; eauto.
        -- intros [Hall _]. split; [eauto|]. right. exact E.
      * split.
        -- intros H. apply verdict_is_true in H. congruence.
        -- intros [Hall _].
           specialize (Hall status fb (or_introl eq_refl)).
           apply verdict_is_true in Hall. congruence.
Qed.

(** X10: OutputValidators.validate accepts exactly when at least one validator
    ran and every validator that ran accepted; with no usable validator the
    result is the initial JE. *)
Lemma validate_accepts custom_score vals :
  (verdict (validate custom_score vals) = Some AC <->
   (exists status fb, In (ValRan status fb) vals) /\
   (forall status fb, In (ValRan status fb) vals ->
      verdict (_parse_validator_results custom_score status fb) = Some AC)) /\
  ((forall status fb, ~ In (ValRan status fb) vals) ->
   validate custom_score vals = new_SubmissionResult (Some JE) None None None).
Proof.
  split.
  - unfold validate. rewrite validate_loop_accepts. split.
    + intros [Hall [Hsome|Hje]]; [auto|discriminate].
    + intros [Hsome Hall]. auto.
  - unfold validate.
    generalize (new_SubmissionResult (Some JE) None None None).
    induction vals as [|v vals IH]; intros res Hnone; [reflexivity|].
    destruct v as [|status fb]; simpl.
    + apply IH. intros s f Hin. apply (Hnone s f). right. exact Hin.
    + exfalso. apply (Hnone status fb). left. reflexivity.
Qed.

(** X11: OutputValidators.validate stops at the first validator that does not
    accept: its result is returned as it is, and the validators after it are
    not consulted. *)
Lemma validate_first_failure custom_score pre status fb post :
  (forall s f, In (ValRan s f) pre ->
     verdict (_parse_validator_results custom_score s f) = Some AC) ->
  verdict (_parse_validator_results custom_score status fb) <> Some AC ->
  validate custom_score (pre ++ ValRan status fb :: post)
  = _parse_validator_results custom_score status fb.
Proof.
  intros Hpre Hfail. unfold validate.
  generalize (new_SubmissionResult (Some JE) None None None).
  induction pre as [|v pre IH]; intros res; simpl.
  - destruct (verdict_is AC _) eqn:E; [|reflexivity].
    apply verdict_is_true in E. contradiction.
  - destruct v as [|s f].
    + apply IH. intros s f Hin. apply Hpre. right. exact Hin.
    + rewrite (proj2 (verdict_is_true AC _) (Hpre s f (or_introl eq_refl))).
      cbn [negb]. apply IH. intros s' f' Hin. apply Hpre. right. exact Hin.
Qed.

Lemma validate_first_failure_witness :
  validate false
    [ValRan (42 * 256) (mkFeedback None None); ValSkipped;
     ValRan (43 * 256) (mkFeedback None (Some "wrong"%string));
     ValRan (42 * 256) (mkFeedback None None)]
  = new_SubmissionResult (Some WA) None None (Some "wrong"%string).
Proof.
  apply (validate_first_failure false
           [ValRan (42 * 256) (mkFeedback None None); ValSkipped]
           (43 * 256) (mkFeedback None (Some "wrong"%string))
           [ValRan (42 * 256) (mkFeedback None None)]).
  - intros s f [[= <- <-]|[Hin|[]]]; [reflexivity|discriminate].
  - discriminate.
Defined.

(** ** Further properties of the interactive path *)

(** X12: validate_interactive when the coordinator fails: the tool is missing,
    or the run for the first usable validator crashed or printed a line that
    does not follow the format. One error is recorded for the submissions
    object; the result is the initial JE, no later validator runs; and under
    bail_on_error the call raises VerifyError. *)
Lemma validate_interactive_coordinator_failure custom_score timelim tool n
    i_status out fb rest w :
  tool = false \/ is_RTE i_status = true \/ out = Malformed ->
  validate_interactive custom_score timelim tool
    (repeat IValSkipped n ++ IRan i_status out fb :: rest) w
  = (if bail_on_error w then Raise VerifyError
     else Ok (new_SubmissionResult (Some JE) None None None),
     mkWorld (S (errors w)) (bail_on_error w) (Some false)
       (group_check_res w) (seen_oob_scores w) (result_cache w) (objs w)
       (next_ref w)).
Proof.
  intros H. unfold validate_interactive.
  destruct tool; cbn [negb].
  - rewrite validate_interactive_loop_skipped.
    cbn [validate_interactive_loop].
    assert (Hstep :
      (if is_RTE i_status
       then error SubmissionsAspect;;
            mret (new_SubmissionResult (Some JE) None None None)
       else match out with
            | Malformed =>
                error SubmissionsAspect;;
                mret (new_SubmissionResult (Some JE) None None None)
            | StatusLine val_status sub_status sub_runtime first =>
                mret (interactive_result custom_score timelim val_status
                        sub_status sub_runtime first fb)
            end)
      = (error SubmissionsAspect;;
         mret (new_SubmissionResult (Some JE) None None None) : M _)).
    { destruct H as [H|[H|H]]; [discriminate|rewrite H; reflexivity|].
      subst out. destruct (is_RTE i_status); reflexivity. }
    unfold_monad. unfold_monad.
    unfold mbind, M_bind, bind, mret, M_ret, ret in Hstep.
    rewrite Hstep. unfold error.
    destruct (bail_on_error w); reflexivity.
  - unfold_monad. unfold error. destruct (bail_on_error w); reflexivity.
Qed.

Lemma validate_interactive_coordinator_failure_witness :
  validate_interactive false 5 true
    [IValSkipped; IRan 0 Malformed (mkFeedback None None);
     IRan 0 (StatusLine (42 * 256) 0 1 "submission") (mkFeedback None None)]
    initial_world
  = (Ok (new_SubmissionResult (Some JE) None None None),
     mkWorld 1%nat false (Some false) ∅ ∅ ∅ ∅ 0%nat).
Proof.
  apply (validate_interactive_coordinator_failure false 5 true 1%nat 0
           Malformed (mkFeedback None None)
           [IRan 0 (StatusLine (42 * 256) 0 1 "submission")
              (mkFeedback None None)] initial_world).
  right. right. reflexivity.
Defined.

(** ** Further properties of the aggregation: the bookkeeping *)

(** The fields that only the first loop of aggregate_results writes. *)
Lemma aggregate_results_first_loop pb g sub_results w res w' :
  aggregate_results pb g sub_results w = (Ok res, w') ->
  let base := fold_left aggregate_step sub_results
                (new_SubmissionResult None None None None) in
  runtime res = runtime base /\
  runtime_testcase res = runtime_testcase base /\
  ac_runtime res = ac_runtime base /\
  ac_runtime_testcase res = ac_runtime_testcase base /\
  sample_failures res = sample_failures base.
Proof.
  cbv zeta. unfold aggregate_results.
  set (base := fold_left aggregate_step sub_results _).
  destruct (List.find (verdict_is JE) sub_results) as [je|].
  - intros [= <- <-]. repeat split.
  - set (base' := match last sub_results with
                  | Some l => _
                  | None => _
                  end).
    assert (Hb : runtime base' = runtime base /\
                 runtime_testcase base' = runtime_testcase base /\
                 ac_runtime base' = ac_runtime base /\
                 ac_runtime_testcase base' = ac_runtime_testcase base /\
                 sample_failures base' = sample_failures base)
      by (unfold base'; destruct (last sub_results); repeat split).
    clearbody base'. unfold_monad.
    destruct (is_scoring pb); cbn [negb].
    + destruct (String.eqb (aggregation g) "min").
      * destruct (py_min (map score sub_results)) as [s|e]; [|discriminate].
        destruct (check_max_score g _ w) as [[[]|e] w1]; [|discriminate].
        intros [= <- <-]. exact Hb.
      * destruct (String.eqb (aggregation g) "sum").
        -- destruct (py_sum (map score sub_results)) as [s|e];
             [|discriminate].
           destruct (check_max_score g _ w) as [[[]|e] w1]; [|discriminate].
           intros [= <- <-].
           destruct (forallb (verdict_is AC) sub_results);
             [exact Hb|].
           destruct (forallb _ sub_results); exact Hb.
        -- destruct (check_max_score g _ w) as [[[]|e] w1]; [|discriminate].
           intros [= <- <-]. exact Hb.
    + destruct (non_AC_verdicts_pass_fail sub_results) as [vs|e];
        [|discriminate].
      intros [= <- <-]. exact Hb.
Qed.

Lemma fold_aggregate_step_sample_failures sub_results :
  forall res,
    sample_failures (fold_left aggregate_step sub_results res)
    = sample_failures res ++ concat (map sample_failures sub_results).
Proof.
  induction sub_results as [|r rs IH]; intros res; simpl.
  - rewrite app_nil_r. reflexivity.
  - rewrite IH. unfold aggregate_step. cbn [sample_failures set_sample_failures].
    rewrite <- app_assoc. f_equal.
    destruct (Qgt_bool (runtime r) (runtime res)); simpl;
      match goal with |- context [if ?b then _ else _] => destruct b end;
      reflexivity.
Qed.

Lemma aggregate_step_runtime res r :
  runtime (aggregate_step res r)
  = (if Qgt_bool (runtime r) (runtime res) then runtime r else runtime res) /\
  runtime_testcase (aggregate_step res r)
  = (if Qgt_bool (runtime r) (runtime res) then runtime_testcase r
     else runtime_testcase res).
Proof.
  unfold aggregate_step.
  destruct (Qgt_bool (runtime r) (runtime res)); simpl;
    match goal with |- context [if ?b then _ else _] => destruct b end;
    split; reflexivity.
Qed.

Lemma Qgt_bool_true a b : Qgt_bool a b = true <-> (b < a)%Q.
Proof.
  unfold Qgt_bool, Qlt_bool. rewrite negb_true_iff. split.
  - apply Qle_bool_false.
  - intros H. destruct (Qle_bool a b) eqn:E; [|reflexivity].
    apply Qle_bool_iff in E. exfalso. apply (Qlt_not_le _ _ H E).
Qed.

Lemma Qgt_bool_false a b : Qgt_bool a b = false <-> (a <= b)%Q.
Proof.
  unfold Qgt_bool, Qlt_bool. rewrite negb_false_iff. apply Qle_bool_iff.
Qed.

(** The scan for the largest runtime keeps the first child that attains
    it, and keeps the start when no child is above it. *)
Lemma fold_aggregate_step_runtime sub_results :
  forall res,
    let out := fold_left aggregate_step sub_results res in
    (runtime res <= runtime out)%Q /\
    Forall (fun r => (runtime r <= runtime out)%Q) sub_results /\
    ((runtime out = runtime res /\
      runtime_testcase out = runtime_testcase res) \/
     exists pre r post,
       sub_results = pre ++ r :: post /\
       runtime out = runtime r /\
       runtime_testcase out = runtime_testcase r /\
       (runtime res < runtime r)%Q /\
       Forall (fun x => (runtime x < runtime r)%Q) pre).
Proof.
  induction sub_results as [|r rs IH]; intros res; cbv zeta; simpl.
  - split; [apply Qle_refl|]. split; [constructor|]. left. auto.
  - destruct (aggregate_step_runtime res r) as [Hrt Htc].
    destruct (IH (aggregate_step res r)) as (Hle & Hall & Hsrc).
    cbv zeta in Hle, Hall, Hsrc.
    set (out := fold_left aggregate_step rs (aggregate_step res r)) in *.
    destruct (Qgt_bool (runtime r) (runtime res)) eqn:E.
    + apply Qgt_bool_true in E. rewrite Hrt in *.
      split; [eapply Qle_trans; [apply Qlt_le_weak; exact E|exact Hle]|].
      split; [constructor; [exact Hle|exact Hall]|].
      right. destruct Hsrc as [[H1 H2]|(pre & x & post & -> & H1 & H2 & H3 & H4)].
      * exists [], r, rs. rewrite H1, H2, Htc. repeat split; auto.
      * exists (r :: pre), x, post. repeat split; auto.
        eapply Qlt_trans; eauto.
    + apply Qgt_bool_false in E. rewrite Hrt in *.
      split; [exact Hle|].
      split; [constructor; [eapply Qle_trans; eauto|exact Hall]|].
      destruct Hsrc as [[H1 H2]|(pre & x & post & -> & H1 & H2 & H3 & H4)].
      * left. rewrite H1, H2, Htc. auto.
      * right. exists (r :: pre), x, post. repeat split; auto.
        constructor; [|exact H4]. eapply Qle_lt_trans; eauto.
Qed.

(** X13: what aggregate_results reports about time and samples, whenever it
    returns, in every grading mode and also on the JE path: the runtime of the
    group is the largest runtime of a child, taken with its test case from the
    first child that attains it, and it stays at -1 with no test case when no
    child ran longer than that; the sample failures are those of the children,
    in order. *)
Theorem aggregate_results_slowest pb g sub_results w res w' :
  aggregate_results pb g sub_results w = (Ok res, w') ->
  Forall (fun r => (runtime r <= runtime res)%Q) sub_results /\
  ((runtime res = (-1)%Q /\ runtime_testcase res = None) \/
   exists pre r post,
     sub_results = pre ++ r :: post /\
     runtime res = runtime r /\
     runtime_testcase res = runtime_testcase r /\
     Forall (fun x => (runtime x < runtime r)%Q) pre) /\
  sample_failures res = concat (map sample_failures sub_results).
Proof.
  intros Hrun.
  destruct (aggregate_results_first_loop _ _ _ _ _ _ Hrun)
    as (Hrt & Htc & _ & _ & Hsf).
  destruct (fold_aggregate_step_runtime sub_results
              (new_SubmissionResult None None None None))
    as (_ & Hall & Hsrc).
  cbv zeta in Hall, Hsrc. rewrite <- Hrt, <- Htc in *.
  split; [exact Hall|]. split.
  - destruct Hsrc as [[H1 H2]|(pre & x & post & H0 & H1 & H2 & _ & H4)].
    + left. auto.
    + right. exists pre, x, post. auto.
  - rewrite Hsf, fold_aggregate_step_sample_failures. reflexivity.
Qed.

Lemma aggregate_results_slowest_witness :
  exists res w',
    aggregate_results (mkProblem false true false)
      (mkGroupConfig 0%nat "sum" 10)
      [set_runtime 2 (new_SubmissionResult (Some AC) (Some 5%Q) None None);
       set_runtime 3 (new_SubmissionResult (Some AC) (Some 5%Q) None None);
       set_runtime 3 (new_SubmissionResult (Some WA) (Some 0%Q) None None)]
      initial_world
    = (Ok res, w') /\
    runtime res = 3%Q.
Proof.
  assert (Hrun : exists res w',
             aggregate_results (mkProblem false true false)
               (mkGroupConfig 0%nat "sum" 10)
               [set_runtime 2
                  (new_SubmissionResult (Some AC) (Some 5%Q) None None);
                set_runtime 3
                  (new_SubmissionResult (Some AC) (Some 5%Q) None None);
                set_runtime 3
                  (new_SubmissionResult (Some WA) (Some 0%Q) None None)]
               initial_world
             = (Ok res, w'))
    by (eexists _, _; vm_compute; reflexivity).
  destruct Hrun as (res & w' & Hrun). exists res, w'.
  split; [exact Hrun|].
  destruct (aggregate_results_slowest _ _ _ _ _ _ Hrun)
    as (Hall & _ & _).
  apply Forall_cons in Hall. destruct Hall as [_ Hall].
  apply Forall_cons in Hall. destruct Hall as [H3 _].
  revert Hrun H3. vm_compute. intros [= <- _] _. reflexivity.
Defined.

(** ** Further properties of the aggregation: what is reported *)

(** The world after the report of a score above the maximum of group [g]. *)
Lemma check_max_score_effect g res w :
  let out := check_max_score g res w in
  (out = (Ok tt, w)) \/
  ((g_id g ∉ seen_oob_scores w) /\
   (exists s, score res = Some s /\ ~ (s <= max_score g)%Q) /\
   out = (if bail_on_error w then Raise VerifyError else Ok tt,
          mkWorld (S (errors w)) (bail_on_error w) (submissions_check_res w)
            (<[g_id g := false]> (group_check_res w))
            ({[g_id g]} ∪ seen_oob_scores w) (result_cache w) (objs w)
            (next_ref w))).
Proof.
  cbv zeta. unfold check_max_score, has_seen_oob. unfold_monad.
  destruct (score res) as [s|]; [|left; reflexivity].
  destruct (Qle_bool s (max_score g)) eqn:Hle; cbn [negb andb];
    [left; reflexivity|].
  destruct (bool_decide (g_id g ∈ seen_oob_scores w)) eqn:Hseen;
    cbn [negb]; [left; reflexivity|].
  right. apply bool_decide_eq_false in Hseen. split; [exact Hseen|].
  split.
  - exists s. split; [reflexivity|]. intros H.
    apply Qle_bool_iff in H. congruence.
  - unfold mark_seen_oob, error. cbn [bail_on_error errors
      submissions_check_res group_check_res seen_oob_scores result_cache
      objs next_ref].
    destruct (bail_on_error w); reflexivity.
Qed.

Lemma aggregate_results_effect pb g sub_results w :
  let w' := snd (aggregate_results pb g sub_results w) in
  w' = w \/
  ((g_id g ∉ seen_oob_scores w) /\
   w' = mkWorld (S (errors w)) (bail_on_error w) (submissions_check_res w)
          (<[g_id g := false]> (group_check_res w))
          ({[g_id g]} ∪ seen_oob_scores w) (result_cache w) (objs w)
          (next_ref w)).
Proof.
  cbv zeta. unfold aggregate_results.
  destruct (List.find (verdict_is JE) sub_results) as [je|];
    [left; reflexivity|].
  set (base := match last sub_results with
               | Some l => _
               | None => _
               end). clearbody base.
  unfold_monad.
  assert (Hcheck : forall r,
    let w' := snd (match check_max_score g r w with
                   | (Ok _, w1) => (Ok r, w1)
                   | (Raise e, w1) => (Raise e, w1)
                   end) in
    w' = w \/
    ((g_id g ∉ seen_oob_scores w) /\
     w' = mkWorld (S (errors w)) (bail_on_error w) (submissions_check_res w)
            (<[g_id g := false]> (group_check_res w))
            ({[g_id g]} ∪ seen_oob_scores w) (result_cache w) (objs w)
            (next_ref w))).
  { intros r. cbv zeta.
    destruct (check_max_score_effect g r w) as [->|(Hn & _ & ->)];
      [left; reflexivity|].
    right. split; [exact Hn|]. destruct (bail_on_error w); reflexivity. }
  destruct (is_scoring pb); cbn [negb].
  - destruct (String.eqb (aggregation g) "min").
    + destruct (py_min (map score sub_results)) as [s|e];
        [apply Hcheck|left; reflexivity].
    + destruct (String.eqb (aggregation g) "sum").
      * destruct (py_sum (map score sub_results)) as [s|e];
          [apply Hcheck|left; reflexivity].
      * apply Hcheck.
  - destruct (non_AC_verdicts_pass_fail sub_results); left; reflexivity.
Qed.

(** X14: the report of a score above the maximum is made once for a group:
    over two calls of aggregate_results on one group, as run_submission makes
    them for the three limits, at most one error is counted, and a call that
    finds the latch set changes nothing. *)
Theorem aggregate_results_reports_once pb g sub_results sub_results' w :
  let w1 := snd (aggregate_results pb g sub_results w) in
  let w2 := snd (aggregate_results pb g sub_results' w1) in
  (errors w2 <= S (errors w))%nat /\
  (errors w1 = S (errors w) -> w2 = w1) /\
  (g_id g ∈ seen_oob_scores w -> w1 = w).
Proof.
  cbv zeta.
  destruct (aggregate_results_effect pb g sub_results w) as [H1|[Hn H1]];
    cbv zeta in H1; rewrite H1.
  - split; [|split; [|reflexivity]].
    + destruct (aggregate_results_effect pb g sub_results' w)
        as [H2|[_ H2]]; cbv zeta in H2; rewrite H2; simpl; lia.
    + intros H. lia.
  - set (w1 := mkWorld _ _ _ _ _ _ _ _).
    assert (Hseen : g_id g ∈ seen_oob_scores w1)
      by (unfold w1; cbn [seen_oob_scores]; set_solver).
    destruct (aggregate_results_effect pb g sub_results' w1)
      as [H2|[Hn2 _]]; [|contradiction].
    cbv zeta in H2. rewrite H2.
    split; [reflexivity|]. split; [reflexivity|].
    intros H. contradiction.
Qed.

Lemma fold_aggregate_step_verdict sub_results :
  forall res,
    verdict (fold_left aggregate_step sub_results res) = verdict res.
Proof.
  induction sub_results as [|r rs IH]; intros res; simpl; [reflexivity|].
  rewrite IH. unfold aggregate_step.
  destruct (Qgt_bool (runtime r) (runtime res)); simpl;
    match goal with |- context [if ?b then _ else _] => destruct b end;
    reflexivity.
Qed.

(** X15: in a scoring problem, a group whose aggregation is neither [min] nor
    [sum] gets a result without verdict and without score from
    aggregate_results, and nothing is reported by it. *)
Lemma aggregate_results_unknown_aggregation pb g sub_results w :
  is_scoring pb = true ->
  aggregation g <> "min"%string -> aggregation g <> "sum"%string ->
  Forall (fun r => verdict r <> Some JE) sub_results ->
  exists res,
    aggregate_results pb g sub_results w = (Ok res, w) /\
    verdict res = None /\ score res = None.
Proof.
  intros Hsc Hmin Hsum Hje. unfold aggregate_results.
  rewrite (find_JE_none _ Hje), Hsc.
  apply String.eqb_neq in Hmin, Hsum. rewrite Hmin, Hsum. cbn [negb].
  set (base := match last sub_results with
               | Some l => _
               | None => _
               end).
  assert (Hv : verdict base = None /\ score base = None).
  { unfold base. destruct (last sub_results);
      cbn [verdict score set_additional_info set_testcase];
      rewrite fold_aggregate_step_score, fold_aggregate_step_verdict;
      split; reflexivity. }
  destruct Hv as [Hv Hs]. unfold_monad.
  unfold check_max_score, has_seen_oob. unfold_monad. rewrite Hs.
  exists base. auto.
Qed.

Lemma aggregate_results_unknown_aggregation_witness :
  exists res,
    aggregate_results (mkProblem false true false)
      (mkGroupConfig 0%nat "max" 5)
      [new_SubmissionResult (Some AC) (Some 5%Q) None None] initial_world
    = (Ok res, initial_world) /\
    verdict res = None /\ score res = None.
Proof.
  apply (aggregate_results_unknown_aggregation (mkProblem false true false)
           (mkGroupConfig 0%nat "max" 5)
           [new_SubmissionResult (Some AC) (Some 5%Q) None None]
           initial_world).
  - reflexivity.
  - discriminate.
  - discriminate.
  - repeat constructor. discriminate.
Defined.

(** X16: in a scoring problem, the sum aggregation raises TypeError when a
    child has no score, as the result of a group with an unknown aggregation
    has; nothing is returned and nothing is reported. *)
Lemma aggregate_results_sum_missing_score pb g sub_results w :
  is_scoring pb = true ->
  aggregation g = "sum"%string ->
  Forall (fun r => verdict r <> Some JE) sub_results ->
  Exists (fun r => score r = None) sub_results ->
  aggregate_results pb g sub_results w = (Raise TypeError, w).
Proof.
  intros Hsc Hagg Hje Hnone. unfold aggregate_results.
  rewrite (find_JE_none _ Hje), Hsc, Hagg.
  change (String.eqb "sum" "min") with false.
  change (String.eqb "sum" "sum") with true. cbn [negb].
  assert (Hsum : py_sum (map score sub_results) = Raise TypeError).
  { clear Hje. unfold py_sum. generalize 0%Q.
    induction Hnone as [r rs Hr|r rs _ IH]; intros acc; simpl.
    - rewrite Hr. reflexivity.
    - destruct (score r); [apply IH|reflexivity]. }
  unfold_monad. rewrite Hsum. reflexivity.
Qed.

Lemma aggregate_results_sum_missing_score_witness :
  aggregate_results (mkProblem false true false)
    (mkGroupConfig 0%nat "sum" 10)
    [new_SubmissionResult (Some AC) (Some 5%Q) None None;
     new_SubmissionResult None None None None] initial_world
  = (Raise TypeError, initial_world).
Proof.
  apply (aggregate_results_sum_missing_score (mkProblem false true false)
           (mkGroupConfig 0%nat "sum" 10)
           [new_SubmissionResult (Some AC) (Some 5%Q) None None;
            new_SubmissionResult None None None None] initial_world).
  - reflexivity.
  - reflexivity.
  - repeat constructor; discriminate.
  - right. left. reflexivity.
Defined.

(** ** Properties of the run of a group *)

(** The loop inside [run_submission] is [run_children]. *)
Lemma run_submission_group pb exec_of sub args timelim timelim_low
    timelim_high g items w :
  run_submission pb exec_of sub args timelim timelim_low timelim_high
    (ItemGroup g items) w
  = ('(subres, subres_low, subres_high) ←
       run_children
         (run_submission pb exec_of sub args timelim timelim_low timelim_high)
         items [] [] [];
     res ← aggregate_results pb g subres;
     res_low ← aggregate_results pb g subres_low;
     res_high ← aggregate_results pb g subres_high;
     mret (res, res_low, res_high)) w.
Proof.
  cbn [run_submission].
  set (run := run_submission pb exec_of sub args timelim timelim_low
                timelim_high).
  unfold mbind at 1. unfold M_bind at 1. unfold bind at 1.
  symmetry.
  unfold mbind at 1. unfold M_bind at 1. unfold bind at 1.
  symmetry.
  match goal with
  | |- context [?f items [] [] [] w] =>
      assert (Hloop : forall items a b c w,
                f items a b c w = run_children run items a b c w)
  end.
  { clearbody run. clear.
    induction items as [|it its IH]; intros a b c w; [reflexivity|].
    cbn [run_children].
    assert (Hsel : selected it = match it with
                                 | ItemTestCase tc => tc_matches_filter tc
                                 | ItemGroup _ _ => true
                                 end) by reflexivity.
    rewrite Hsel.
    destruct (negb _); [apply IH|].
    unfold mbind, M_bind, bind.
    destruct (run it w) as [[[[r rl] rh]|e] w1]; [apply IH|reflexivity]. }
  rewrite Hloop. reflexivity.
Qed.

(** What the loop collects: one result per selected child in each of the
    three lists, appended in order. *)
Lemma run_children_spec run items :
  forall a b c w x y z w',
    run_children run items a b c w = (Ok (x, y, z), w') ->
    exists rs rl rh,
      x = a ++ rs /\ y = b ++ rl /\ z = c ++ rh /\
      length rs = length (List.filter selected items) /\
      length rl = length rs /\ length rh = length rs.
Proof.
  induction items as [|it its IH]; intros a b c w x y z w'; cbn [run_children].
  - intros [= <- <- <- <-]. exists [], [], [].
    rewrite !app_nil_r. repeat split.
  - cbn [List.filter]. destruct (selected it); cbn [negb].
    + unfold mbind, M_bind, bind.
      destruct (run it w) as [[[[r rl] rh]|e] w1]; [|discriminate].
      intros H. apply IH in H.
      destruct H as (rs & rls & rhs & -> & -> & -> & H1 & H2 & H3).
      exists (r :: rs), (rl :: rls), (rh :: rhs).
      rewrite <- !app_assoc. cbn [app length].
      repeat split; congruence.
    + apply IH.
Qed.

Lemma filter_selected_nil items :
  List.filter selected items = [] -> Forall excluded items.
Proof.
  induction items as [|it its IH]; [constructor|].
  cbn [List.filter]. destruct (selected it) eqn:E; [discriminate|].
  intros H. constructor; [|apply IH; exact H].
  destruct it as [tc|g its']; [exact E|discriminate E].
Qed.

Lemma aggregate_results_pass_fail_returns pb g sub_results w res w' :
  is_scoring pb = false ->
  aggregate_results pb g sub_results w = (Ok res, w') ->
  w' = w /\
  (verdict res = Some JE \/ (sub_results = [] /\ verdict res = Some AC)).
Proof.
  intros Hsc. unfold aggregate_results.
  destruct (List.find (verdict_is JE) sub_results) as [je|] eqn:Hfind.
  - intros [= <- <-]. split; [reflexivity|]. left.
    apply find_some in Hfind. destruct Hfind as [_ Hje].
    apply verdict_is_true in Hje. exact Hje.
  - rewrite Hsc. cbn [negb]. destruct sub_results as [|r rs].
    + intros [= <- <-]. split; [reflexivity|]. right. split; reflexivity.
    + discriminate.
Qed.

(** X17: in a pass/fail problem, TestCaseGroup.run_submission returns for a
    group only in two cases: the result is a JE taken from a child, or the
    data filter selects no child of the group and the result is AC. In every
    other case the call ends in an exception, so that no group with a selected
    child ever gets a verdict other than JE. This holds for each of the three
    results. *)
Theorem run_submission_pass_fail_group pb exec_of sub args timelim
    timelim_low timelim_high g items w res res_low res_high w' :
  is_scoring pb = false ->
  run_submission pb exec_of sub args timelim timelim_low timelim_high
    (ItemGroup g items) w
  = (Ok (res, res_low, res_high), w') ->
  (verdict res = Some JE \/ (verdict res = Some AC /\ Forall excluded items))
  /\
  (verdict res_low = Some JE \/
   (verdict res_low = Some AC /\ Forall excluded items)) /\
  (verdict res_high = Some JE \/
   (verdict res_high = Some AC /\ Forall excluded items)).
Proof.
  intros Hsc. rewrite run_submission_group.
  unfold mbind at 1. unfold M_bind at 1. unfold bind at 1.
  destruct (run_children _ items [] [] [] w) as [[[[x y] z]|e] w1] eqn:Hloop;
    [|discriminate].
  destruct (run_children_spec _ _ _ _ _ _ _ _ _ _ Hloop)
    as (rs & rl & rh & -> & -> & -> & Hlen & Hl & Hh).
  cbn [app]. unfold mbind, M_bind, bind, mret, M_ret, ret.
  destruct (aggregate_results pb g rs w1) as [[r1|e] w2] eqn:H1;
    [|discriminate].
  destruct (aggregate_results pb g rl w2) as [[r2|e] w3] eqn:H2;
    [|discriminate].
  destruct (aggregate_results pb g rh w3) as [[r3|e] w4] eqn:H3;
    [|discriminate].
  intros [= <- <- <- <-].
  assert (Hex : forall l : list SubmissionResult,
             length l = length rs -> l = [] -> Forall excluded items).
  { intros l Hll ->. apply filter_selected_nil.
    apply length_zero_iff_nil. rewrite <- Hlen, <- Hll. reflexivity. }
  destruct (aggregate_results_pass_fail_returns _ _ _ _ _ _ Hsc H1)
    as [_ [Hje1|[He1 Hv1]]];
  destruct (aggregate_results_pass_fail_returns _ _ _ _ _ _ Hsc H2)
    as [_ [Hje2|[He2 Hv2]]];
  destruct (aggregate_results_pass_fail_returns _ _ _ _ _ _ Hsc H3)
    as [_ [Hje3|[He3 Hv3]]];
  repeat split; eauto 6.
Qed.

Lemma run_submission_pass_fail_group_witness :
  exists res res_low res_high w',
    run_submission (mkProblem false false false)
      (fun _ => mkExecution 0 1 [] false []) 0%nat 0%nat 5 5 10
      (ItemGroup (mkGroupConfig 0%nat "" 0)
         [ItemTestCase (mkTestCase 0%nat 0 false true None)])
      initial_world
    = (Ok (res, res_low, res_high), w') /\
    verdict res = Some JE.
Proof.
  assert (Hrun : exists res res_low res_high w',
             run_submission (mkProblem false false false)
               (fun _ => mkExecution 0 1 [] false []) 0%nat 0%nat 5 5 10
               (ItemGroup (mkGroupConfig 0%nat "" 0)
                  [ItemTestCase (mkTestCase 0%nat 0 false true None)])
               initial_world
             = (Ok (res, res_low, res_high), w'))
    by (eexists _, _, _, _; vm_compute; reflexivity).
  destruct Hrun as (res & res_low & res_high & w' & Hrun).
  exists res, res_low, res_high, w'. split; [exact Hrun|].
  destruct (run_submission_pass_fail_group (mkProblem false false false)
              _ _ _ _ _ _ _ _ _ _ _ _ _ eq_refl Hrun) as ([H|[_ H]] & _ & _); [exact H|].
  exfalso. inversion H as [|? ? Hx _]. discriminate Hx.
Defined.

(** ** Further properties of the inference of the time limits *)

(** X18: the three outcomes of the inference. Without a runtime the limits
    stay as they were. With one, a safety margin of zero makes the division
    raise; any other margin gives a time limit of at least one second with [lo
    <= timelim < margin], and [lo < timelim] as soon as the time limit is more
    than one second. *)
Theorem infer_time_limits_ordered runtimes time_multiplier safety_margin
    limits :
  (runtimes = [] ->
   infer_time_limits runtimes time_multiplier safety_margin limits
   = Ok limits) /\
  (runtimes <> [] -> (safety_margin == 0)%Q ->
   infer_time_limits runtimes time_multiplier safety_margin limits
   = Raise ZeroDivisionError) /\
  (runtimes <> [] -> ~ (safety_margin == 0)%Q ->
   exists timelim lo margin,
     infer_time_limits runtimes time_multiplier safety_margin limits
     = Ok (timelim, lo, margin) /\
     1 <= lo /\ lo <= timelim /\ timelim < margin /\
     (1 < timelim -> lo < timelim)).
Proof.
  split; [|split].
  - intros ->. reflexivity.
  - intros Hne Hsm. destruct runtimes as [|r rest]; [contradiction|].
    unfold infer_time_limits.
    apply Qeq_bool_iff in Hsm. rewrite Hsm. reflexivity.
  - intros Hne Hsm. destruct runtimes as [|r rest]; [contradiction|].
    unfold infer_time_limits.
    destruct (Qeq_bool safety_margin 0) eqn:E;
      [apply Qeq_bool_iff in E; contradiction|].
    eexists _, _, _. split; [reflexivity|]. lia.
Qed.

(** ** The maximum score of a group *)

Lemma check_max_score_within g res w :
  (forall s, score res = Some s -> (s <= max_score g)%Q) ->
  check_max_score g res w = (Ok tt, w).
Proof.
  intros H.
  destruct (check_max_score_effect g res w) as [E|(_ & (s & Hs & Hn) & _)];
    [exact E|].
  exfalso. apply Hn, H, Hs.
Qed.

Lemma init_result_score pb tc v :
  is_scoring pb = true -> score v = None ->
  score (_init_result_for_testcase pb tc v)
  = Some (if verdict_is AC v then tc_grading_score tc else 0%Q) /\
  verdict (_init_result_for_testcase pb tc v) = verdict v.
Proof.
  intros Hsc Hv. unfold _init_result_for_testcase.
  cbn [score set_testcase set_runtime_testcase]. rewrite Hv, Hsc.
  rewrite bool_decide_eq_true_2 by reflexivity. cbn [andb].
  assert (E : verdict_is AC (set_runtime_testcase (Some (tc_id tc))
                               (set_testcase (Some (tc_id tc)) v))
              = verdict_is AC v) by reflexivity.
  rewrite E. destruct (verdict_is AC v); split; reflexivity.
Qed.

Lemma get_testcases_leaves (tcs : list TestCase) :
  get_testcases (map ItemTestCase tcs) = tcs /\
  get_subgroups (map ItemTestCase tcs) = [].
Proof.
  induction tcs as [|tc tcs [IH1 IH2]]; [split; reflexivity|].
  unfold get_testcases, get_subgroups in *. simpl.
  rewrite IH1, IH2. split; reflexivity.
Qed.

Lemma py_sum_from_leaves pb sc (runs : list (TestCase * SubmissionResult)) :
  is_scoring pb = true -> (0 <= sc)%Q ->
  Forall (fun p => tc_grading_score (fst p) = sc /\ score (snd p) = None)
    runs ->
  forall acc acc', (acc <= acc')%Q ->
  exists s m,
    py_sum_from acc
      (map score
         (map (fun p => _init_result_for_testcase pb (fst p) (snd p)) runs))
    = Ok s /\
    py_sum_from acc' (map (fun _ : TestCase => Some sc) (map fst runs))
    = Ok m /\
    (s <= m)%Q.
Proof.
  intros Hsc Hpos Hruns.
  induction Hruns as [|[tc v] runs [Htc Hv] _ IH]; intros acc acc' Hle.
  - exists acc, acc'. repeat split; auto.
  - cbn [map fst snd py_sum_from].
    cbn [fst snd] in Htc, Hv.
    destruct (init_result_score pb tc v Hsc Hv) as [-> _].
    rewrite Htc. apply IH.
    destruct (verdict_is AC v).
    + apply Qplus_le_compat; [exact Hle|apply Qle_refl].
    + apply Qplus_le_compat; [exact Hle|exact Hpos].
Qed.

Lemma py_min_from_const sc (l : list TestCase) :
  py_min_from (Some sc) (map (fun _ : TestCase => Some sc) l) = Ok (Some sc).
Proof.
  induction l as [|x l IH]; [reflexivity|].
  cbn [map py_min_from].
  assert (E : Qlt_bool sc sc = false).
  { unfold Qlt_bool. apply negb_false_iff, Qle_bool_iff, Qle_refl. }
  rewrite E. exact IH.
Qed.

(** X19: the scores that test cases get from _init_result_for_testcase never
    exceed the maximum that compute_max_score computes for their group. In a
    scoring problem, take a group with sum or min aggregation that holds test
    cases only, each worth the non-negative score of the group, and results
    that come without a score of their own, as they do without custom scoring.
    If the maximum score of the group is at least what compute_max_score
    returns, aggregate_results returns a result whose score is within the
    maximum and reports nothing, even under bail_on_error. *)
Theorem leaf_group_score_within_max pb g sc
    (runs : list (TestCase * SubmissionResult)) m w :
  is_scoring pb = true ->
  aggregation g = "sum"%string \/ aggregation g = "min"%string ->
  (0 <= sc)%Q ->
  Forall (fun p => tc_grading_score (fst p) = sc /\ score (snd p) = None)
    runs ->
  compute_max_score sc g (map ItemTestCase (map fst runs)) = Ok (Some m) ->
  (m <= max_score g)%Q ->
  exists res,
    aggregate_results pb g
      (map (fun p => _init_result_for_testcase pb (fst p) (snd p)) runs) w
    = (Ok res, w) /\
    (forall s, score res = Some s -> (s <= max_score g)%Q).
Proof.
  intros Hsc Hagg Hpos Hruns Hmax Hm.
  set (sub_results :=
         map (fun p => _init_result_for_testcase pb (fst p) (snd p)) runs).
  unfold compute_max_score in Hmax. cbv zeta in Hmax.
  destruct (get_testcases_leaves (map fst runs)) as [Htcs Hsub].
  rewrite Htcs, Hsub in Hmax. cbn [map] in Hmax. rewrite app_nil_r in Hmax.
  unfold aggregate_results.
  destruct (List.find (verdict_is JE) sub_results) as [je|] eqn:Hfind.
  - eexists. split; [reflexivity|].
    cbn [score set_testcase set_additional_info set_reason set_verdict].
    rewrite fold_aggregate_step_score. discriminate.
  - rewrite Hsc. cbn [negb].
    set (base := match last sub_results with
                 | Some l => _
                 | None => _
                 end).
    destruct Hagg as [Hagg|Hagg]; rewrite Hagg in *.
    + change (String.eqb "sum" "min") with false.
      change (String.eqb "sum" "sum") with true in *.
      cbv iota in Hmax |- *.
      destruct (py_sum_from_leaves pb sc runs Hsc Hpos Hruns 0 0
                  (Qle_refl 0)) as (s & m' & Hs & Hm' & Hle).
      fold sub_results in Hs.
      unfold py_sum in Hmax |- *. rewrite Hm' in Hmax.
      unfold mbind, Outcome_bind in Hmax. injection Hmax as <-.
      unfold_monad. rewrite Hs.
      rewrite check_max_score_within.
      * eexists. split; [reflexivity|].
        intros s' [= <-]. eapply Qle_trans; eauto.
      * intros s' Hs'.
        destruct (forallb (verdict_is AC) sub_results);
          [|destruct (forallb _ sub_results)];
          injection Hs' as <-; eapply Qle_trans; eauto.
    + change (String.eqb "min" "sum") with false in Hmax.
      change (String.eqb "min" "min") with true in *.
      cbv iota in Hmax |- *.
      destruct runs as [|[tc v] runs]; [discriminate Hmax|].
      cbn [map fst py_min] in Hmax. rewrite py_min_from_const in Hmax.
      injection Hmax as <-.
      assert (Hall : Forall (fun r => is_Some (score r)) sub_results).
      { unfold sub_results. apply Forall_map.
        eapply Forall_impl; [exact Hruns|].
        intros [tc' v'] [_ Hv']. cbn [fst snd] in *.
        destruct (init_result_score pb tc' v' Hsc Hv') as [-> _]. eauto. }
      assert (Hmin : exists q,
                 py_min (map score sub_results) = Ok (Some q) /\
                 (q <= sc)%Q).
      { unfold sub_results in *. cbn [map fst snd] in *.
        inversion Hruns as [|? ? [Htc Hv] Hruns']; subst.
        cbn [fst snd] in *.
        destruct (init_result_score pb tc v Hsc Hv) as [Hfirst _].
        cbn [py_min]. rewrite Hfirst.
        inversion Hall as [|? ? _ Hall']; subst.
        destruct (py_min_from_spec _ (proj2 (Forall_map _ _ _) Hall')
                    (if verdict_is AC v then tc_grading_score tc else 0%Q))
          as (q & Hq & _ & Hleast).
        exists q. split; [exact Hq|].
        eapply Qle_trans; [apply Hleast; left; reflexivity|].
        destruct (verdict_is AC v); [apply Qle_refl|exact Hpos]. }
      destruct Hmin as (q & Hq & Hle).
      unfold_monad. rewrite Hq.
      rewrite check_max_score_within.
      * eexists. split; [reflexivity|].
        intros s' [= <-]. eapply Qle_trans; eauto.
      * intros s' [= <-]. eapply Qle_trans; eauto.
Qed.

Lemma leaf_group_score_within_max_witness :
  let pb := mkProblem false true false in
  let g := mkGroupConfig 1%nat "sum" 10 in
  let w := mkWorld 0%nat true None ∅ ∅ ∅ ∅ 0%nat in
  exists res,
    aggregate_results pb g
      [_init_result_for_testcase pb (mkTestCase 0%nat 5 false true None)
         (new_SubmissionResult (Some AC) None None None);
       _init_result_for_testcase pb (mkTestCase 1%nat 5 false true None)
         (new_SubmissionResult (Some WA) None None None)] w
    = (Ok res, w) /\
    (forall s, score res = Some s -> (s <= 10)%Q).
Proof.
  cbv zeta.
  apply (leaf_group_score_within_max (mkProblem false true false)
           (mkGroupConfig 1%nat "sum" 10) 5
           [(mkTestCase 0%nat 5 false true None,
             new_SubmissionResult (Some AC) None None None);
            (mkTestCase 1%nat 5 false true None,
             new_SubmissionResult (Some WA) None None None)]
           (0 + 5 + 5)%Q).
  - reflexivity.
  - left. reflexivity.
  - discriminate.
  - repeat constructor.
  - reflexivity.
  - discriminate.
Defined.

(** ** The discipline of the error reports *)

Lemma error_discipline_ext {A} (c c' : M A) :
  (forall w, c w = c' w) -> error_discipline c' -> error_discipline c.
Proof. intros Heq H w. rewrite Heq. apply H. Qed.

Lemma error_discipline_silent {A} (c : M A) :
  (forall w, fst (c w) <> Raise VerifyError /\
             bail_on_error (snd (c w)) = bail_on_error w /\
             errors (snd (c w)) = errors w) ->
  error_discipline c.
Proof.
  intros H w. destruct (H w) as (Ho & Hb & He).
  rewrite Hb, He. split; [reflexivity|]. split; [auto|]. intros _. auto.
Qed.

Lemma error_discipline_ret {A} (a : A) : error_discipline (ret a).
Proof.
  apply error_discipline_silent. intros w. repeat split. discriminate.
Qed.

Lemma error_discipline_lift {A} (o : Outcome A) :
  o <> Raise VerifyError -> error_discipline (lift o).
Proof.
  intros Ho. apply error_discipline_silent. intros w. repeat split. exact Ho.
Qed.

Lemma error_discipline_bind {A B} (c : M A) (k : A -> M B) :
  error_discipline c -> (forall a, error_discipline (k a)) ->
  error_discipline (bind c k).
Proof.
  intros Hc Hk w. unfold bind.
  destruct (Hc w) as (Hb & Hbail & Hfree).
  destruct (c w) as [[a|e] w1]; cbn [fst snd] in *.
  - destruct (Hk a w1) as (Hb' & Hbail' & Hfree').
    split; [congruence|]. split.
    + intros Hw. destruct (Hbail Hw) as [He|[_ He]]; [|discriminate He].
      rewrite <- He. apply Hbail'. congruence.
    + intros Hw. destruct (Hfree Hw) as [He _].
      destruct Hfree' as [He' Hne]; [congruence|].
      split; [lia|exact Hne].
  - split; [exact Hb|]. split.
    + intros Hw. destruct (Hbail Hw) as [He|[He Hr]]; [left; exact He|].
      right. split; [exact He|]. injection Hr as ->. reflexivity.
    + intros Hw. destruct (Hfree Hw) as [He Hne].
      split; [exact He|]. intros [= ->]. apply Hne. reflexivity.
Qed.

Lemma error_discipline_error a : error_discipline (error a).
Proof.
  intros w. unfold error.
  destruct a; destruct (bail_on_error w) eqn:Hb;
    cbn [fst snd bail_on_error errors];
    (split; [reflexivity|]); (split; intros H);
    try discriminate; auto; split; auto; discriminate.
Qed.

Lemma error_discipline_alloc v : error_discipline (alloc v).
Proof.
  apply error_discipline_silent. intros w. repeat split. discriminate.
Qed.

Lemma error_discipline_load l : error_discipline (load l).
Proof.
  apply error_discipline_silent. intros w. unfold load.
  destruct (objs w !! l); repeat split; discriminate.
Qed.

Lemma error_discipline_update l f : error_discipline (update l f).
Proof.
  apply error_discipline_silent. intros w. unfold update.
  destruct (objs w !! l); repeat split; discriminate.
Qed.

Lemma error_discipline_lookup_cache t : error_discipline (lookup_cache t).
Proof.
  apply error_discipline_silent. intros w. repeat split. discriminate.
Qed.

Lemma error_discipline_store_cache t entry :
  error_discipline (store_cache t entry).
Proof.
  apply error_discipline_silent. intros w. repeat split. discriminate.
Qed.

Lemma error_discipline_mark_seen_oob g : error_discipline (mark_seen_oob g).
Proof.
  apply error_discipline_silent. intros w. repeat split. discriminate.
Qed.

Lemma error_discipline_has_seen_oob g : error_discipline (has_seen_oob g).
Proof.
  apply error_discipline_silent. intros w. repeat split. discriminate.
Qed.

Create HintDb discipline discriminated.

#[local] Hint Resolve error_discipline_ret error_discipline_error
  error_discipline_alloc error_discipline_load error_discipline_update
  error_discipline_lookup_cache error_discipline_store_cache
  error_discipline_mark_seen_oob error_discipline_has_seen_oob : discipline.

(** One step through the structure of a computation. *)
Ltac discipline_step :=
  lazymatch goal with
  | |- error_discipline (mbind _ _) =>
      unfold mbind at 1; unfold M_bind at 1; apply error_discipline_bind
  | |- error_discipline (bind _ _) => apply error_discipline_bind
  | |- error_discipline (mret _) =>
      unfold mret, M_ret; apply error_discipline_ret
  | |- error_discipline (lift _) =>
      apply error_discipline_lift; try discriminate
  | |- error_discipline (if ?b then _ else _) => destruct b
  | |- error_discipline (match ?x with _ => _ end) => destruct x
  | |- forall _, _ => intro
  | |- _ => solve [auto with discipline]
  end.

Ltac discipline := repeat discipline_step.

Lemma error_discipline_validate_interactive_loop custom_score timelim runs :
  forall res,
    error_discipline
      (validate_interactive_loop custom_score timelim runs res).
Proof.
  induction runs as [|run runs IH]; intros res;
    cbn [validate_interactive_loop]; discipline.
Qed.

Lemma error_discipline_validate_interactive custom_score timelim tool runs :
  error_discipline (validate_interactive custom_score timelim tool runs).
Proof.
  unfold validate_interactive. destruct tool; cbn [negb].
  - apply error_discipline_validate_interactive_loop.
  - discipline.
Qed.

#[local] Hint Resolve error_discipline_validate_interactive : discipline.

Lemma error_discipline_compute_res_high pb timelim_high ex :
  error_discipline (compute_res_high pb timelim_high ex).
Proof. unfold compute_res_high. cbv zeta. discipline. Qed.

Lemma error_discipline_classify timelim timelim_low res_high :
  error_discipline (classify timelim timelim_low res_high).
Proof. unfold classify. discipline. Qed.

#[local] Hint Resolve error_discipline_compute_res_high
  error_discipline_classify : discipline.

Lemma error_discipline_run_uncached pb self cache_key timelim timelim_low
    timelim_high ex :
  error_discipline
    (run_uncached pb self cache_key timelim timelim_low timelim_high ex).
Proof. unfold run_uncached. discipline. Qed.

#[local] Hint Resolve error_discipline_run_uncached : discipline.

Lemma error_discipline_run_submission_real pb tc sub args timelim
    timelim_low timelim_high ex :
  error_discipline
    (_run_submission_real pb tc sub args timelim timelim_low timelim_high
       ex).
Proof.
  induction tc as [self sc smp flt|self sc smp flt target IH]
    using TestCase_alias_ind; cbn [_run_submission_real].
  - cbv zeta. discipline.
  - exact IH.
Qed.

#[local] Hint Resolve error_discipline_run_submission_real : discipline.

Lemma error_discipline_TestCase_run_submission pb tc sub args timelim
    timelim_low timelim_high ex :
  error_discipline
    (TestCase_run_submission pb tc sub args timelim timelim_low timelim_high
       ex).
Proof.
  unfold TestCase_run_submission, append_sample_failure. discipline.
Qed.

Lemma error_discipline_check_max_score g res :
  error_discipline (check_max_score g res).
Proof. unfold check_max_score. discipline. Qed.

#[local] Hint Resolve error_discipline_TestCase_run_submission
  error_discipline_check_max_score : discipline.

Lemma non_AC_verdicts_pass_fail_not_VerifyError sub_results :
  non_AC_verdicts_pass_fail sub_results <> Raise VerifyError.
Proof. destruct sub_results; discriminate. Qed.

Lemma py_min_from_not_VerifyError xs :
  forall cur, py_min_from cur xs <> Raise VerifyError.
Proof.
  induction xs as [|x xs IH]; intros cur; simpl; [discriminate|].
  destruct x, cur; try discriminate; apply IH.
Qed.

Lemma py_min_not_VerifyError xs : py_min xs <> Raise VerifyError.
Proof.
  destruct xs; [discriminate|]. apply py_min_from_not_VerifyError.
Qed.

Lemma py_sum_not_VerifyError xs : py_sum xs <> Raise VerifyError.
Proof.
  unfold py_sum. generalize 0%Q.
  induction xs as [|x xs IH]; intros acc; simpl; [discriminate|].
  destruct x; [apply IH|discriminate].
Qed.

Lemma error_discipline_aggregate_results pb g sub_results :
  error_discipline (aggregate_results pb g sub_results).
Proof.
  unfold aggregate_results. cbv zeta.
  pose proof (non_AC_verdicts_pass_fail_not_VerifyError sub_results).
  pose proof (py_min_not_VerifyError (map score sub_results)).
  pose proof (py_sum_not_VerifyError (map score sub_results)).
  discipline.
Qed.

#[local] Hint Resolve error_discipline_aggregate_results : discipline.

Lemma error_discipline_run_children run items :
  Forall (fun it => error_discipline (run it)) items ->
  forall a b c, error_discipline (run_children run items a b c).
Proof.
  induction 1 as [|it its Hit _ IH]; intros a b c; cbn [run_children];
    discipline; auto.
Qed.

(** X20: the error count over a run of a submission on a whole tree of test
    data, through the cache, the validators, the interactive coordinator and
    the aggregation in every group: bail_on_error keeps its value; when it is
    set, the run either counts no error or counts exactly one and ends in
    VerifyError; when it is clear, the count never decreases and VerifyError
    is never raised. *)
Theorem run_submission_error_discipline pb exec_of sub args timelim
    timelim_low timelim_high :
  forall it,
    error_discipline
      (run_submission pb exec_of sub args timelim timelim_low timelim_high
         it).
Proof.
  fix IH 1. intros [tc|g items].
  - cbn [run_submission]. auto with discipline.
  - eapply error_discipline_ext; [apply run_submission_group|].
    assert (Hitems : Forall (fun it =>
                       error_discipline
                         (run_submission pb exec_of sub args timelim
                            timelim_low timelim_high it)) items).
    { induction items as [|it its IHits]; constructor; [apply IH|].
      exact IHits. }
    pose proof (error_discipline_run_children _ _ Hitems).
    discipline; auto.
Qed.

(** ** The order of the groups *)

Lemma ord_nonneg c : 0 <= ord c.
Proof. unfold ord. lia. Qed.

(** Against the empty name, with which the loop starts, the comparison
    says no for a numbered name. *)
Lemma natural_sort_le_first (p : string) (n : N) :
  Forall (fun c => is_digit c = false /\ c <> Ascii.zero)
    (list_ascii_of_string p) ->
  natural_sort_le (p ++ py_str n) "" = Ok false.
Proof.
  intros Hp. unfold natural_sort_le.
  destruct (py_str_digits n) as [_ (cn & sn & Hn & Hdn)].
  set (b := ("" ++ String Ascii.zero EmptyString)%string).
  assert (Hfirst : exists c rest,
             ((p ++ py_str n) ++ String Ascii.zero EmptyString)%string
             = String c rest /\ c <> Ascii.zero /\
             (is_digit c = true -> True)).
  { destruct p as [|c p].
    - exists cn, (sn ++ String Ascii.zero EmptyString)%string.
      rewrite string_append_nil_l, Hn. split; [reflexivity|].
      split; [|auto]. intros ->. discriminate Hdn.
    - simpl in Hp. inversion Hp as [|? ? [_ Hc] _]; subst.
      eexists c, _. split; [reflexivity|]. auto. }
  destruct Hfirst as (c & rest & -> & Hc & _).
  rewrite natural_sort_le_loop_step.
  cbn [String.length Nat.ltb Nat.leb andb].
  change (char_at (String c rest) 0) with (@Ok ascii c).
  change (char_at b 0) with (@Ok ascii Ascii.zero).
  unfold mbind, Outcome_bind. cbv beta iota.
  assert (Hboth : (if is_digit c then Ok (is_digit Ascii.zero) else Ok false)
                  = @Ok bool false)
    by (destruct (is_digit c); reflexivity).
  rewrite Hboth. cbv beta iota.
  destruct (Ascii.eqb_spec c Ascii.zero) as [E|_]; [contradiction|].
  f_equal. apply Z.ltb_ge. apply ord_nonneg.
Qed.

Lemma check_group_order_from g p :
  Forall (fun c => is_digit c = false) (list_ascii_of_string p) ->
  forall ns last s,
    consider_warnings_errors s = false ->
    check_group_order g (map (fun n => (p ++ py_str n)%string) ns)
      (p ++ py_str last) s
    = (Ok tt,
       mkReporter (world s) (warnings s + descents last ns)%nat false).
Proof.
  intros Hp. induction ns as [|n ns IH]; intros last s Hs.
  - cbn [map check_group_order descents]. unfold mret, MR_ret.
    rewrite Nat.add_0_r, <- Hs. destruct s; reflexivity.
  - cbn [map check_group_order descents].
    unfold mbind, MR_bind, in_outcome.
    rewrite (natural_sort_le_numbered p n last Hp).
    destruct (n <=? last)%N.
    + unfold warning. rewrite Hs.
      rewrite IH by reflexivity. cbn [world warnings]. f_equal. f_equal. lia.
    + unfold mret, MR_ret. rewrite IH by exact Hs. reflexivity.
Qed.

(** X21: the loop of TestCaseGroup.check over subgroups named by a common
    prefix without digits and a number each: with warnings that are not
    errors, it returns and has warned once for every name whose number is not
    above the number of the name before it; in particular never when the
    numbers increase. *)
Theorem check_group_order_numbered g p n ns s :
  Forall (fun c => is_digit c = false /\ c <> Ascii.zero)
    (list_ascii_of_string p) ->
  consider_warnings_errors s = false ->
  check_group_order g (map (fun n => (p ++ py_str n)%string) (n :: ns)) "" s
  = (Ok tt, mkReporter (world s) (warnings s + descents n ns)%nat false).
Proof.
  intros Hp Hs. cbn [map check_group_order].
  unfold mbind at 1. unfold MR_bind at 1. unfold in_outcome at 1.
  rewrite (natural_sort_le_first p n Hp).
  unfold mbind, MR_bind, mret, MR_ret.
  apply check_group_order_from; [|exact Hs].
  eapply Forall_impl; [exact Hp|]. intros c [Hc _]. exact Hc.
Qed.

Lemma check_group_order_numbered_witness :
  check_group_order 0%nat
    ["data/secret/group1"; "data/secret/group10"; "data/secret/group2"]%string
    "" (mkReporter initial_world 0 false)
  = (Ok tt, mkReporter initial_world 1 false).
Proof.
  apply (check_group_order_numbered 0%nat "data/secret/group" 1 [10; 2]%N
           (mkReporter initial_world 0 false)).
  - repeat constructor; discriminate.
  - reflexivity.
Defined.

(** ** The names that check_basename accepts *)

Lemma nullable_lang r : nullable r = true <-> lang r [].
Proof.
  induction r as [| |f|r IHr s IHs|r IHr s IHs|r IHr]; simpl.
  - split; [discriminate|]. intros H. inversion H.
  - split; [constructor|reflexivity].
  - split; [discriminate|]. intros H. inversion H.
  - rewrite andb_true_iff, IHr, IHs. split.
    + intros [H1 H2]. apply (lang_seq r s [] [] H1 H2).
    + intros H. inversion H as [| |? ? x y Hx Hy| | | |]; subst.
      match goal with
      | E : x ++ y = [] |- _ => apply app_eq_nil in E; destruct E as [-> ->]
      end.
      auto.
  - rewrite orb_true_iff, IHr, IHs. split.
    + intros [H|H]; [apply lang_alt_l|apply lang_alt_r]; exact H.
    + intros H. inversion H; subst; auto.
  - split; [constructor|reflexivity].
Qed.

Lemma deriv_lang_sound r a :
  forall s, lang (deriv a r) s -> lang r (a :: s).
Proof.
  induction r as [| |f|r IHr s IHs|r IHr s IHs|r IHr]; intros t H;
    cbn [deriv] in H.
  - inversion H.
  - inversion H.
  - destruct (f a) eqn:E; inversion H; subst.
    constructor. exact E.
  - assert (Hseq : lang (Seq (deriv a r) s) t -> lang (Seq r s) (a :: t)).
    { intros Hs. inversion Hs as [| |? ? x y Hx Hy| | | |]; subst.
      apply (lang_seq r s (a :: x) y); auto. }
    destruct (nullable r) eqn:E; [|auto].
    inversion H; subst; [auto|].
    apply (lang_seq r s [] (a :: t)); [apply nullable_lang, E|auto].
  - inversion H; subst; [apply lang_alt_l|apply lang_alt_r]; auto.
  - inversion H as [| |? ? x y Hx Hy| | | |]; subst.
    apply (lang_star_cons r (a :: x) y); auto.
Qed.

Lemma deriv_lang_complete r l :
  lang r l -> forall a s, l = a :: s -> lang (deriv a r) s.
Proof.
  induction 1 as [|f c Hc|r s x y Hx IHx Hy IHy|r s x Hx IHx|r s x Hx IHx
                  |r|r x y Hx IHx Hy IHy]; intros a t Heq; cbn [deriv].
  - discriminate.
  - injection Heq as -> <-. rewrite Hc. constructor.
  - destruct x as [|b x].
    + cbn [app] in Heq. subst y.
      rewrite (proj2 (nullable_lang r) Hx).
      apply lang_alt_r. apply IHy. reflexivity.
    + cbn [app] in Heq. injection Heq as -> <-.
      pose proof (lang_seq _ _ _ _ (IHx a x eq_refl) Hy) as Hs.
      destruct (nullable r); [apply lang_alt_l|]; exact Hs.
  - apply lang_alt_l. apply IHx. exact Heq.
  - apply lang_alt_r. apply IHx. exact Heq.
  - discriminate.
  - destruct x as [|b x].
    + cbn [app] in Heq. apply (IHy a t Heq).
    + cbn [app] in Heq. injection Heq as -> <-.
      apply lang_seq; [apply IHx; reflexivity|exact Hy].
Qed.

(** The matcher decides the language. *)
Lemma matches_lang s : forall r, matches r s = true <-> lang r s.
Proof.
  induction s as [|a s IH]; intros r; cbn [matches].
  - apply nullable_lang.
  - rewrite IH. split.
    + apply deriv_lang_sound.
    + intros H. eapply deriv_lang_complete; eauto.
Qed.

Lemma lang_star_class f s :
  lang (Star (Class f)) s <-> Forall (fun c => f c = true) s.
Proof.
  split.
  - intros H. remember (Star (Class f)) as r eqn:Hr.
    induction H as [| | | | | |r x y Hx _ Hy IHy]; try discriminate.
    + constructor.
    + injection Hr as ->. inversion Hx; subst.
      constructor; [assumption|]. apply IHy. reflexivity.
  - induction 1 as [|c s Hc _ IH]; [constructor|].
    apply (lang_star_cons (Class f) [c] s); [constructor; exact Hc|exact IH].
Qed.

Lemma lang_basename_regex cs :
  lang basename_regex cs <-> basename_shape cs.
Proof.
  unfold basename_regex, basename_shape. split.
  - intros H. inversion H as [| |? ? x y Hx Hy| | | |]; subst.
    inversion Hx; subst.
    inversion Hy as [| |? ? mid z Hmid Hz| | | |]; subst.
    inversion Hz; subst.
    apply lang_star_class in Hmid.
    eexists _, _, _. split; [reflexivity|]. auto.
  - intros (first & mid & last & -> & Hf & Hmid & Hl).
    apply (lang_seq _ _ [first] (mid ++ [last])); [constructor; exact Hf|].
    apply lang_seq; [apply lang_star_class; exact Hmid|].
    constructor. exact Hl.
Qed.

Lemma re_match_anchored_basename s :
  re_match_anchored basename_regex s = true <->
  basename_shape (list_ascii_of_string s) \/
  exists cs, list_ascii_of_string s = cs ++ ["010"%char] /\
             basename_shape cs.
Proof.
  unfold re_match_anchored. cbv zeta.
  set (cs := list_ascii_of_string s).
  rewrite orb_true_iff, matches_lang, lang_basename_regex.
  split; (intros [H|H]; [left; exact H|right]).
  - destruct (last cs) as [c|] eqn:Hlast; [|discriminate].
    apply andb_true_iff in H. destruct H as [Hc Hm].
    apply Ascii.eqb_eq in Hc. subst c.
    apply matches_lang, lang_basename_regex in Hm.
    exists (removelast cs). split; [|exact Hm].
    apply last_Some in Hlast. destruct Hlast as [l' ->].
    rewrite removelast_last. reflexivity.
  - destruct H as (cs' & -> & Hshape).
    rewrite last_snoc, removelast_last, Ascii.eqb_refl. cbn [andb].
    apply matches_lang, lang_basename_regex. exact Hshape.
Qed.

(** X22: the names that check_basename lets through are those made of an
    alphanumeric character, any number of characters among the alphanumeric
    ones, the underscore, the dot and the hyphen, and an alphanumeric
    character, with or without a newline after them; for any other name one
    error is reported. So a name of one character is always reported. *)
Theorem check_basename_accepts a s w :
  (check_basename a s w = (Ok tt, w) <->
   basename_shape (list_ascii_of_string s) \/
   exists cs, list_ascii_of_string s = cs ++ ["010"%char] /\
              basename_shape cs) /\
  (check_basename a s w = (Ok tt, w) \/ check_basename a s w = error a w) /\
  ((String.length s < 2)%nat -> check_basename a s w = error a w).
Proof.
  assert (Herr : error a w <> (Ok tt, w)).
  { unfold error. destruct a, (bail_on_error w); intros H;
      try discriminate H; injection H as H;
      apply (f_equal errors) in H; simpl in H; lia. }
  unfold check_basename.
  rewrite <- re_match_anchored_basename.
  destruct (re_match_anchored basename_regex s) eqn:E; cbn [negb].
  - split; [split; auto|]. split; [left; reflexivity|].
    intros Hlen. exfalso.
    apply re_match_anchored_basename in E.
    assert (Hl : length (list_ascii_of_string s) = String.length s).
    { clear. induction s as [|c s IH]; simpl; auto. }
    destruct E as [(f & mid & l & Hs & _)|(cs & Hs & f & mid & l & -> & _)];
      rewrite Hs in Hl; cbn [length] in Hl;
      rewrite ?length_app in Hl; cbn [length] in Hl; lia.
  - split; [|split; [right; reflexivity|reflexivity]].
    split; [intros H; contradiction|discriminate].
Qed.

(** ** The shared list of sample failures *)

Lemma init_result_sample_failures pb tc v :
  sample_failures (_init_result_for_testcase pb tc v) = sample_failures v.
Proof.
  unfold _init_result_for_testcase.
  destruct (bool_decide _ && is_scoring pb); [|reflexivity].
  destruct (verdict_is AC _); reflexivity.
Qed.

(** X23: [copy.copy] is shallow, so the copy that TestCase.run_submission
    returns shares its list of sample failures with the cached result. When
    the result is not AC and the test case is a sample, the append reaches the
    cached result: the copy returned lists the failures the cached result
    already had and itself, and the cached result lists them too from then on,
    so that a later run answered from the cache starts from the longer list.
    *)
Theorem run_submission_sample_failures_shared pb tc sub args timelim
    timelim_low timelim_high ex w l l_low l_high reused w1 v :
  wf_world w ->
  _run_submission_real pb tc sub args timelim timelim_low timelim_high ex w
  = (Ok (l, l_low, l_high, reused), w1) ->
  objs w1 !! l = Some v ->
  verdict v <> Some AC -> tc_in_sample tc = true ->
  exists r r_low r_high w2,
    TestCase_run_submission pb tc sub args timelim timelim_low timelim_high
      ex w = (Ok (r, r_low, r_high), w2) /\
    sample_failures r = sample_failures v ++ [next_ref w1] /\
    objs w2 !! l
    = Some (set_sample_failures (sample_failures v ++ [next_ref w1]) v).
Proof.
  intros Hwf Hrun Hv Hnac Hsample.
  pose proof (run_submission_real_wf pb tc sub args timelim timelim_low
                timelim_high ex w Hwf) as Hout.
  cbv zeta in Hout. rewrite Hrun in Hout. cbn [fst snd] in Hout.
  destruct Hout as (_ & _ & [Hl _] & [Hll [vl Hvl]] & [Hlh [vh Hvh]]).
  assert (Hac : verdict_is AC v = false).
  { destruct (verdict_is AC v) eqn:E; [|reflexivity].
    apply verdict_is_true in E. contradiction. }
  unfold TestCase_run_submission.
  unfold mbind at 1. unfold M_bind at 1. unfold bind at 1. rewrite Hrun.
  unfold_monad. unfold append_sample_failure, load, update, alloc.
  rewrite Hv. simpl. heap_lookup. rewrite Hvl. simpl. heap_lookup.
  rewrite Hvh. simpl. rewrite Hac, Hsample. cbn [negb andb].
  destruct (bool_decide (l_low = l)) eqn:E1;
    destruct (bool_decide (l_high = l)) eqn:E2;
    repeat (simpl; first [ rewrite Hv | rewrite Hvl | rewrite Hvh
                         | progress heap_lookup ]);
    simpl; eexists _, _, _, _; (split; [reflexivity|]);
    cbn [objs sample_failures set_sample_failures]; heap_lookup;
    rewrite ?init_result_sample_failures; split; reflexivity.
Qed.

Lemma run_submission_sample_failures_shared_witness :
  let pb := mkProblem false true false in
  let tc := mkTestCase 0%nat 1 true true None in
  let ex := mkExecution 0 1 [ValRan (43 * 256) (mkFeedback None None)]
              false [] in
  exists r r_low r_high w2,
    TestCase_run_submission pb tc 0%nat 0%nat 5 5 10 ex initial_world
    = (Ok (r, r_low, r_high), w2) /\
    sample_failures r = [1%nat].
Proof.
  cbv zeta.
  set (v := set_runtime 1 (new_SubmissionResult (Some WA) None None None)).
  set (w1 := mkWorld 0%nat false None ∅ ∅
               (<[0%nat := ((0%nat, 0%nat, 5, 5, 10),
                            (0%nat, 0%nat, 0%nat))]> ∅)
               (<[0%nat := v]> ∅) 1%nat).
  assert (Hrun : _run_submission_real (mkProblem false true false)
                   (mkTestCase 0%nat 1 true true None) 0%nat 0%nat 5 5 10
                   (mkExecution 0 1
                      [ValRan (43 * 256) (mkFeedback None None)] false [])
                   initial_world
                 = (Ok (0%nat, 0%nat, 0%nat, false), w1))
    by (vm_compute; reflexivity).
  assert (Hv : objs w1 !! 0%nat = Some v) by (vm_compute; reflexivity).
  destruct (run_submission_sample_failures_shared _ _ _ _ _ _ _ _ _ _ _ _ _
              _ _ initial_world_wf Hrun Hv)
    as (r & r_low & r_high & w2 & Hsub & Hsf & _).
  - discriminate.
  - reflexivity.
  - exists r, r_low, r_high, w2. split; [exact Hsub|exact Hsf].
Defined.

(** ** The check of the grading of a group *)

(** X24: what the grading block of TestCaseGroup.check does in a scoring
    problem. With an aggregation that is neither sum nor min it reports the
    error and then never returns: compute_max_score gives None, and the
    comparison of None with the maximum raises TypeError, unless bail_on_error
    has raised VerifyError before. With min aggregation and no child at all it
    raises ValueError. When compute_max_score gives a number and warnings are
    not errors, it returns with at most one warning, and with none exactly
    when the number equals the maximum. *)
Theorem check_grading_outcomes pb sc g items s :
  is_scoring pb = true ->
  (aggregation g <> "sum"%string -> aggregation g <> "min"%string ->
   check_grading pb sc g items s
   = (Raise (if bail_on_error (world s) then VerifyError else TypeError),
      mkReporter (snd (error (GroupAspect (g_id g)) (world s)))
        (warnings s) (consider_warnings_errors s))) /\
  (aggregation g = "min"%string -> items = [] ->
   check_grading pb sc g items s = (Raise ValueError, s)) /\
  (forall m,
     aggregation g = "sum"%string \/ aggregation g = "min"%string ->
     compute_max_score sc g items = Ok (Some m) ->
     consider_warnings_errors s = false ->
     check_grading pb sc g items s
     = (Ok tt,
        mkReporter (world s)
          (warnings s + (if Qeq_bool m (max_score g) then 0 else 1))%nat
          false)).
Proof.
  intros Hsc. unfold check_grading. rewrite Hsc. split; [|split].
  - intros Hsum Hmin. apply String.eqb_neq in Hsum, Hmin.
    unfold compute_max_score. rewrite Hsum, Hmin. cbn [orb negb].
    unfold mbind, MR_bind, in_world, in_outcome, error.
    destruct (bail_on_error (world s)); reflexivity.
  - intros Hmin ->. unfold compute_max_score. rewrite Hmin.
    reflexivity.
  - intros m Hagg Hm Hs.
    assert (Hknown : negb (String.eqb (aggregation g) "sum"
                           || String.eqb (aggregation g) "min") = false)
      by (destruct Hagg as [-> | ->]; reflexivity).
    rewrite Hknown, Hm.
    destruct s as [w n cwe]. cbn [consider_warnings_errors] in Hs. subst cwe.
    unfold mbind, MR_bind, mret, MR_ret, in_outcome, py_gt, py_lt, warning.
    cbn [world warnings consider_warnings_errors].
    unfold Qgt_bool, Qlt_bool.
    destruct (Qle_bool m (max_score g)) eqn:E1;
      destruct (Qle_bool (max_score g) m) eqn:E2;
      cbn [negb world warnings consider_warnings_errors].
    + assert (E : Qeq_bool m (max_score g) = true).
      { apply Qeq_bool_iff, Qle_antisym; apply Qle_bool_iff; assumption. }
      rewrite E, Nat.add_0_r. reflexivity.
    + assert (E : Qeq_bool m (max_score g) = false).
      { destruct (Qeq_bool m (max_score g)) eqn:E; [|reflexivity].
        apply Qeq_bool_iff in E. apply Qle_bool_false in E2.
        rewrite E in E2. exfalso. apply (Qlt_irrefl _ E2). }
      rewrite E. f_equal. f_equal. lia.
    + assert (E : Qeq_bool m (max_score g) = false).
      { destruct (Qeq_bool m (max_score g)) eqn:E; [|reflexivity].
        apply Qeq_bool_iff in E. apply Qle_bool_false in E1.
        rewrite E in E1. exfalso. apply (Qlt_irrefl _ E1). }
      rewrite E. f_equal. f_equal. lia.
    + apply Qle_bool_false in E1, E2. exfalso.
      apply (Qlt_irrefl m). eapply Qlt_trans; eauto.
Qed.

Lemma check_grading_outcomes_witness :
  check_grading (mkProblem false true false) 1
    (mkGroupConfig 0%nat "max" 3)
    [ItemTestCase (mkTestCase 0%nat 1 false true None)]
    (mkReporter initial_world 0 false)
  = (Raise TypeError,
     mkReporter (mkWorld 1%nat false None (<[0%nat := false]> ∅) ∅ ∅ ∅ 0%nat)
       0 false).
Proof.
  apply (check_grading_outcomes (mkProblem false true false) 1
           (mkGroupConfig 0%nat "max" 3)
           [ItemTestCase (mkTestCase 0%nat 1 false true None)]
           (mkReporter initial_world 0 false) eq_refl);
    discriminate.
Defined.

(** ** The run with the low limit at the time limit *)

Lemma run_submission_real_low pb tc sub args timelim timelim_high ex w
    l l_low l_high reused w1 :
  low_is_res w ->
  _run_submission_real pb tc sub args timelim timelim timelim_high ex w
  = (Ok (l, l_low, l_high, reused), w1) ->
  l_low = l /\ low_is_res w1.
Proof.
  intros Hinv.
  rewrite (run_submission_real_target pb tc sub args timelim timelim
             timelim_high ex).
  pose proof (reuse_target_root tc) as Hroot.
  destruct (reuse_target tc) as [self sc smp flt reuse].
  simpl in Hroot. subst reuse.
  rewrite (run_submission_real_root pb self sc smp flt sub args timelim
             timelim timelim_high ex w).
  set (key := (sub, args, timelim, timelim, timelim_high)).
  destruct (cache_hit (result_cache w !! self) key)
    as [[[r1 r2] r3]|] eqn:Hhit.
  - intros [= <- <- <- <- <-]. split; [|exact Hinv].
    unfold cache_hit in Hhit.
    destruct (result_cache w !! self) as [[k triple]|] eqn:Hc;
      [|discriminate].
    destruct (bool_decide (k = key)) eqn:Hk; [|discriminate].
    apply bool_decide_eq_true in Hk. subst k. injection Hhit as ->.
    exact (Hinv _ _ _ _ _ _ _ _ Hc).
  - intros Hrun.
    destruct (compute_res_high pb timelim_high ex w) as [[l0|e] w0] eqn:Hc.
    + destruct (compute_res_high_fresh _ _ _ _ _ _ Hc)
        as (_ & _ & [rh Hrh] & _ & _).
      destruct (run_uncached_classification pb self key timelim timelim
                  timelim_high ex w l0 w0 rh (Z.le_refl _) Hc Hrh)
        as (res & res_low & w2 & Hrun' & H1 & H2 & H3 & H4).
      destruct (run_uncached_ok pb self key timelim timelim timelim_high ex
                  w l0 w0 Hc)
        as (res' & res_low' & w2' & Hrun'' & _ & _ & _ & _ & Hcache).
      rewrite Hrun' in Hrun''. injection Hrun'' as <- <- <-.
      rewrite Hrun in Hrun'. injection Hrun' as E1 E2 E3 E4. subst.
      assert (Heq : res_low = res).
      { destruct (Qlt_le_dec (inject_Z timelim) (runtime rh)) as [Hgt|Hle].
        - destruct (validator_first rh) eqn:Hvf;
            [destruct (decide (verdict rh = Some WA)) as [Hwa|Hwa]|].
          + destruct (H3 Hgt eq_refl Hwa) as [-> _]. reflexivity.
          + destruct (H4 Hgt) as [-> _]; [|reflexivity].
            intros [_ Hv]. contradiction.
          + destruct (H4 Hgt) as [-> _]; [|reflexivity].
            intros [Hv _]. discriminate.
        - destruct (H1 Hle) as [-> ->]. reflexivity. }
      split; [exact Heq|].
      intros t sub' args' tl' hi' a b c Ht. rewrite Hcache in Ht.
      destruct (decide (self = t)) as [->|Hne].
      * rewrite lookup_insert_eq in Ht. injection Ht; intros; congruence.
      * rewrite lookup_insert_ne in Ht by exact Hne.
        exact (Hinv _ _ _ _ _ _ _ _ Ht).
    + rewrite (run_uncached_raises _ _ _ _ _ _ _ _ _ _ Hc) in Hrun.
      discriminate.
Qed.

(** TestCase.run_submission only adds to the heap. *)
Lemma TestCase_run_submission_heap pb tc sub args timelim timelim_low
    timelim_high ex w l l_low l_high reused w' v v_low v_high :
  _run_submission_real pb tc sub args timelim timelim_low timelim_high ex w
  = (Ok (l, l_low, l_high, reused), w') ->
  (l < next_ref w')%nat -> (l_low < next_ref w')%nat ->
  (l_high < next_ref w')%nat ->
  objs w' !! l = Some v -> objs w' !! l_low = Some v_low ->
  objs w' !! l_high = Some v_high ->
  exists r r_low r_high w'',
    TestCase_run_submission pb tc sub args timelim timelim_low timelim_high
      ex w = (Ok (r, r_low, r_high), w'') /\
    (next_ref w' <= next_ref w'')%nat /\
    (forall x, is_Some (objs w' !! x) -> is_Some (objs w'' !! x)).
Proof.
  intros Hrun Hl Hll Hlh Hv Hvl Hvh.
  unfold TestCase_run_submission.
  unfold mbind at 1. unfold M_bind at 1. unfold bind at 1. rewrite Hrun.
  unfold_monad. unfold append_sample_failure, load, update, alloc.
  rewrite Hv. simpl. heap_lookup. rewrite Hvl. simpl. heap_lookup.
  rewrite Hvh. simpl.
  destruct (negb (verdict_is AC v) && tc_in_sample tc);
    [destruct (bool_decide (l_low = l)) eqn:E1;
     destruct (bool_decide (l_high = l)) eqn:E2|];
    repeat (simpl; first [ rewrite Hv | rewrite Hvl | rewrite Hvh
                         | progress heap_lookup ]);
    simpl; eexists _, _, _, _; (split; [reflexivity|]);
    cbn [next_ref objs]; (split; [lia|]);
    intros x Hx; rewrite ?lookup_insert_is_Some'; auto 10.
Qed.

Lemma low_is_res_same_cache w w' :
  result_cache w' = result_cache w -> low_is_res w -> low_is_res w'.
Proof. unfold low_is_res. intros ->. auto. Qed.

(** The invariants of the heap and of the cache pass through
    TestCase.run_submission, and with the low limit at the time limit the
    low result is the result. *)
Lemma TestCase_run_submission_low pb tc sub args timelim timelim_high ex w
    r r_low r_high w'' :
  wf_world w -> low_is_res w ->
  TestCase_run_submission pb tc sub args timelim timelim timelim_high ex w
  = (Ok (r, r_low, r_high), w'') ->
  r_low = r /\ wf_world w'' /\ low_is_res w''.
Proof.
  intros Hwf Hinv Hsub.
  pose proof (run_submission_real_wf pb tc sub args timelim timelim
                timelim_high ex w Hwf) as Hout. cbv zeta in Hout.
  destruct (_run_submission_real pb tc sub args timelim timelim timelim_high
              ex w) as [[[[[l ll] lh] reused]|e] w1] eqn:Hrun.
  - cbn [fst snd] in Hout.
    destruct Hout as (Hwf1 & _ & [Hl [v Hv]] & [Hll [vl Hvl]]
                      & [Hlh [vh Hvh]]).
    destruct (run_submission_real_low _ _ _ _ _ _ _ _ _ _ _ _ _ Hinv Hrun)
      as [Heq Hinv1].
    destruct (TestCase_run_submission_ok _ _ _ _ _ _ _ _ _ _ _ _ _ _ _ _ _
                Hrun Hl Hll Hlh Hv Hvl Hvh)
      as (r' & rl' & rh' & w2 & Hsub' & _ & _ & _ & Hcache & Hlow & _).
    destruct (TestCase_run_submission_heap _ _ _ _ _ _ _ _ _ _ _ _ _ _ _ _ _
                Hrun Hl Hll Hlh Hv Hvl Hvh)
      as (r2 & rl2 & rh2 & w3 & Hsub2 & Hnext & Hkeep).
    rewrite Hsub in Hsub', Hsub2.
    injection Hsub' as E1 E2 E3 E4. injection Hsub2 as E5 E6 E7 E8. subst.
    split; [apply Hlow; reflexivity|]. split.
    + intros t key a b c Ht. rewrite Hcache in Ht.
      destruct (Hwf1 _ _ _ _ _ Ht) as ([? ?] & [? ?] & [? ?]).
      unfold allocated. repeat split; try lia; auto.
    + eapply low_is_res_same_cache; eauto.
  - rewrite (TestCase_run_submission_raises _ _ _ _ _ _ _ _ _ _ _ Hrun)
      in Hsub.
    discriminate.
Qed.

Lemma aggregate_results_same_store pb g sub_results w :
  same_store w (snd (aggregate_results pb g sub_results w)).
Proof.
  destruct (aggregate_results_effect pb g sub_results w) as [H|[_ H]];
    cbv zeta in H; rewrite H; repeat split.
Qed.

Lemma same_store_low_is_res w w' :
  same_store w w' -> low_is_res w -> low_is_res w'.
Proof.
  intros (_ & _ & Hc). apply low_is_res_same_cache. exact Hc.
Qed.

(** The result that aggregate_results returns does not depend on the
    state in which it is called. *)
Lemma aggregate_results_value pb g sub_results w w' r r' w1 w1' :
  aggregate_results pb g sub_results w = (Ok r, w1) ->
  aggregate_results pb g sub_results w' = (Ok r', w1') ->
  r = r'.
Proof.
  unfold aggregate_results.
  destruct (List.find (verdict_is JE) sub_results) as [je|].
  - intros [= <- <-] [= <- <-]. reflexivity.
  - set (base := match last sub_results with
                 | Some l => _
                 | None => _
                 end). clearbody base.
    unfold_monad.
    destruct (is_scoring pb); cbn [negb].
    + destruct (String.eqb (aggregation g) "min");
        [|destruct (String.eqb (aggregation g) "sum")].
      * destruct (py_min (map score sub_results)) as [s|e];
          [|discriminate].
        destruct (check_max_score g _ w) as [[[]|e] w2]; [|discriminate].
        destruct (check_max_score g _ w') as [[[]|e] w2']; [|discriminate].
        intros [= <- <-] [= <- <-]. reflexivity.
      * destruct (py_sum (map score sub_results)) as [s|e];
          [|discriminate].
        destruct (check_max_score g _ w) as [[[]|e] w2]; [|discriminate].
        destruct (check_max_score g _ w') as [[[]|e] w2']; [|discriminate].
        intros [= <- <-] [= <- <-]. reflexivity.
      * destruct (check_max_score g _ w) as [[[]|e] w2]; [|discriminate].
        destruct (check_max_score g _ w') as [[[]|e] w2']; [|discriminate].
        intros [= <- <-] [= <- <-]. reflexivity.
    + destruct (non_AC_verdicts_pass_fail sub_results) as [vs|e];
        [|discriminate].
      intros [= <- <-] [= <- <-]. reflexivity.
Qed.

Lemma run_children_low
    (run : Item -> M (SubmissionResult * SubmissionResult * SubmissionResult))
    items :
  Forall (fun it => forall w r r_low r_high w',
            wf_world w -> low_is_res w ->
            run it w = (Ok (r, r_low, r_high), w') ->
            r_low = r /\ wf_world w' /\ low_is_res w') items ->
  forall a b c w x y z w',
    wf_world w -> low_is_res w -> b = a ->
    run_children run items a b c w = (Ok (x, y, z), w') ->
    y = x /\ wf_world w' /\ low_is_res w'.
Proof.
  induction 1 as [|it its Hit _ IH]; intros a b c w x y z w' Hwf Hinv Hab;
    cbn [run_children].
  - intros [= <- <- <- <-]. auto.
  - destruct (negb (selected it)); [apply IH; assumption|].
    unfold mbind, M_bind, bind.
    destruct (run it w) as [[[[r rl] rh]|e] w1] eqn:Hrun; [|discriminate].
    destruct (Hit _ _ _ _ _ Hwf Hinv Hrun) as (-> & Hwf1 & Hinv1).
    apply IH; [assumption|assumption|congruence].
Qed.

(** X25: when TestCaseGroup.run_submission is called with the low limit equal
    to the time limit, as check_submission calls it for every expected verdict
    but PAC, the low result it returns equals the result, for a test case and
    for a group with all that is below it, through the cache and the aliases.
    The heap stays well-formed and the cache keeps the property that makes
    this so. *)
Theorem run_submission_low_at_limit pb exec_of sub args timelim
    timelim_high :
  forall it w res res_low res_high w',
    wf_world w -> low_is_res w ->
    run_submission pb exec_of sub args timelim timelim timelim_high it w
    = (Ok (res, res_low, res_high), w') ->
    res_low = res /\ wf_world w' /\ low_is_res w'.
Proof.
  fix IH 1. intros [tc|g items] w res res_low res_high w' Hwf Hinv.
  - cbn [run_submission]. apply TestCase_run_submission_low; assumption.
  - rewrite run_submission_group.
    assert (Hitems : Forall (fun it => forall w r r_low r_high w',
                       wf_world w -> low_is_res w ->
                       run_submission pb exec_of sub args timelim timelim
                         timelim_high it w = (Ok (r, r_low, r_high), w') ->
                       r_low = r /\ wf_world w' /\ low_is_res w') items).
    { induction items as [|it its IHits]; constructor; [apply IH|].
      exact IHits. }
    unfold mbind at 1. unfold M_bind at 1. unfold bind at 1.
    destruct (run_children _ items [] [] [] w) as [[[[x y] z]|e] w1]
      eqn:Hloop; [|discriminate].
    destruct (run_children_low _ _ Hitems _ _ _ _ _ _ _ _ Hwf Hinv eq_refl
                Hloop) as (-> & Hwf1 & Hinv1).
    unfold mbind, M_bind, bind, mret, M_ret, ret.
    pose proof (aggregate_results_same_store pb g x w1) as Hs1.
    destruct (aggregate_results pb g x w1) as [[r1|e] w2] eqn:H1;
      [|discriminate].
    pose proof (aggregate_results_same_store pb g x w2) as Hs2.
    destruct (aggregate_results pb g x w2) as [[r2|e] w3] eqn:H2;
      [|discriminate].
    pose proof (aggregate_results_same_store pb g z w3) as Hs3.
    destruct (aggregate_results pb g z w3) as [[r3|e] w4] eqn:H3;
      [|discriminate].
    cbn [snd] in Hs1, Hs2, Hs3.
    intros [= <- <- <- <-].
    split; [symmetry; eapply aggregate_results_value; eauto|].
    split.
    + eapply same_store_wf; [exact Hs3|].
      eapply same_store_wf; [exact Hs2|].
      eapply same_store_wf; [exact Hs1|exact Hwf1].
    + eapply same_store_low_is_res; [exact Hs3|].
      eapply same_store_low_is_res; [exact Hs2|].
      eapply same_store_low_is_res; [exact Hs1|exact Hinv1].
Qed.

Lemma initial_world_low_is_res : low_is_res initial_world.
Proof. intros t sub args tl hi a b c Ht. discriminate Ht. Qed.

Lemma run_submission_low_at_limit_witness :
  exists res res_low res_high w',
    run_submission (mkProblem false true false)
      (fun _ => mkExecution 0 7 [ValRan (42 * 256) (mkFeedback None None)]
                  false [])
      0%nat 0%nat 5 5 10
      (ItemGroup (mkGroupConfig 0%nat "sum" 2)
         [ItemTestCase (mkTestCase 0%nat 1 false true None);
          ItemTestCase (mkTestCase 1%nat 1 false true None)])
      initial_world
    = (Ok (res, res_low, res_high), w') /\
    res_low = res.
Proof.
  assert (Hrun : exists res res_low res_high w',
             run_submission (mkProblem false true false)
               (fun _ => mkExecution 0 7
                           [ValRan (42 * 256) (mkFeedback None None)]
                           false [])
               0%nat 0%nat 5 5 10
               (ItemGroup (mkGroupConfig 0%nat "sum" 2)
                  [ItemTestCase (mkTestCase 0%nat 1 false true None);
                   ItemTestCase (mkTestCase 1%nat 1 false true None)])
               initial_world
             = (Ok (res, res_low, res_high), w'))
    by (eexists _, _, _, _; vm_compute; reflexivity).
  destruct Hrun as (res & res_low & res_high & w' & Hrun).
  exists res, res_low, res_high, w'. split; [exact Hrun|].
  exact (proj1 (run_submission_low_at_limit _ _ _ _ _ _ _ _ _ _ _ _
                  initial_world_wf initial_world_low_is_res Hrun)).
Defined.
